(** * beadcrumbs: the storage and synchronisation core, checked against its code

    A shallow embedding of the Go packages [types], [store] (with its
    migrations), [jsonl] and of the graph walks of [cmd/bdc]
    ([traceChain], [runTrace], [filterUnresolved]), with the properties
    the specification states about them.

    Conventions of the embedding:
    - a Go [string] is a [string] (a sequence of bytes);
    - a Go slice [[]T] is a [slice T]: [None] is the nil slice, [Some l]
      a non-nil slice with the elements [l];
    - a [time.Time] is the instant it denotes, an integer count of
      nanoseconds since the zero time (January 1, year 1, UTC), so that
      [IsZero] is a comparison with [0];
    - a [float32] is the IEEE value as a [spec_float];
    - a function returning [(T, error)] returns a [result T]; code that
      changes the database or the file system passes the state along. *)

From Stdlib Require Import ZArith Strings.Ascii Strings.Byte Floats.SpecFloat.
From stdpp Require Import gmap strings list pretty sorting.

Local Open Scope Z_scope.

(** ** Go values *)

Definition slice (A : Type) : Type := option (list A).

(** [len(s)]: a nil slice has length [0]. *)
Definition len {A} (s : slice A) : nat :=
  match s with
  | None => 0%nat
  | Some l => length l
  end.

(** The elements a [for _, x := range s] visits. *)
Definition elems {A} (s : slice A) : list A :=
  match s with
  | None => []
  | Some l => l
  end.

Definition Time : Type := Z.
Definition float32 : Type := spec_float.

#[global] Instance float32_eq_dec : EqDecision float32.
Proof. unfold float32. solve_decision. Defined.

(** [t.IsZero()] *)
Definition IsZero (t : Time) : bool := t =? 0.

(** Go errors. [Errorf] is [fmt.Errorf] without a wrapped cause, [Wrapf]
    is [fmt.Errorf("msg: %w", cause)]; the other constructors are the
    errors the libraries raise. *)
Inductive error : Type :=
  | Errorf (msg : string)
  | Wrapf (msg : string) (cause : error)
  | SqliteConstraint (kind detail : string)
      (* "<kind> constraint failed: <detail>" *)
  | SqliteError (msg : string)
  | ErrTooLong                       (* bufio.ErrTooLong *)
  | JSONError (msg : string)         (* encoding/json *)
  | PathError (op path : string).    (* os *)

Inductive result (A : Type) : Type :=
  | Ok (a : A)
  | Err (e : error).
Arguments Ok {A} a.
Arguments Err {A} e.

#[global] Instance error_eq_dec : EqDecision error.
Proof. solve_decision. Defined.

#[global] Instance result_eq_dec `{EqDecision A} : EqDecision (result A).
Proof. solve_decision. Defined.

#[global] Instance result_ret : MRet result := λ A a, Ok a.
#[global] Instance result_bind : MBind result := λ A B k r,
  match r with
  | Ok a => k a
  | Err e => Err e
  end.

(** [err.Error()] for the errors above. *)
Fixpoint Error (e : error) : string :=
  match e with
  | Errorf msg => msg
  | Wrapf msg cause => msg +:+ ": " +:+ Error cause
  | SqliteConstraint kind detail =>
      "constraint failed: " +:+ kind +:+ " constraint failed: " +:+ detail
  | SqliteError msg => msg
  | ErrTooLong => "bufio.Scanner: token too long"
  | JSONError msg => msg
  | PathError op path => op +:+ " " +:+ path
  end.


(** [strings.Contains(s, substr)] *)
Fixpoint strings_Contains (s substr : string) : bool :=
  String.prefix substr s ||
  match s with
  | EmptyString => false
  | String _ s' => strings_Contains s' substr
  end.

(** [strings.ReplaceAll(s, "\n", " ")] *)
Fixpoint replaceNewlines (s : string) : string :=
  match s with
  | EmptyString => EmptyString
  | String c s' =>
      String (if decide (c = "010"%char) then " "%char else c) (replaceNewlines s')
  end.

(** [strings.ToUpper] on ASCII text. *)
Definition upperByte (c : ascii) : ascii :=
  let n := nat_of_ascii c in
  if decide (97 ≤ n ≤ 122)%nat then ascii_of_nat (n - 32) else c.

Fixpoint strings_ToUpper (s : string) : string :=
  match s with
  | EmptyString => EmptyString
  | String c s' => String (upperByte c) (strings_ToUpper s')
  end.

(** The one-character string holding a double quote. *)
Definition dquote : string := String "034"%char EmptyString.

(** The one-character string holding a line feed. *)
Definition newline : string := String "010"%char EmptyString.

(** [strings.ToLower] on ASCII text; also the case folding SQLite
    applies to the names of tables, columns, indexes and triggers. *)
Definition lowerByte (c : ascii) : ascii :=
  let n := nat_of_ascii c in
  if decide (65 ≤ n ≤ 90)%nat then ascii_of_nat (n + 32) else c.

Fixpoint strings_ToLower (s : string) : string :=
  match s with
  | EmptyString => EmptyString
  | String c s' => String (lowerByte c) (strings_ToLower s')
  end.

(** ** Package types *)

Module types.

Definition InsightType : Type := string.

Definition InsightHypothesis : InsightType := "hypothesis".
Definition InsightDiscovery : InsightType := "discovery".
Definition InsightQuestion : InsightType := "question".
Definition InsightFeedback : InsightType := "feedback".
Definition InsightPivot : InsightType := "pivot".
Definition InsightDecision : InsightType := "decision".

Record InsightSource : Type := mkInsightSource {
  SourceType : string;
  Ref : string;
  Participants : slice string
}.

Record Insight : Type := mkInsight {
  ID : string;
  Timestamp : Time;
  Content : string;
  Summary : string;
  Type_ : InsightType;
  Confidence : float32;
  Source : InsightSource;
  ThreadID : string;
  AuthorID : string;
  EndorsedBy : slice string;
  Tags : slice string;
  CreatedBy : string;
  CreatedAt : Time
}.

Definition ThreadStatus : Type := string.

Definition ThreadActive : ThreadStatus := "active".
Definition ThreadConcluded : ThreadStatus := "concluded".

Record InsightThread : Type := mkInsightThread {
  ThrID : string;
  Title : string;
  Status : ThreadStatus;
  CurrentUnderstanding : string;
  ThrCreatedAt : Time;
  UpdatedAt : Time
}.

Definition DependencyType : Type := string.

Definition DepBuildsOn : DependencyType := "builds-on".
Definition DepSupersedes : DependencyType := "supersedes".
Definition DepContradicts : DependencyType := "contradicts".
Definition DepSpawns : DependencyType := "spawns".
Definition DepInformedBy : DependencyType := "informed-by".

Record Dependency : Type := mkDependency {
  From : string;
  To : string;
  DepType : DependencyType;
  DepCreatedAt : Time
}.

#[global] Instance InsightSource_eq_dec : EqDecision InsightSource.
Proof. unfold slice. solve_decision. Defined.

#[global] Instance Insight_eq_dec : EqDecision Insight.
Proof. unfold slice, InsightType, Time. solve_decision. Defined.

#[global] Instance InsightThread_eq_dec : EqDecision InsightThread.
Proof. unfold ThreadStatus, Time. solve_decision. Defined.

#[global] Instance Dependency_eq_dec : EqDecision Dependency.
Proof. unfold DependencyType, Time. solve_decision. Defined.

(** *** encoding/hex *)

Definition hextable : string := "0123456789abcdef".

(** [hextable[i]] for [i < 16]. *)
Definition hexdigit (i : N) : ascii :=
  match String.get (N.to_nat i) hextable with
  | Some c => c
  | None => "0"%char
  end.

(** [hex.EncodeToString]: two digits per byte, [v >> 4] then [v & 0x0f]. *)
Fixpoint EncodeToString (src : list byte) : string :=
  match src with
  | [] => ""
  | v :: rest =>
      String (hexdigit (N.shiftr (Byte.to_N v) 4))
        (String (hexdigit (N.land (Byte.to_N v) 15)) (EncodeToString rest))
  end.

(** *** crypto/rand

    The random source is the sequence of bytes it will deliver.
    [rand.Read(b)] fills the [n] bytes of [b]; [GenerateID] ignores its
    error, in which case the buffer keeps the zeros of [make]. *)
Definition entropy : Type := list byte.

Definition randRead (n : nat) (src : entropy) : list byte * entropy :=
  (take n (src ++ replicate n x00), drop n src).

(** [GenerateID]: [bytes := make([]byte, 4); rand.Read(bytes);
    return prefix + "-" + hex.EncodeToString(bytes)[:4]]. *)
Definition GenerateID (prefix : string) (src : entropy) : string * entropy :=
  let '(bytes, src') := randRead 4 src in
  (prefix +:+ "-" +:+ String.substring 0 4 (EncodeToString bytes), src').

Definition isHexDigit (c : ascii) : bool :=
  bool_decide (c ∈ String.list_ascii_of_string hextable).

(** [ValidInsightTypes] *)
Definition ValidInsightTypes : list InsightType :=
  [ InsightHypothesis; InsightDiscovery; InsightQuestion; InsightFeedback;
    InsightPivot; InsightDecision ].

(** [IsValid]: the switch with one case of six values. *)
Definition IsValid (t : InsightType) : bool :=
  if decide (t = InsightHypothesis ∨ t = InsightDiscovery ∨ t = InsightQuestion ∨
             t = InsightFeedback ∨ t = InsightPivot ∨ t = InsightDecision)
  then true else false.

(** *** The constructors

    [time.Now()] is the argument [now]. *)

(** The constant [1.0] as a [float32]. *)
Definition one : float32 := S754_finite false 8388608 (-23).


Definition NewThread (title : string) (now : Time) (src : entropy)
    : InsightThread * entropy :=
  let '(id, src') := GenerateID "thr" src in
  ({| ThrID := id; Title := title; Status := ThreadActive;
      CurrentUnderstanding := ""; ThrCreatedAt := now; UpdatedAt := now |}, src').

Definition NewDependency (from to : string) (depType : DependencyType)
    (now : Time) : Dependency :=
  {| From := from; To := to; DepType := depType; DepCreatedAt := now |}.


End types.

(** ** Package store

    The database is the content of its four tables, each a list of rows
    in insertion (rowid) order. The constraints are those the migrations
    declare: [insights.id] and [threads.id] are primary keys,
    [(from_id, to_id, type)] is the primary key of [dependencies],
    [insights.thread_id] references [threads(id)], and foreign keys are
    enforced ([PRAGMA foreign_keys = ON] in [NewStore]). The full-text
    index is a function of the [insights] rows, kept by triggers, and is
    not a component of its own.

    A column holding [json.Marshal] of a [[]string] is represented by
    the slice that text denotes ([null] for the nil slice); [None] is
    SQL NULL. *)

Module store.
Import types.

Record insightRow : Type := mkInsightRow {
  c_id : string;
  c_timestamp : Time;
  c_content : string;
  c_summary : string;
  c_type : string;
  c_confidence : float32;
  c_source_type : string;
  c_source_ref : string;
  c_source_participants : option (slice string);
  c_thread_id : option string;
  c_author_id : option string;
  c_endorsed_by : option (slice string);
  c_tags : option (slice string);
  c_created_by : string;
  c_created_at : Time
}.

Record DB : Type := mkDB {
  threads : list InsightThread;
  insights : list insightRow;
  dependencies : list Dependency;
  config : list (string * string)
}.

(** *** The statements, as the database executes them

    A statement that fails changes nothing. *)

Definition hasInsight (id : string) (db : DB) : Prop :=
  id ∈ c_id <$> insights db.

Definition hasThread (id : string) (db : DB) : Prop :=
  id ∈ ThrID <$> threads db.

#[global] Instance hasInsight_dec id db : Decision (hasInsight id db).
Proof. unfold hasInsight. apply _. Defined.

#[global] Instance hasThread_dec id db : Decision (hasThread id db).
Proof. unfold hasThread. apply _. Defined.

(** The [thread_id] foreign key of a row is satisfied. *)
Definition threadRefOk (ref : option string) (db : DB) : Prop :=
  match ref with
  | None => True
  | Some t => hasThread t db
  end.

#[global] Instance threadRefOk_dec ref db : Decision (threadRefOk ref db).
Proof. destruct ref; simpl; apply _. Defined.

(** [INSERT INTO insights (...) VALUES (...)] *)
Definition insertInsight (row : insightRow) (db : DB) : result DB :=
  if decide (hasInsight (c_id row) db) then
    Err (SqliteConstraint "UNIQUE" "insights.id")
  else if decide (threadRefOk (c_thread_id row) db) then
    Ok (mkDB (threads db) (insights db ++ [row]) (dependencies db) (config db))
  else Err (SqliteConstraint "FOREIGN KEY" "").

(** [UPDATE insights SET ... WHERE id = ?]: the new database and the
    number of rows affected. The key column is not assigned. *)
Definition updateInsight (row : insightRow) (db : DB) : result (DB * nat) :=
  let hit := λ r, c_id r = c_id row in
  let n := length (filter hit (insights db)) in
  if decide (n = 0%nat ∨ threadRefOk (c_thread_id row) db) then
    Ok (mkDB (threads db)
             ((λ r, if decide (hit r) then row else r) <$> insights db)
             (dependencies db) (config db), n)
  else Err (SqliteConstraint "FOREIGN KEY" "").

(** [DELETE FROM insights WHERE id = ?] *)
Definition deleteInsight (id : string) (db : DB) : result (DB * nat) :=
  let hit := λ r, c_id r = id in
  Ok (mkDB (threads db) (filter (λ r, ¬ hit r) (insights db))
           (dependencies db) (config db),
      length (filter hit (insights db))).

(** [ORDER BY timestamp DESC] *)
Definition timestampDesc (a b : insightRow) : Prop :=
  c_timestamp b ≤ c_timestamp a.

#[global] Instance timestampDesc_dec : RelDecision timestampDesc.
Proof. intros a b. unfold timestampDesc. apply _. Defined.

(** [SELECT ... FROM insights WHERE 1=1 [AND thread_id = ?]
    [AND type = ?] [AND timestamp >= ?] ORDER BY timestamp DESC];
    [None] stands for a condition the query does not contain. *)
Definition selected (thread type : option string) (since : option Time)
    (r : insightRow) : Prop :=
  (∀ t, thread = Some t → c_thread_id r = Some t) ∧
  (∀ ty, type = Some ty → c_type r = ty) ∧
  (∀ s, since = Some s → s ≤ c_timestamp r).

#[global] Instance selected_dec thread type since r :
  Decision (selected thread type since r).
Proof.
  unfold selected.
  destruct thread as [t|], type as [ty|], since as [s|];
    (destruct (decide (c_thread_id r = Some t)) ||
     destruct (decide (True))); (destruct (decide (c_type r = ty)) ||
     destruct (decide (True))); (destruct (decide (s ≤ c_timestamp r)) ||
     destruct (decide (True)));
    solve [ left; repeat split; intros; simplify_eq; done
          | right; intros (H1 & H2 & H3);
            first [ by specialize (H1 _ eq_refl)
                  | by specialize (H2 _ eq_refl)
                  | by specialize (H3 _ eq_refl) ] ].
Defined.

Definition selectInsights (thread type : option string) (since : option Time)
    (db : DB) : list insightRow :=
  merge_sort timestampDesc (filter (selected thread type since) (insights db)).

(** [INSERT INTO dependencies (from_id, to_id, type, created_at)] *)
Definition sameEdge (d e : Dependency) : Prop :=
  From d = From e ∧ To d = To e ∧ DepType d = DepType e.

#[global] Instance sameEdge_dec : RelDecision sameEdge.
Proof. intros d e. unfold sameEdge. apply _. Defined.

Definition hasEdge (d : Dependency) (db : DB) : Prop :=
  Exists (sameEdge d) (dependencies db).

#[global] Instance hasEdge_dec d db : Decision (hasEdge d db).
Proof. unfold hasEdge. apply _. Defined.

Definition insertDependency (d : Dependency) (db : DB) : result DB :=
  if decide (hasEdge d db) then
    Err (SqliteConstraint "UNIQUE"
           "dependencies.from_id, dependencies.to_id, dependencies.type")
  else
    Ok (mkDB (threads db) (insights db) (dependencies db ++ [d]) (config db)).

(** [ORDER BY created_at] *)
Definition createdAtAsc (d e : Dependency) : Prop :=
  DepCreatedAt d ≤ DepCreatedAt e.

#[global] Instance createdAtAsc_dec : RelDecision createdAtAsc.
Proof. intros a b. unfold createdAtAsc. apply _. Defined.

(** [SELECT ... FROM dependencies WHERE from_id = ? ORDER BY created_at] *)
Definition selectDependenciesFrom (fromID : string) (db : DB) : list Dependency :=
  merge_sort createdAtAsc (filter (λ d, From d = fromID) (dependencies db)).

(** [SELECT ... FROM dependencies WHERE to_id = ? ORDER BY created_at] *)
Definition selectDependenciesTo (toID : string) (db : DB) : list Dependency :=
  merge_sort createdAtAsc (filter (λ d, To d = toID) (dependencies db)).

(** *** The store's methods *)

(** The nullable columns: [if s == "" { v = nil } else { v = s }]. *)
Definition nullable (s : string) : option string :=
  if decide (s = "") then None else Some s.

(** The row [CreateInsight] and [UpdateInsight] bind to their statement. *)
Definition insightToRow (insight : Insight) : insightRow :=
  let sourceParticipants := Participants (Source insight) in
  let tags := Tags insight in
  let approvedBy := EndorsedBy insight in
  let threadID := nullable (ThreadID insight) in
  let authorID := nullable (AuthorID insight) in
  {| c_id := ID insight;
     c_timestamp := Timestamp insight;
     c_content := Content insight;
     c_summary := Summary insight;
     c_type := Type_ insight;
     c_confidence := Confidence insight;
     c_source_type := SourceType (Source insight);
     c_source_ref := Ref (Source insight);
     c_source_participants := Some sourceParticipants;
     c_thread_id := threadID;
     c_author_id := authorID;
     c_endorsed_by := Some approvedBy;
     c_tags := Some tags;
     c_created_by := CreatedBy insight;
     c_created_at := CreatedAt insight |}.

(** A serialized column read into a nil slice: NULL leaves it nil,
    otherwise it is the slice the text denotes. *)
Definition unmarshalColumn (v : option (slice string)) : slice string :=
  match v with
  | None => None
  | Some s => s
  end.

(** [rows.Scan] into a zero [Insight], then the nullable fields
    ([if v.Valid { x = v.String }]) and the serialized ones
    ([if v.Valid && v.String != "" { json.Unmarshal(...) }]). *)
Definition scanInsight (r : insightRow) : Insight :=
  {| ID := c_id r;
     Timestamp := c_timestamp r;
     Content := c_content r;
     Summary := c_summary r;
     Type_ := c_type r;
     Confidence := c_confidence r;
     Source := {| SourceType := c_source_type r;
                  Ref := c_source_ref r;
                  Participants := unmarshalColumn (c_source_participants r) |};
     ThreadID := default "" (c_thread_id r);
     AuthorID := default "" (c_author_id r);
     EndorsedBy := unmarshalColumn (c_endorsed_by r);
     Tags := unmarshalColumn (c_tags r);
     CreatedBy := c_created_by r;
     CreatedAt := c_created_at r |}.

Definition CreateInsight (insight : Insight) (db : DB) : DB * result () :=
  match insertInsight (insightToRow insight) db with
  | Err err => (db, Err (Wrapf "failed to insert insight" err))
  | Ok db' => (db', Ok ())
  end.

Definition GetInsight (id : string) (db : DB) : result Insight :=
  match filter (λ r, c_id r = id) (insights db) with
  | [] => Err (Errorf ("insight not found: " +:+ id))
  | r :: _ => Ok (scanInsight r)
  end.

Definition UpdateInsight (insight : Insight) (db : DB) : DB * result () :=
  match updateInsight (insightToRow insight) db with
  | Err err => (db, Err (Wrapf "failed to update insight" err))
  | Ok (db', rows) =>
      if decide (rows = 0%nat) then
        (db', Err (Errorf ("insight not found: " +:+ ID insight)))
      else (db', Ok ())
  end.

Definition DeleteInsight (id : string) (db : DB) : DB * result () :=
  match deleteInsight id db with
  | Err err => (db, Err (Wrapf "failed to delete insight" err))
  | Ok (db', rows) =>
      if decide (rows = 0%nat) then
        (db', Err (Errorf ("insight not found: " +:+ id)))
      else (db', Ok ())
  end.

(** [ListInsights]: an empty [threadID] or [insightType] and a zero
    [since] add no condition to the query. *)
Definition ListInsights (threadID : string) (insightType : InsightType)
    (since : Time) (db : DB) : result (list Insight) :=
  let thread := if decide (threadID ≠ "") then Some threadID else None in
  let type := if decide (insightType ≠ "") then Some insightType else None in
  let since' := if negb (IsZero since) then Some since else None in
  Ok (scanInsight <$> selectInsights thread type since' db).

Definition AddDependency (dep : Dependency) (db : DB) : DB * result () :=
  match insertDependency dep db with
  | Err err =>
      if strings_Contains (Error err) "UNIQUE constraint failed" then
        (db, Err (Errorf ("dependency already exists: " +:+ From dep +:+ " -> "
                          +:+ To dep +:+ " (" +:+ DepType dep +:+ ")")))
      else (db, Err (Wrapf "failed to insert dependency" err))
  | Ok db' => (db', Ok ())
  end.

Definition GetDependencies (fromID : string) (db : DB) : result (list Dependency) :=
  Ok (selectDependenciesFrom fromID db).

Definition GetDependents (toID : string) (db : DB) : result (list Dependency) :=
  Ok (selectDependenciesTo toID db).

(** *** Threads, authors and configuration

    The rows of [threads] are the threads the store wrote, so that
    every column holds a value. *)

(** [INSERT INTO threads (id, title, status, current_understanding,
    created_at, updated_at) VALUES (...)] *)
Definition insertThread (thread : InsightThread) (db : DB) : result DB :=
  if decide (hasThread (ThrID thread) db) then
    Err (SqliteConstraint "UNIQUE" "threads.id")
  else
    Ok (mkDB (threads db ++ [thread]) (insights db) (dependencies db) (config db)).

(** [UPDATE threads SET title = ?, status = ?, current_understanding = ?,
    updated_at = ? WHERE id = ?]: the columns [id] and [created_at]
    are not assigned. *)
Definition updateThread (thread : InsightThread) (db : DB) : result (DB * nat) :=
  let hit := λ r, ThrID r = ThrID thread in
  Ok (mkDB ((λ r, if decide (hit r)
                  then mkInsightThread (ThrID r) (Title thread) (Status thread)
                         (CurrentUnderstanding thread) (ThrCreatedAt r)
                         (UpdatedAt thread)
                  else r) <$> threads db)
           (insights db) (dependencies db) (config db),
      length (filter hit (threads db))).

(** [ORDER BY updated_at DESC] *)
Definition updatedAtDesc (a b : InsightThread) : Prop :=
  UpdatedAt b ≤ UpdatedAt a.

#[global] Instance updatedAtDesc_dec : RelDecision updatedAtDesc.
Proof. intros a b. unfold updatedAtDesc. apply _. Defined.

(** The condition [WHERE status = ?]; [None] stands for a query
    without it. *)
Definition statusIs (status : option ThreadStatus) (t : InsightThread) : Prop :=
  match status with
  | None => True
  | Some s => Status t = s
  end.

#[global] Instance statusIs_dec status t : Decision (statusIs status t).
Proof. destruct status; simpl; apply _. Defined.



(** [SELECT value FROM config WHERE key = ?] *)
Definition selectConfig (key : string) (db : DB) : list string :=
  snd <$> filter (λ kv, kv.1 = key) (config db).

(** [INSERT INTO config (key, value) VALUES (?, ?)
    ON CONFLICT(key) DO UPDATE SET value = excluded.value] *)
Definition upsertConfig (key value : string) (db : DB) : result DB :=
  Ok (mkDB (threads db) (insights db) (dependencies db)
        (if decide (key ∈ fst <$> config db) then
           (λ kv, if decide (kv.1 = key) then (kv.1, value) else kv) <$> config db
         else config db ++ [(key, value)])).

Definition CreateThread (thread : InsightThread) (db : DB) : DB * result () :=
  match insertThread thread db with
  | Err err => (db, Err (Wrapf "failed to insert thread" err))
  | Ok db' => (db', Ok ())
  end.


Definition UpdateThread (thread : InsightThread) (db : DB) : DB * result () :=
  match updateThread thread db with
  | Err err => (db, Err (Wrapf "failed to update thread" err))
  | Ok (db', rows) =>
      if decide (rows = 0%nat) then
        (db', Err (Errorf ("thread not found: " +:+ ThrID thread)))
      else (db', Ok ())
  end.



(** [GetConfig]: no row is no error, the value is then empty. *)
Definition GetConfig (key : string) (db : DB) : result string :=
  match selectConfig key db with
  | [] => Ok ""
  | value :: _ => Ok value
  end.

Definition SetConfig (key value : string) (db : DB) : DB * result () :=
  match upsertConfig key value db with
  | Err err => (db, Err (Wrapf "failed to set config" err))
  | Ok db' => (db', Ok ())
  end.

End store.

(** ** The migrations of package store

    What the migrations change is the schema of the database: its
    tables with their columns, its indexes and its triggers. Names are
    found without regard to ASCII case, so the three maps are keyed by
    folded names; a table keeps the names of its columns as declared. *)

Module migrations.

Record tableDef : Type := mkTable {
  columns : list string;
  module : option string     (* the module of a virtual table *)
}.

Record Schema : Type := mkSchema {
  tables : gmap string tableDef;
  indexes : gmap string (string * list string);   (* table, columns *)
  triggers : gmap string string                   (* table *)
}.

Definition fold (name : string) : string := strings_ToLower name.

Definition hasColumn (t : tableDef) (col : string) : Prop :=
  fold col ∈ fold <$> columns t.

#[global] Instance hasColumn_dec t col : Decision (hasColumn t col).
Proof. unfold hasColumn. apply _. Defined.

(** *** The statements the migrations send, as SQLite executes them *)

Inductive stmt : Type :=
  | CreateTableIfNotExists (name : string) (cols : list string)
  | CreateIndexIfNotExists (name table : string) (cols : list string)
  | CreateVirtualTableIfNotExists (name moduleName : string) (cols : list string)
  | CreateTriggerIfNotExists (name table : string)
  | AlterTableAddColumn (table col : string).

Definition createTable (name : string) (def : tableDef) (db : Schema)
    : result Schema :=
  match tables db !! fold name with
  | Some _ => Ok db
  | None =>
      if decide (is_Some (indexes db !! fold name)) then
        Err (SqliteError ("there is already an index named " +:+ name))
      else
        Ok (mkSchema (<[fold name := def]> (tables db)) (indexes db) (triggers db))
  end.

Definition Exec (s : stmt) (db : Schema) : result Schema :=
  match s with
  | CreateTableIfNotExists name cols => createTable name (mkTable cols None) db
  | CreateVirtualTableIfNotExists name moduleName cols =>
      createTable name (mkTable cols (Some moduleName)) db
  | CreateIndexIfNotExists name table cols =>
      match tables db !! fold table with
      | None => Err (SqliteError ("no such table: main." +:+ table))
      | Some t =>
          if decide (is_Some (module t)) then
            Err (SqliteError "virtual tables may not be indexed")
          else if decide (is_Some (tables db !! fold name)) then
            Err (SqliteError ("there is already a table named " +:+ name))
          else if decide (is_Some (indexes db !! fold name)) then Ok db
          else if decide (Forall (hasColumn t) cols) then
            Ok (mkSchema (tables db)
                  (<[fold name := (fold table, cols)]> (indexes db)) (triggers db))
          else
            Err (SqliteError ("table " +:+ table +:+ " has no column named "
                              +:+ default "" (head (filter (λ c, ¬ hasColumn t c) cols))))
      end
  | CreateTriggerIfNotExists name table =>
      match tables db !! fold table with
      | None => Err (SqliteError ("no such table: main." +:+ table))
      | Some t =>
          if decide (is_Some (module t)) then
            Err (SqliteError "cannot create triggers on virtual tables")
          else if decide (is_Some (triggers db !! fold name)) then Ok db
          else
            Ok (mkSchema (tables db) (indexes db)
                  (<[fold name := fold table]> (triggers db)))
      end
  | AlterTableAddColumn table col =>
      match tables db !! fold table with
      | None => Err (SqliteError ("no such table: " +:+ table))
      | Some t =>
          if decide (is_Some (module t)) then
            Err (SqliteError "virtual tables may not be altered")
          else if decide (hasColumn t col) then
            Err (SqliteError ("duplicate column name: " +:+ col))
          else
            Ok (mkSchema
                  (<[fold table := mkTable (columns t ++ [col]) (module t)]> (tables db))
                  (indexes db) (triggers db))
      end
  end.

(** [SELECT COUNT( * ) FROM pragma_table_info(table) WHERE name = col]:
    no rows for a table that does not exist; the comparison with
    [col] is exact. *)
Definition tableInfoCount (table col : string) (db : Schema) : nat :=
  match tables db !! fold table with
  | None => 0%nat
  | Some t => length (filter (λ c, c = col) (columns t))
  end.

(** *** Code that works on the database handle

    A function of [*sql.DB] that returns an error: the result and the
    schema it leaves. What earlier statements did stays when a later
    one fails. *)
Definition M (A : Type) : Type := Schema → result A * Schema.

#[global] Instance M_ret : MRet M := λ A a db, (Ok a, db).
#[global] Instance M_bind : MBind M := λ A B k m db,
  match m db with
  | (Ok a, db') => k a db'
  | (Err e, db') => (Err e, db')
  end.

(** [db.Exec(s)] *)
Definition exec (s : stmt) : M () := λ db,
  match Exec s db with
  | Ok db' => (Ok (), db')
  | Err e => (Err e, db)
  end.

(** [db.QueryRow(...).Scan(&count)] of the column check. *)
Definition queryCount (table col : string) : M nat := λ db,
  (Ok (tableInfoCount table col db), db).

(** [if err != nil { return fmt.Errorf("msg: %w", err) }] *)
Definition orWrap {A} (msg : string) (m : M A) : M A := λ db,
  match m db with
  | (Err e, db') => (Err (Wrapf msg e), db')
  | r => r
  end.

(** [for _, x := range l { if err := f(x); err != nil { return err } }] *)
Fixpoint forEach {A} (f : A → M ()) (l : list A) : M () :=
  match l with
  | [] => mret ()
  | x :: rest => _ ← f x; forEach f rest
  end.

(** *** The four migrations *)

Definition initialIndexes : list stmt :=
  [ CreateIndexIfNotExists "idx_insights_thread_id" "insights" ["thread_id"];
    CreateIndexIfNotExists "idx_insights_type" "insights" ["type"];
    CreateIndexIfNotExists "idx_insights_timestamp" "insights" ["timestamp"];
    CreateIndexIfNotExists "idx_insights_created_at" "insights" ["created_at"];
    CreateIndexIfNotExists "idx_threads_status" "threads" ["status"];
    CreateIndexIfNotExists "idx_dependencies_from" "dependencies" ["from_id"];
    CreateIndexIfNotExists "idx_dependencies_to" "dependencies" ["to_id"];
    CreateVirtualTableIfNotExists "insights_fts" "fts5" ["id"; "content"; "summary"];
    CreateTriggerIfNotExists "insights_fts_insert" "insights";
    CreateTriggerIfNotExists "insights_fts_delete" "insights";
    CreateTriggerIfNotExists "insights_fts_update" "insights" ].

Definition migrateInitialSchema : M () :=
  _ ← orWrap "failed to create threads table"
        (exec (CreateTableIfNotExists "threads"
           ["id"; "title"; "status"; "current_understanding";
            "created_at"; "updated_at"]));
  _ ← orWrap "failed to create insights table"
        (exec (CreateTableIfNotExists "insights"
           ["id"; "timestamp"; "content"; "summary"; "type"; "confidence";
            "source_type"; "source_ref"; "source_participants"; "thread_id";
            "tags"; "created_by"; "created_at"]));
  _ ← orWrap "failed to create dependencies table"
        (exec (CreateTableIfNotExists "dependencies"
           ["from_id"; "to_id"; "type"; "created_at"]));
  forEach (λ idx, orWrap "failed to create index" (exec idx)) initialIndexes.

Definition migrateInsightsAuthorID : M () :=
  count ← orWrap "failed to check for author_id column"
            (queryCount "insights" "author_id");
  if decide (0 < count)%nat then mret ()
  else
    _ ← orWrap "failed to add author_id column"
          (exec (AlterTableAddColumn "insights" "author_id"));
    orWrap "failed to create author_id index"
      (exec (CreateIndexIfNotExists "idx_insights_author_id" "insights"
               ["author_id"])).

Definition migrateInsightsEndorsedBy : M () :=
  count ← orWrap "failed to check for endorsed_by column"
            (queryCount "insights" "endorsed_by");
  if decide (0 < count)%nat then mret ()
  else
    orWrap "failed to add endorsed_by column"
      (exec (AlterTableAddColumn "insights" "endorsed_by")).

Definition migrateConfigTable : M () :=
  orWrap "failed to create config table"
    (exec (CreateTableIfNotExists "config" ["key"; "value"])).

Definition migrationsList : list (string * M ()) :=
  [ ("001_initial_schema", migrateInitialSchema);
    ("002_insights_author_id", migrateInsightsAuthorID);
    ("003_insights_endorsed_by", migrateInsightsEndorsedBy);
    ("004_config_table", migrateConfigTable) ].

Definition RunMigrations : M () :=
  forEach (λ migration : string * M (),
             orWrap ("migration " +:+ migration.1 +:+ " failed") migration.2)
          migrationsList.

(** A database without any table. *)
Definition emptySchema : Schema := mkSchema ∅ ∅ ∅.

End migrations.

(** ** encoding/json

    A JSON document is its tree; a number keeps the text of its
    literal, as the decoder of the library does. *)

#[local] Set Warnings "-register-all".

Inductive json : Type :=
  | JNull
  | JBool (b : bool)
  | JNumber (literal : string)
  | JString (s : string)
  | JArray (items : list json)
  | JObject (members : list (string * json)).

(** What this development takes from the libraries without looking
    inside them: the text of a float ([strconv]) and of a time
    ([time.Time.MarshalJSON], RFC 3339), each refused for the values the
    library cannot write (a float that is not finite, a year outside
    0..9999), their parsers, the text [json.Encoder] writes for a
    document and the parser of [json.Unmarshal], which refuses text
    that is not JSON. *)
Class encoding_json : Type := {
  formatFloat : float32 → option string;
  parseFloat : string → option float32;
  formatTime : Time → option string;
  parseTime : string → option Time;
  encodeText : json → string;
  decodeText : string → option json
}.

Module json.
Import types.

Section Codec.
Context `{!encoding_json}.

(** *** Marshal: the members a struct writes

    A field tagged [omitempty] is left out when it is the empty
    string or a slice of length 0. *)

Definition omitemptyString (key s : string) : list (string * json) :=
  if decide (s = "") then [] else [(key, JString s)].

Definition omitemptyStrings (key : string) (s : slice string)
    : list (string * json) :=
  if decide (len s = 0%nat) then []
  else [(key, JArray (JString <$> elems s))].

Definition marshalTime (t : Time) : result json :=
  match formatTime t with
  | Some s => Ok (JString s)
  | None => Err (JSONError "json: error calling MarshalJSON for type time.Time")
  end.

Definition marshalFloat (f : float32) : result json :=
  match formatFloat f with
  | Some s => Ok (JNumber s)
  | None => Err (JSONError "json: unsupported value")
  end.

Definition marshalInsightSource (s : InsightSource) : json :=
  JObject ([("type", JString (SourceType s))]
           ++ omitemptyString "ref" (Ref s)
           ++ omitemptyStrings "participants" (Participants s)).

Definition marshalInsight (i : Insight) : result json :=
  timestamp ← marshalTime (Timestamp i);
  confidence ← marshalFloat (Confidence i);
  created_at ← marshalTime (CreatedAt i);
  Ok (JObject ([("id", JString (ID i));
                ("timestamp", timestamp);
                ("content", JString (Content i));
                ("summary", JString (Summary i));
                ("type", JString (Type_ i));
                ("confidence", confidence);
                ("source", marshalInsightSource (Source i))]
               ++ omitemptyString "thread_id" (ThreadID i)
               ++ omitemptyString "author_id" (AuthorID i)
               ++ omitemptyStrings "endorsed_by" (EndorsedBy i)
               ++ omitemptyStrings "labels" (Tags i)
               ++ omitemptyString "created_by" (CreatedBy i)
               ++ [("created_at", created_at)])).

Definition marshalInsightThread (t : InsightThread) : result json :=
  created_at ← marshalTime (ThrCreatedAt t);
  updated_at ← marshalTime (UpdatedAt t);
  Ok (JObject ([("id", JString (ThrID t));
                ("title", JString (Title t));
                ("status", JString (Status t))]
               ++ omitemptyString "current_understanding" (CurrentUnderstanding t)
               ++ [("created_at", created_at);
                   ("updated_at", updated_at)])).

Definition marshalDependency (d : Dependency) : result json :=
  created_at ← marshalTime (DepCreatedAt d);
  Ok (JObject [("from", JString (From d));
               ("to", JString (To d));
               ("type", JString (DepType d));
               ("created_at", created_at)]).

(** *** Unmarshal: a document read into a value

    [null] leaves the value as it is; a document of another kind
    than the field is an error. *)

Definition typeError (what : string) : error :=
  JSONError ("json: cannot unmarshal " +:+ what).

Definition unmarshalString (j : json) (old : string) : result string :=
  match j with
  | JNull => Ok old
  | JString s => Ok s
  | _ => Err (typeError "into Go value of type string")
  end.

Definition unmarshalFloat (j : json) (old : float32) : result float32 :=
  match j with
  | JNull => Ok old
  | JNumber literal =>
      match parseFloat literal with
      | Some f => Ok f
      | None => Err (typeError "number into Go value of type float32")
      end
  | _ => Err (typeError "into Go value of type float32")
  end.

Definition unmarshalTime (j : json) (old : Time) : result Time :=
  match j with
  | JNull => Ok old
  | JString s =>
      match parseTime s with
      | Some t => Ok t
      | None => Err (JSONError "parsing time")
      end
  | _ => Err (JSONError "Time.UnmarshalJSON: input is not a JSON string")
  end.

(** The elements of an array read into a [[]string]. *)
Fixpoint unmarshalElements (items : list json) : result (list string) :=
  match items with
  | [] => Ok []
  | j :: rest =>
      s ← unmarshalString j "";
      l ← unmarshalElements rest;
      Ok (s :: l)
  end.

Definition unmarshalStrings (j : json) (old : slice string)
    : result (slice string) :=
  match j with
  | JNull => Ok old
  | JArray items => l ← unmarshalElements items; Ok (Some l)
  | _ => Err (typeError "into Go value of type []string")
  end.

(** The members of an object, in their order, each read into the
    field its key names; a key that names no field is skipped. *)
Fixpoint unmarshalMembers {A} (field : string → json → A → result A)
    (members : list (string * json)) (v : A) : result A :=
  match members with
  | [] => Ok v
  | (key, j) :: rest =>
      v' ← field key j v;
      unmarshalMembers field rest v'
  end.

Definition unmarshalObject {A} (type : string)
    (field : string → json → A → result A) (j : json) (v : A) : result A :=
  match j with
  | JNull => Ok v
  | JObject members => unmarshalMembers field members v
  | _ => Err (typeError ("into Go value of type " +:+ type))
  end.

(** A key names a field when it is the name in the field's tag, up
    to the case of ASCII letters. *)
Definition named (key name : string) : Prop := strings_ToLower key = name.

#[global] Instance named_dec key name : Decision (named key name).
Proof. unfold named. apply _. Defined.

Definition insightSourceField (key : string) (j : json) (s : InsightSource)
    : result InsightSource :=
  if decide (named key "type") then
    x ← unmarshalString j (SourceType s);
    Ok (mkInsightSource x (Ref s) (Participants s))
  else if decide (named key "ref") then
    x ← unmarshalString j (Ref s);
    Ok (mkInsightSource (SourceType s) x (Participants s))
  else if decide (named key "participants") then
    x ← unmarshalStrings j (Participants s);
    Ok (mkInsightSource (SourceType s) (Ref s) x)
  else Ok s.

Definition unmarshalInsightSource : json → InsightSource → result InsightSource :=
  unmarshalObject "types.InsightSource" insightSourceField.

Definition insightField (key : string) (j : json) (i : Insight) : result Insight :=
  if decide (named key "id") then
    x ← unmarshalString j (ID i);
    Ok (mkInsight x (Timestamp i) (Content i) (Summary i) (Type_ i)
          (Confidence i) (Source i) (ThreadID i) (AuthorID i) (EndorsedBy i)
          (Tags i) (CreatedBy i) (CreatedAt i))
  else if decide (named key "timestamp") then
    x ← unmarshalTime j (Timestamp i);
    Ok (mkInsight (ID i) x (Content i) (Summary i) (Type_ i)
          (Confidence i) (Source i) (ThreadID i) (AuthorID i) (EndorsedBy i)
          (Tags i) (CreatedBy i) (CreatedAt i))
  else if decide (named key "content") then
    x ← unmarshalString j (Content i);
    Ok (mkInsight (ID i) (Timestamp i) x (Summary i) (Type_ i)
          (Confidence i) (Source i) (ThreadID i) (AuthorID i) (EndorsedBy i)
          (Tags i) (CreatedBy i) (CreatedAt i))
  else if decide (named key "summary") then
    x ← unmarshalString j (Summary i);
    Ok (mkInsight (ID i) (Timestamp i) (Content i) x (Type_ i)
          (Confidence i) (Source i) (ThreadID i) (AuthorID i) (EndorsedBy i)
          (Tags i) (CreatedBy i) (CreatedAt i))
  else if decide (named key "type") then
    x ← unmarshalString j (Type_ i);
    Ok (mkInsight (ID i) (Timestamp i) (Content i) (Summary i) x
          (Confidence i) (Source i) (ThreadID i) (AuthorID i) (EndorsedBy i)
          (Tags i) (CreatedBy i) (CreatedAt i))
  else if decide (named key "confidence") then
    x ← unmarshalFloat j (Confidence i);
    Ok (mkInsight (ID i) (Timestamp i) (Content i) (Summary i) (Type_ i)
          x (Source i) (ThreadID i) (AuthorID i) (EndorsedBy i)
          (Tags i) (CreatedBy i) (CreatedAt i))
  else if decide (named key "source") then
    x ← unmarshalInsightSource j (Source i);
    Ok (mkInsight (ID i) (Timestamp i) (Content i) (Summary i) (Type_ i)
          (Confidence i) x (ThreadID i) (AuthorID i) (EndorsedBy i)
          (Tags i) (CreatedBy i) (CreatedAt i))
  else if decide (named key "thread_id") then
    x ← unmarshalString j (ThreadID i);
    Ok (mkInsight (ID i) (Timestamp i) (Content i) (Summary i) (Type_ i)
          (Confidence i) (Source i) x (AuthorID i) (EndorsedBy i)
          (Tags i) (CreatedBy i) (CreatedAt i))
  else if decide (named key "author_id") then
    x ← unmarshalString j (AuthorID i);
    Ok (mkInsight (ID i) (Timestamp i) (Content i) (Summary i) (Type_ i)
          (Confidence i) (Source i) (ThreadID i) x (EndorsedBy i)
          (Tags i) (CreatedBy i) (CreatedAt i))
  else if decide (named key "endorsed_by") then
    x ← unmarshalStrings j (EndorsedBy i);
    Ok (mkInsight (ID i) (Timestamp i) (Content i) (Summary i) (Type_ i)
          (Confidence i) (Source i) (ThreadID i) (AuthorID i) x
          (Tags i) (CreatedBy i) (CreatedAt i))
  else if decide (named key "labels") then
    x ← unmarshalStrings j (Tags i);
    Ok (mkInsight (ID i) (Timestamp i) (Content i) (Summary i) (Type_ i)
          (Confidence i) (Source i) (ThreadID i) (AuthorID i) (EndorsedBy i)
          x (CreatedBy i) (CreatedAt i))
  else if decide (named key "created_by") then
    x ← unmarshalString j (CreatedBy i);
    Ok (mkInsight (ID i) (Timestamp i) (Content i) (Summary i) (Type_ i)
          (Confidence i) (Source i) (ThreadID i) (AuthorID i) (EndorsedBy i)
          (Tags i) x (CreatedAt i))
  else if decide (named key "created_at") then
    x ← unmarshalTime j (CreatedAt i);
    Ok (mkInsight (ID i) (Timestamp i) (Content i) (Summary i) (Type_ i)
          (Confidence i) (Source i) (ThreadID i) (AuthorID i) (EndorsedBy i)
          (Tags i) (CreatedBy i) x)
  else Ok i.

Definition unmarshalInsight : json → Insight → result Insight :=
  unmarshalObject "types.Insight" insightField.

Definition insightThreadField (key : string) (j : json) (t : InsightThread)
    : result InsightThread :=
  if decide (named key "id") then
    x ← unmarshalString j (ThrID t);
    Ok (mkInsightThread x (Title t) (Status t) (CurrentUnderstanding t)
          (ThrCreatedAt t) (UpdatedAt t))
  else if decide (named key "title") then
    x ← unmarshalString j (Title t);
    Ok (mkInsightThread (ThrID t) x (Status t) (CurrentUnderstanding t)
          (ThrCreatedAt t) (UpdatedAt t))
  else if decide (named key "status") then
    x ← unmarshalString j (Status t);
    Ok (mkInsightThread (ThrID t) (Title t) x (CurrentUnderstanding t)
          (ThrCreatedAt t) (UpdatedAt t))
  else if decide (named key "current_understanding") then
    x ← unmarshalString j (CurrentUnderstanding t);
    Ok (mkInsightThread (ThrID t) (Title t) (Status t) x
          (ThrCreatedAt t) (UpdatedAt t))
  else if decide (named key "created_at") then
    x ← unmarshalTime j (ThrCreatedAt t);
    Ok (mkInsightThread (ThrID t) (Title t) (Status t) (CurrentUnderstanding t)
          x (UpdatedAt t))
  else if decide (named key "updated_at") then
    x ← unmarshalTime j (UpdatedAt t);
    Ok (mkInsightThread (ThrID t) (Title t) (Status t) (CurrentUnderstanding t)
          (ThrCreatedAt t) x)
  else Ok t.

Definition unmarshalInsightThread : json → InsightThread → result InsightThread :=
  unmarshalObject "types.InsightThread" insightThreadField.

Definition dependencyField (key : string) (j : json) (d : Dependency)
    : result Dependency :=
  if decide (named key "from") then
    x ← unmarshalString j (From d);
    Ok (mkDependency x (To d) (DepType d) (DepCreatedAt d))
  else if decide (named key "to") then
    x ← unmarshalString j (To d);
    Ok (mkDependency (From d) x (DepType d) (DepCreatedAt d))
  else if decide (named key "type") then
    x ← unmarshalString j (DepType d);
    Ok (mkDependency (From d) (To d) x (DepCreatedAt d))
  else if decide (named key "created_at") then
    x ← unmarshalTime j (DepCreatedAt d);
    Ok (mkDependency (From d) (To d) (DepType d) x)
  else Ok d.

Definition unmarshalDependency : json → Dependency → result Dependency :=
  unmarshalObject "types.Dependency" dependencyField.

(** [json.Unmarshal(data, &v)] for a document reader [read] and the
    value [v] the pointer refers to. *)
Definition Unmarshal {A} (read : json → A → result A) (data : string) (v : A)
    : result A :=
  match decodeText data with
  | None => Err (JSONError "invalid character")
  | Some j => read j v
  end.
End Codec.

(** The zero values [&types.Insight{}], [&types.InsightThread{}] and
    [&types.Dependency{}]. *)
Definition zeroFloat : float32 := S754_zero false.
Definition zeroInsightSource : InsightSource := mkInsightSource "" "" None.
Definition zeroInsight : Insight :=
  mkInsight "" 0 "" "" "" zeroFloat zeroInsightSource "" "" None None "" 0.
Definition zeroInsightThread : InsightThread := mkInsightThread "" "" "" "" 0 0.
Definition zeroDependency : Dependency := mkDependency "" "" "" 0.
End json.

(** ** bufio.Scanner with the default split function [ScanLines] *)

Module bufio.

(** The largest buffer the scanner allocates: a line and its line feed
    must fit in it. *)
Definition MaxScanTokenSize : Z := 64 * 1024.

(** The input cut at every line feed; the last piece is what follows
    the last line feed. *)
Fixpoint splitLines (data : string) : list string :=
  match data with
  | EmptyString => [EmptyString]
  | String c rest =>
      if decide (c = "010"%char) then EmptyString :: splitLines rest
      else
        match splitLines rest with
        | line :: lines => String c line :: lines
        | [] => [String c EmptyString]
        end
  end.

(** [dropCR]: a line without its final carriage return. *)
Fixpoint dropCR (data : string) : string :=
  match data with
  | EmptyString => EmptyString
  | String c EmptyString =>
      if decide (c = "013"%char) then EmptyString else data
  | String c rest => String c (dropCR rest)
  end.

(** The tokens [Scan] delivers, and the error it stops with: a piece
    that fills the buffer without a line feed stops the scanner with
    [ErrTooLong]; an empty piece at the end of the input is no
    token. *)
Fixpoint scanLines (pieces : list string) : list string * option error :=
  match pieces with
  | [] => ([], None)
  | piece :: rest =>
      if decide (MaxScanTokenSize ≤ Z.of_nat (String.length piece)) then
        ([], Some ErrTooLong)
      else
        match rest with
        | [] => (if decide (piece = "") then [] else [dropCR piece], None)
        | _ => let '(tokens, err) := scanLines rest in
               (dropCR piece :: tokens, err)
        end
  end.

Definition Scan (data : string) : list string * option error :=
  scanLines (splitLines data).

End bufio.

(** ** Package jsonl *)

Module jsonl.
Import types.

(** The files the process sees, by path, and whether [os.Create]
    succeeds on a path. *)
Record FS : Type := mkFS {
  files : gmap string string;
  canCreate : string → bool
}.

(** The argument of [writeJSONL], an [interface{}]: one of the three
    slices it knows, or any other value. *)
Inductive exportData : Type :=
  | Insights (items : list Insight)
  | Threads (items : list InsightThread)
  | Dependencies (items : list Dependency)
  | Other.

Section Codec.
Context `{!encoding_json}.

(** [for _, item := range items { encoder.Encode(item) }]: the text
    written, a line per item, and the error that stopped the loop. *)
Fixpoint encodeAll {A} (marshal : A → result json) (msg : string)
    (items : list A) : string * option error :=
  match items with
  | [] => ("", None)
  | item :: rest =>
      match marshal item with
      | Err err => ("", Some (Wrapf msg err))
      | Ok j =>
          let '(text, err) := encodeAll marshal msg rest in
          (encodeText j +:+ newline +:+ text, err)
      end
  end.

Definition writeJSONL (data : exportData) (filePath : string) (fs : FS)
    : FS * result () :=
  if negb (canCreate fs filePath) then
    (fs, Err (Wrapf ("failed to create file " +:+ filePath)
                (PathError "open" filePath)))
  else
    let '(text, err) :=
      match data with
      | Insights items =>
          encodeAll json.marshalInsight "failed to encode insight" items
      | Threads items =>
          encodeAll json.marshalInsightThread "failed to encode thread" items
      | Dependencies items =>
          encodeAll json.marshalDependency "failed to encode dependency" items
      | Other => ("", Some (Errorf "unsupported data type for JSONL export"))
      end in
    (mkFS (<[filePath := text]> (files fs)) (canCreate fs),
     match err with
     | Some err => Err err
     | None => Ok ()
     end).

(** The loop of [readJSONL] over the lines scanned; [lineNum] is the
    number of the last line read. *)
Fixpoint decodeLines {A} (unmarshal : string → result A) (lineNum : nat)
    (lines : list string) : result (list A) :=
  match lines with
  | [] => Ok []
  | line :: rest =>
      let lineNum := S lineNum in
      if decide (String.length line = 0)%nat then
        decodeLines unmarshal lineNum rest
      else
        match unmarshal line with
        | Err err =>
            Err (Wrapf ("failed to decode JSON at line " +:+ pretty lineNum) err)
        | Ok item =>
            items ← decodeLines unmarshal lineNum rest;
            Ok (item :: items)
        end
  end.

(** [readJSONL]; [unmarshal line] is [json.Unmarshal(line, factory())]. *)
Definition readJSONL {A} (unmarshal : string → result A) (filePath : string)
    (fs : FS) : result (list A) :=
  match files fs !! filePath with
  | None =>
      Err (Wrapf ("failed to open file " +:+ filePath)
             (PathError "open" filePath))
  | Some data =>
      let '(lines, scanErr) := bufio.Scan data in
      items ← decodeLines unmarshal 0 lines;
      match scanErr with
      | Some err => Err (Wrapf ("error reading file " +:+ filePath) err)
      | None => Ok items
      end
  end.

Definition ExportInsights (insights : list Insight) (filePath : string)
    (fs : FS) : FS * result () :=
  writeJSONL (Insights insights) filePath fs.

Definition ExportThreads (threads : list InsightThread) (filePath : string)
    (fs : FS) : FS * result () :=
  writeJSONL (Threads threads) filePath fs.

Definition ExportDependencies (deps : list Dependency) (filePath : string)
    (fs : FS) : FS * result () :=
  writeJSONL (Dependencies deps) filePath fs.

Definition ImportInsights (filePath : string) (fs : FS) : result (list Insight) :=
  match readJSONL (λ line, json.Unmarshal json.unmarshalInsight line
                             json.zeroInsight) filePath fs with
  | Err err => Err (Wrapf "failed to import insights" err)
  | Ok items => Ok items
  end.

Definition ImportThreads (filePath : string) (fs : FS)
    : result (list InsightThread) :=
  match readJSONL (λ line, json.Unmarshal json.unmarshalInsightThread line
                             json.zeroInsightThread) filePath fs with
  | Err err => Err (Wrapf "failed to import threads" err)
  | Ok items => Ok items
  end.

Definition ImportDependencies (filePath : string) (fs : FS)
    : result (list Dependency) :=
  match readJSONL (λ line, json.Unmarshal json.unmarshalDependency line
                             json.zeroDependency) filePath fs with
  | Err err => Err (Wrapf "failed to import dependencies" err)
  | Ok items => Ok items
  end.
End Codec.
End jsonl.

(** ** Package beads *)

Module beads.

(** [IsBeadID]: [len(id) > 5 && (id[:5] == "bead-" || id[:3] == "bd-")] *)
Definition IsBeadID (id : string) : bool :=
  bool_decide (5 < String.length id)%nat &&
  (bool_decide (String.substring 0 5 id = "bead-") ||
   bool_decide (String.substring 0 3 id = "bd-")).

(** [IsInsightID]: [len(id) > 4 && id[:4] == "ins-"] *)
Definition IsInsightID (id : string) : bool :=
  bool_decide (4 < String.length id)%nat &&
  bool_decide (String.substring 0 4 id = "ins-").

(** [IsThreadID]: [len(id) > 4 && id[:4] == "thr-"] *)
Definition IsThreadID (id : string) : bool :=
  bool_decide (4 < String.length id)%nat &&
  bool_decide (String.substring 0 4 id = "thr-").

End beads.

(** ** The commands of cmd/bdc that walk the graph *)

Module cmd.
Import types.

Record chainItem : Type := mkChainItem {
  insightID : string;
  relationFromPrev : string
}.

(** The inner loop of [traceChain]: [prevID] and [relation] of the
    first dependency of type builds-on or supersedes, the empty
    strings when there is none. *)
Fixpoint firstBackEdge (deps : list Dependency) : string * string :=
  match deps with
  | [] => ("", "")
  | dep :: rest =>
      if decide (DepType dep = DepBuildsOn ∨ DepType dep = DepSupersedes)
      then (From dep, DepType dep)
      else firstBackEdge rest
  end.

Section TraceChain.
(** The interface [traceChain] and [filterUnresolved] take the store
    through. *)
Variable GetDependents : string → result (list Dependency).

(** The loop [for current != "" && !visited[current]] of
    [traceChain], run for at most [fuel] iterations; [None] when
    the iterations are used up before the loop ends. *)
Fixpoint traceChainLoop (fuel : nat) (visited : gset string)
    (current : string) (chain : list chainItem) : option (list chainItem) :=
  if decide (current ≠ "" ∧ current ∉ visited) then
    match fuel with
    | O => None
    | S fuel' =>
        let visited' := {[current]} ∪ visited in
        match GetDependents current with
        | Err _ => Some chain
        | Ok deps =>
            let '(prevID, relation) := firstBackEdge deps in
            traceChainLoop fuel' visited' prevID
              ({| insightID := current; relationFromPrev := relation |} :: chain)
        end
    end
  else Some chain.

(** [traceChain]; the map of insights it is passed is not used. *)
Definition traceChain (fuel : nat) (startID : string)
    (insightMap : gmap string Insight) : option (list chainItem) :=
  traceChainLoop fuel ∅ startID [].

(** [filterUnresolved] *)
Fixpoint filterUnresolved (insights : list Insight) : result (list Insight) :=
  match insights with
  | [] => Ok []
  | insight :: rest =>
      deps ← GetDependents (ID insight);
      let isSuperseded :=
        bool_decide (Exists (λ dep, DepType dep = DepSupersedes) deps) in
      unresolved ← filterUnresolved rest;
      Ok (if isSuperseded then unresolved else insight :: unresolved)
  end.
End TraceChain.

(** [getInsightSymbol] *)
Definition getInsightSymbol (insightType : InsightType) : string :=
  if decide (insightType = InsightQuestion) then "?"
  else if decide (insightType = InsightFeedback) then "»"
  else if decide (insightType = InsightPivot) then "●"
  else if decide (insightType = InsightDecision) then "◆"
  else "○".

(** [truncateForTrace] *)
Definition truncateForTrace (s : string) (maxLen : nat) : string :=
  let s := replaceNewlines s in
  if decide (String.length s ≤ maxLen)%nat then s
  else String.substring 0 (maxLen - 3) s +:+ "...".

(** The text [runTrace] prints for one insight of a chain. *)
Definition insightLine (ins : Insight) : string :=
  let symbol := getInsightSymbol (Type_ ins) in
  let typeStr :=
    if decide (Type_ ins = InsightPivot ∨ Type_ ins = InsightDecision)
    then strings_ToUpper (Type_ ins) else Type_ ins in
  symbol +:+ " " +:+ dquote +:+ truncateForTrace (Content ins) 50 +:+ dquote
    +:+ " [" +:+ typeStr +:+ "]" +:+ newline.

(** The loop of [runTrace] that prints a chain: an insight missing in
    the map is skipped; below each insight the relation of the next
    item, below the last one the spawned bead. *)
Fixpoint printChain (insightMap : gmap string Insight) (beadID : string)
    (chain : list chainItem) : list string :=
  match chain with
  | [] => []
  | item :: rest =>
      match insightMap !! insightID item with
      | None => []
      | Some ins =>
          [ insightLine ins;
            match rest with
            | next :: _ => "  └── " +:+ relationFromPrev next +:+ newline
            | [] => "  └── spawns → " +:+ beadID +:+ newline
            end ]
      end ++ printChain insightMap beadID rest
  end.

(** The insights with a spawns dependency to [beadID], one entry per
    such dependency; an insight whose dependencies cannot be read is
    skipped. *)
Fixpoint spawning (beadID : string) (db : store.DB)
    (allInsights : list Insight) : list string :=
  match allInsights with
  | [] => []
  | ins :: rest =>
      match store.GetDependencies (ID ins) db with
      | Err _ => []
      | Ok deps =>
          (λ _ : Dependency, ID ins) <$>
            filter (λ dep, To dep = beadID ∧ DepType dep = DepSpawns) deps
      end ++ spawning beadID db rest
  end.

(** [runTrace], on the store [db]: what it prints, piece by piece, and
    what it returns. [beadsPresent] is the answer of
    [beads.BeadsPresent()]; [fuel] bounds each walk. *)
Definition runTrace (fuel : nat) (beadsPresent : bool) (beadID : string)
    (db : store.DB) : option (list string * result ()) :=
  if negb (beads.IsBeadID beadID) then
    Some ([], Err (Errorf ("invalid bead ID format: " +:+ beadID
                           +:+ " (expected bead-xxx or bd-xxx)")))
  else
    match store.ListInsights "" "" 0 db with
    | Err err => Some ([], Err (Wrapf "failed to list insights" err))
    | Ok allInsights =>
        let insightMap : gmap string Insight :=
          foldl (λ m ins, <[ID ins := ins]> m) ∅ allInsights in
        let spawningInsights := spawning beadID db allInsights in
        if decide (length spawningInsights = 0%nat) then
          Some (["No insights found that spawn " +:+ beadID +:+ newline] ++
                (if beadsPresent then [] else
                   [newline +:+ "Note: No .beads/ directory found. The bead may exist in another project." +:+ newline]),
                Ok ())
        else
          chains ← mapM (λ spawnID,
                     traceChain (λ toID, store.GetDependents toID db)
                       fuel spawnID insightMap) spawningInsights;
          Some (["Trace for " +:+ beadID +:+ ":" +:+ newline +:+ newline] ++
                concat ((λ chain, printChain insightMap beadID chain ++ [newline])
                        <$> chains),
                Ok ())
    end.

(** The insights the [questions] command shows: the questions of the
    thread, filtered when [--unresolved] is given. *)
Definition listQuestions (unresolvedOnly : bool) (threadID : string)
    (db : store.DB) : result (list Insight) :=
  match store.ListInsights threadID InsightQuestion 0 db with
  | Err err => Err (Wrapf "failed to list questions" err)
  | Ok insights =>
      if unresolvedOnly then
        match filterUnresolved (λ toID, store.GetDependents toID db) insights with
        | Err err => Err (Wrapf "failed to filter unresolved questions" err)
        | Ok insights => Ok insights
        end
      else Ok insights
  end.

(** *** The commands that list and change

    A command runs on the store [getStore] opened; it returns what it
    prints, piece by piece, and its error. [time.Now()] is the argument
    [now]. *)

(** [reverseInsights]: the loop
    [for i, j := 0, len(insights)-1; i < j; i, j = i+1, j-1], run for
    at most [fuel] iterations; [None] when the iterations are used up
    or an index is out of range. *)
Fixpoint reverseLoop {A} (fuel : nat) (i j : Z) (insights : list A)
    : option (list A) :=
  if decide (i < j) then
    match fuel with
    | O => None
    | S fuel' =>
        x ← insights !! Z.to_nat i;
        y ← insights !! Z.to_nat j;
        reverseLoop fuel' (i + 1) (j - 1)
          (<[Z.to_nat j := x]> (<[Z.to_nat i := y]> insights))
    end
  else Some insights.

Definition reverseInsights (insights : list Insight) : option (list Insight) :=
  reverseLoop (length insights) 0 (Z.of_nat (length insights) - 1) insights.


Section Timeline.
(** [t.Format(layout)] *)
Variable Format : Time → string → string.


End Timeline.

(** The flags of the [link] command, in the order the command reads
    them: how many are set, and the target and type of the last one
    set. *)
Definition linkFlag (flag : string) (depType : DependencyType)
    (st : nat * string * DependencyType) : nat * string * DependencyType :=
  if decide (flag ≠ "") then (S st.1.1, flag, depType) else st.

(** The [link] command. *)
Definition runLink (linkBuildsOn linkSupersedes linkContradicts linkSpawns : string)
    (fromID : string) (now : Time) (db : store.DB)
    : store.DB * (list string * result ()) :=
  let '(count, toID, depType) :=
    linkFlag linkSpawns DepSpawns
      (linkFlag linkContradicts DepContradicts
         (linkFlag linkSupersedes DepSupersedes
            (linkFlag linkBuildsOn DepBuildsOn (0%nat, "", "")))) in
  if decide (count = 0%nat) then
    (db, ([], Err (Errorf "no dependency type specified. Use --builds-on, --supersedes, --contradicts, or --spawns")))
  else if decide (1 < count)%nat then
    (db, ([], Err (Errorf "only one dependency type can be specified at a time")))
  else
    let dep := NewDependency fromID toID depType now in
    match store.AddDependency dep db with
    | (db', Err err) => (db', ([], Err (Wrapf "failed to add dependency" err)))
    | (db', Ok _) =>
        (db', (["Created dependency: " +:+ fromID +:+ " -> " +:+ toID +:+ " ["
                +:+ depType +:+ "]" +:+ newline], Ok ()))
    end.


(** The type flags of the [capture] command, in the order
    [determineInsightType] reads them. *)
Definition typeFlag (flag : bool) (t : InsightType) (st : nat * InsightType)
    : nat * InsightType :=
  if flag then (S st.1, t) else st.

(** [determineInsightType] *)
Definition determineInsightType
    (captureHypothesis captureDiscovery captureQuestion captureFeedback
     capturePivot captureDecision : bool) (captureType : string)
    : result InsightType :=
  let '(count, selectedType) :=
    typeFlag captureDecision InsightDecision
      (typeFlag capturePivot InsightPivot
         (typeFlag captureFeedback InsightFeedback
            (typeFlag captureQuestion InsightQuestion
               (typeFlag captureDiscovery InsightDiscovery
                  (typeFlag captureHypothesis InsightHypothesis (0%nat, "")))))) in
  if decide (captureType ≠ "") then
    if decide (0 < count)%nat then
      Err (Errorf "cannot use both --type and shorthand flags")
    else if negb (IsValid captureType) then
      Err (Errorf ("invalid insight type: " +:+ captureType
                   +:+ ". Valid types: hypothesis, discovery, question, feedback, pivot, decision"))
    else Ok captureType
  else if decide (count = 1%nat) then Ok selectedType
  else if decide (1 < count)%nat then Err (Errorf "only one type flag can be set")
  else Ok InsightDiscovery.

(** [s[n:]] of a string: the bytes from index [n] on; [None] is the
    panic when [n] exceeds the length. *)
Definition sliceFrom (n : nat) (s : string) : option string :=
  if decide (n ≤ String.length s)%nat
  then Some (String.substring n (String.length s - n) s) else None.

(** [truncateForSpawn]; its only call passes [60] (a limit below [3]
    is not modelled: the source then slices at a negative index). *)
Definition truncateForSpawn (s : string) (maxLen : nat) : string :=
  if decide (String.length s ≤ maxLen)%nat then s
  else String.substring 0 (maxLen - 3) s +:+ "...".

Section Spawn.
(** [strconv.Quote], the verb [%q] of [fmt]. *)
Variable Quote : string → string.

(** [runSpawn]; [spawnTitle] is the value of the [--title] flag,
    [beadsPresent] the answer of [beads.BeadsPresent()]. The result is
    [None] when the command panics. *)
Definition runSpawn (spawnTitle : string) (beadsPresent : bool)
    (insightID : string) (now : Time) (src : entropy) (db : store.DB)
    : option (store.DB * entropy * (list string * result ())) :=
  if negb (beads.IsInsightID insightID) then
    Some (db, src, ([], Err (Errorf ("invalid insight ID format: " +:+ insightID
                                     +:+ " (expected ins-xxx)"))))
  else
    match store.GetInsight insightID db with
    | Err err => Some (db, src, ([], Err (Wrapf "insight not found" err)))
    | Ok insight =>
        let shown :=
          [ "Insight: " +:+ ID insight +:+ newline;
            "Content: " +:+ truncateForSpawn (Content insight) 60
              +:+ newline +:+ newline ] in
        if beadsPresent then
          Some (db, src,
                (shown ++
                 [ "To create a bead from this insight, run:" +:+ newline;
                   "  bd create --title=" +:+ Quote spawnTitle +:+ newline +:+ newline;
                   "Then link the insight to the bead:" +:+ newline;
                   "  bdc link " +:+ insightID +:+ " --spawns=<bead-id>"
                     +:+ newline +:+ newline;
                   "Alternatively, create a placeholder spawns dependency now? (y/n)"
                     +:+ newline;
                   "Note: You'll need to update the dependency with the real bead ID later."
                     +:+ newline ],
                 Ok ()))
        else
          let shown :=
            shown ++ [ "No .beads/ directory found." +:+ newline;
                       "Creating placeholder spawns dependency..." +:+ newline ] in
          let '(id, src') := GenerateID "" src in
          suffix ← sliceFrom 4 id;
          let placeholderID := "bead-" +:+ suffix in
          let dep := NewDependency insightID placeholderID DepSpawns now in
          match store.AddDependency dep db with
          | (db', Err err) =>
              Some (db', src', (shown, Err (Wrapf "failed to create dependency" err)))
          | (db', Ok _) =>
              Some (db', src',
                    (shown ++
                     [ newline +:+ "Created dependency: " +:+ insightID +:+ " -> "
                         +:+ placeholderID +:+ " [spawns]" +:+ newline;
                       newline +:+ "Placeholder bead ID: " +:+ placeholderID +:+ newline;
                       "When you create the actual bead, update this dependency with the real ID."
                         +:+ newline ],
                     Ok ()))
          end
    end.
End Spawn.






Section Capture.
(** [parseTimestamp]; it reads the clock for a relative time. *)
Variable parseTimestamp : string → Time → result Time.

End Capture.

End cmd.

(** ** The vocabulary of the specification *)

(** A Duplicate error: a uniqueness constraint of the database failed,
    possibly under the store's wrapping, or the store reported an
    existing dependency. *)
Fixpoint Duplicate (e : error) : Prop :=
  match e with
  | SqliteConstraint kind _ => kind = "UNIQUE"
  | Wrapf _ cause => Duplicate cause
  | Errorf msg => ∃ edge, msg = "dependency already exists: " +:+ edge
  | _ => False
  end.

(** The not-found error of the insight with identifier [id]. *)
Definition NotFound (id : string) : error := Errorf ("insight not found: " +:+ id).

(** An insight passes the filters of [ListInsights]; an empty string and
    the zero time are filters not given. *)
Definition satisfies (threadID : string) (insightType : types.InsightType)
    (since : Time) (i : types.Insight) : Prop :=
  (threadID ≠ "" → types.ThreadID i = threadID) ∧
  (insightType ≠ "" → types.Type_ i = insightType) ∧
  (IsZero since = false → since ≤ types.Timestamp i).

#[global] Instance satisfies_dec threadID insightType since i :
  Decision (satisfies threadID insightType since i).
Proof. unfold satisfies. apply _. Defined.

(** Newest occurrence first. *)
Definition newestFirst (a b : types.Insight) : Prop :=
  types.Timestamp b ≤ types.Timestamp a.

(** An insight is superseded in [db]: some dependency of type supersedes
    points to it. *)
Definition superseded (db : store.DB) (i : types.Insight) : Prop :=
  Exists (λ d, types.To d = types.ID i ∧ types.DepType d = types.DepSupersedes)
         (store.dependencies db).

#[global] Instance superseded_dec db i : Decision (superseded db i).
Proof. unfold superseded. apply _. Defined.

(** A dependency the trace walk follows backwards. *)
Definition backEdge (d : types.Dependency) : Prop :=
  types.DepType d = types.DepBuildsOn ∨ types.DepType d = types.DepSupersedes.

(** A non-empty line of text the scanner hands over as it is: it holds
    no line feed, does not end in a carriage return and is shorter than
    the scanner's buffer. *)
Definition scannable (line : string) : Prop :=
  line ≠ "" ∧ bufio.splitLines line = [line] ∧ bufio.dropCR line = line ∧
  Z.of_nat (String.length line) < bufio.MaxScanTokenSize.

#[global] Instance scannable_dec line : Decision (scannable line).
Proof. unfold scannable. apply _. Defined.

(** A slice as the decoder builds it from a record of the exporter: nil
    or with at least one element. *)
Definition nilOrPopulated {A} (s : slice A) : Prop := s ≠ Some [].

(** A slice with its empty non-nil form replaced by nil. *)
Definition nilIfEmpty {A} (s : slice A) : slice A :=
  if decide (len s = 0%nat) then None else s.

(** An insight as it comes back from a log file: its empty lists are
    nil. *)
Definition importedInsight (i : types.Insight) : types.Insight :=
  types.mkInsight (types.ID i) (types.Timestamp i) (types.Content i)
    (types.Summary i) (types.Type_ i) (types.Confidence i)
    (types.mkInsightSource (types.SourceType (types.Source i))
       (types.Ref (types.Source i))
       (nilIfEmpty (types.Participants (types.Source i))))
    (types.ThreadID i) (types.AuthorID i) (nilIfEmpty (types.EndorsedBy i))
    (nilIfEmpty (types.Tags i)) (types.CreatedBy i) (types.CreatedAt i).

(** The list fields of an insight are nil or hold elements. *)
Definition listsNilOrPopulated (i : types.Insight) : Prop :=
  nilOrPopulated (types.Participants (types.Source i)) ∧
  nilOrPopulated (types.EndorsedBy i) ∧
  nilOrPopulated (types.Tags i).

Section Exportable.
Context `{!encoding_json}.

(** The libraries read back the text they write for the value. *)
Definition timeReadsBack (t : Time) : Prop :=
  ∃ s, formatTime t = Some s ∧ parseTime s = Some t.

Definition floatReadsBack (f : float32) : Prop :=
  ∃ s, formatFloat f = Some s ∧ parseFloat s = Some f.

Definition documentReadsBack (j : json) : Prop :=
  decodeText (encodeText j) = Some j ∧ scannable (encodeText j).

(** The values the libraries write and read back, as a line the
    scanner takes. *)
Definition exportableInsight (i : types.Insight) : Prop :=
  timeReadsBack (types.Timestamp i) ∧
  timeReadsBack (types.CreatedAt i) ∧
  floatReadsBack (types.Confidence i) ∧
  ∀ j, json.marshalInsight i = Ok j → documentReadsBack j.

Definition exportableThread (t : types.InsightThread) : Prop :=
  timeReadsBack (types.ThrCreatedAt t) ∧
  timeReadsBack (types.UpdatedAt t) ∧
  ∀ j, json.marshalInsightThread t = Ok j → documentReadsBack j.

Definition exportableDependency (d : types.Dependency) : Prop :=
  timeReadsBack (types.DepCreatedAt d) ∧
  ∀ j, json.marshalDependency d = Ok j → documentReadsBack j.
End Exportable.

(** The lines of a file as an importer reads them: the text between
    line feeds, each without a final carriage return; what follows the
    last line feed is a line only when it is not empty. *)
Fixpoint fileLinesOf (pieces : list string) : list string :=
  match pieces with
  | [] => []
  | [piece] => if decide (piece = "") then [] else [bufio.dropCR piece]
  | piece :: rest => bufio.dropCR piece :: fileLinesOf rest
  end.

Definition fileLines (data : string) : list string :=
  fileLinesOf (bufio.splitLines data).

(** Every line of the file, with its line feed, fits the scanner's
    buffer. *)
Definition shortLines (data : string) : Prop :=
  Forall (λ piece, Z.of_nat (String.length piece) < bufio.MaxScanTokenSize)
         (bufio.splitLines data).

#[global] Instance shortLines_dec data : Decision (shortLines data).
Proof. unfold shortLines. apply _. Defined.

(** Line [n + 1] is the first line that is not empty and does not
    decode, and [err] is the error of decoding it. *)
Definition firstFailure {A} (unmarshal : string → result A)
    (lines : list string) (n : nat) (err : error) : Prop :=
  (∃ line, lines !! n = Some line ∧ line ≠ "" ∧ unmarshal line = Err err) ∧
  ∀ m line, (m < n)%nat → lines !! m = Some line → line ≠ "" →
            ∃ item, unmarshal line = Ok item.

(** Every line that is not empty decodes, to [items] in this order. *)
Definition allDecode {A} (unmarshal : string → result A)
    (lines : list string) (items : list A) : Prop :=
  Forall2 (λ line item, unmarshal line = Ok item)
          (filter (λ line, line ≠ "") lines) items.

#[global] Instance allDecode_dec `{EqDecision A} (unmarshal : string → result A)
    lines items : Decision (allDecode unmarshal lines items).
Proof. unfold allDecode. apply _. Defined.

(** ** The state the store keeps *)

(** The key of a dependency. *)
Definition edgeKey (d : types.Dependency) : string * string * string :=
  (types.From d, types.To d, types.DepType d).

(** A database as the store leaves it: the keys of its tables are
    unique, every thread an insight names exists, and a nullable column
    is never the empty string. *)
Definition consistent (db : store.DB) : Prop :=
  NoDup (store.c_id <$> store.insights db) ∧
  NoDup (types.ThrID <$> store.threads db) ∧
  NoDup (edgeKey <$> store.dependencies db) ∧
  NoDup (fst <$> store.config db) ∧
  Forall (λ r, store.threadRefOk (store.c_thread_id r) db) (store.insights db) ∧
  Forall (λ r, store.c_thread_id r ≠ Some "" ∧ store.c_author_id r ≠ Some "")
         (store.insights db).

#[global] Instance consistent_dec db : Decision (consistent db).
Proof. unfold consistent. apply _. Defined.



(** The not-found error of the thread with identifier [id]. *)
Definition ThreadNotFound (id : string) : error :=
  Errorf ("thread not found: " +:+ id).


(** The bytes of a text, and the line feed. *)
Definition bytesOf (s : string) : list ascii := String.list_ascii_of_string s.

Definition lineFeed : ascii := "010"%char.

(** ** Sample data

    Concrete values on which the properties below are instantiated. *)

Module sample.
Import types.

Definition one : float32 := S754_finite false 8388608 (-23).

(** An insight as [NewInsightWithTimestamp] builds it, with a given
    identifier. *)
Definition insight (id content : string) (type : InsightType) (t : Time) : Insight :=
  {| ID := id; Timestamp := t; Content := content; Summary := "";
     Type_ := type; Confidence := one;
     Source := {| SourceType := "human"; Ref := ""; Participants := None |};
     ThreadID := ""; AuthorID := ""; EndorsedBy := None; Tags := None;
     CreatedBy := ""; CreatedAt := t |}.

Definition emptyDB : store.DB := store.mkDB [] [] [] [].

Definition insA : Insight := insight "ins-000a" "Initial hypothesis" InsightHypothesis 100.
Definition insB : Insight := insight "ins-000b" "Discovery" InsightDiscovery 200.
Definition insC : Insight := insight "ins-000c" "Pivot moment" InsightPivot 300.

(** The store after capturing [insA], [insB] and [insC]. *)
Definition dbABC : store.DB :=
  (store.CreateInsight insC (store.CreateInsight insB
     (store.CreateInsight insA emptyDB).1).1).1.

Definition depAB : Dependency := mkDependency "ins-000a" "ins-000b" DepBuildsOn 400.
Definition depBX : Dependency := mkDependency "ins-000b" "bead-7f2a" DepSpawns 500.

(** [dbABC] after linking A builds-on B and B spawns bead-7f2a. *)
Definition dbTrace : store.DB :=
  (store.AddDependency depBX (store.AddDependency depAB dbABC).1).1.

(** A cycle of builds-on edges A -> B -> C -> A. *)
Definition dbCycle : store.DB :=
  (store.AddDependency (mkDependency "ins-000c" "ins-000a" DepBuildsOn 430)
     (store.AddDependency (mkDependency "ins-000b" "ins-000c" DepBuildsOn 420)
        (store.AddDependency depAB dbABC).1).1).1.

Definition q1 : Insight := insight "ins-00q1" "Why does login fail?" InsightQuestion 100.
Definition q2 : Insight := insight "ins-00q2" "Is it the cache?" InsightQuestion 200.
Definition q3 : Insight := insight "ins-00q3" "It is the token cache" InsightDiscovery 300.

Definition depQ3Q2 : Dependency := mkDependency "ins-00q3" "ins-00q2" DepSupersedes 400.

(** Q1 and Q2 are questions, Q3 supersedes Q2 and nothing points to
    Q1. *)
Definition dbQuestions : store.DB :=
  (store.AddDependency depQ3Q2
     (store.CreateInsight q3 (store.CreateInsight q2
        (store.CreateInsight q1 emptyDB).1).1).1).1.

(** The same store where Q2 also builds on Q1 and Q3 contradicts Q1. *)
Definition dbQuestions' : store.DB :=
  (store.AddDependency (mkDependency "ins-00q3" "ins-00q1" DepContradicts 420)
     (store.AddDependency (mkDependency "ins-00q2" "ins-00q1" DepBuildsOn 410)
        dbQuestions).1).1.

(** A database created before the author and endorser columns and
    the config table existed: the schema the first migration leaves. *)
Definition legacySchema : migrations.Schema :=
  (migrations.migrateInitialSchema migrations.emptySchema).2.

Definition migratedSchema : migrations.Schema :=
  (migrations.RunMigrations legacySchema).2.
End sample.

(** ** A text layer to run the codec on

    A compact JSON writer and a parser for it, with the exact decimal
    text of a float and the RFC 3339 text of an instant in UTC. It
    stands in for the libraries where a property below is instantiated
    on concrete values: floats are read back when the literal is exact,
    instants when they are written with the suffix Z. *)

Module sampleJSON.

(** *** Decimal digits *)

Definition digit (c : ascii) : option Z :=
  let n := Z.of_nat (nat_of_ascii c) in
  if decide (48 ≤ n ≤ 57) then Some (n - 48) else None.

(** The value of a non-empty string of digits. *)
Fixpoint digitsFrom (acc : Z) (s : string) : option Z :=
  match s with
  | EmptyString => Some acc
  | String c rest => d ← digit c; digitsFrom (10 * acc + d) rest
  end.

Definition digits (s : string) : option Z :=
  if decide (s = "") then None else digitsFrom 0 s.

(** [n] in at least [width] digits. *)
Definition padded (width : nat) (n : Z) : string :=
  let s := pretty n in
  String.string_of_list_ascii (replicate (width - String.length s) "0"%char) +:+ s.

Fixpoint trimZeros (s : string) : string :=
  match s with
  | EmptyString => EmptyString
  | String c rest =>
      match trimZeros rest with
      | EmptyString => if decide (c = "0"%char) then EmptyString else String c EmptyString
      | rest' => String c rest'
      end
  end.

(** The text before and after the first occurrence of [sep]. *)
Fixpoint cut (sep : ascii) (s : string) : string * option string :=
  match s with
  | EmptyString => (EmptyString, None)
  | String c rest =>
      if decide (c = sep) then (EmptyString, Some rest)
      else let '(before, after) := cut sep rest in (String c before, after)
  end.

(** *** Floats: the exact decimal expansion *)

Definition decimal (negative : bool) (m : Z) (e : Z) : string :=
  (if negative then "-" else "") +:+
  (if decide (0 ≤ e) then pretty (m * 2 ^ e)
   else
     let k := - e in
     let n := m * 5 ^ k in
     let fraction := trimZeros (padded (Z.to_nat k) (n mod 10 ^ k)) in
     pretty (n / 10 ^ k) +:+
     (if decide (fraction = "") then "" else "." +:+ fraction)).

Definition formatFloat (f : float32) : option string :=
  match f with
  | S754_zero negative => Some (if negative then "-0" else "0")
  | S754_finite negative m e => Some (decimal negative (Z.pos m) e)
  | S754_infinity _ | S754_nan => None
  end.

(** The float with a 24-bit significand that is exactly [p / 10^k]. *)
Definition exactFloat (negative : bool) (p k : Z) : option float32 :=
  if decide (p = 0) then Some (S754_zero negative)
  else
    let e0 := Z.log2 p - Z.log2 (10 ^ k) - 23 in
    let fits e :=
      let m := if decide (0 ≤ e) then p / (10 ^ k * 2 ^ e)
               else (p * 2 ^ (- e)) / 10 ^ k in
      let exact := if decide (0 ≤ e) then bool_decide (m * (10 ^ k * 2 ^ e) = p)
                   else bool_decide (m * 10 ^ k = p * 2 ^ (- e)) in
      if bool_decide (2 ^ 23 ≤ m < 2 ^ 24) && exact
      then Some (S754_finite negative (Z.to_pos m) e) else None in
    match fits (e0 - 1), fits e0, fits (e0 + 1) with
    | Some f, _, _ | None, Some f, _ | None, None, Some f => Some f
    | None, None, None => None
    end.

Definition parseFloat (literal : string) : option float32 :=
  let '(negative, body) :=
    match literal with
    | String "-" rest => (true, rest)
    | _ => (false, literal)
    end in
  let '(whole, fraction) := cut "."%char body in
  w ← digits whole;
  match fraction with
  | None => exactFloat negative w 0
  | Some fraction =>
      f ← digits fraction;
      let k := Z.of_nat (String.length fraction) in
      exactFloat negative (w * 10 ^ k + f) k
  end.

(** *** Instants: RFC 3339 in UTC *)

(** Year, month and day of the day [days] after January 1 of year 1. *)
Definition civil (days : Z) : Z * Z * Z :=
  let z := days + 306 in
  let era := z / 146097 in
  let doe := z mod 146097 in
  let yoe := (doe - doe / 1460 + doe / 36524 - doe / 146096) / 365 in
  let doy := doe - (365 * yoe + yoe / 4 - yoe / 100) in
  let mp := (5 * doy + 2) / 153 in
  let d := doy - (153 * mp + 2) / 5 + 1 in
  let m := if decide (mp < 10) then mp + 3 else mp - 9 in
  let y := yoe + era * 400 + (if decide (m ≤ 2) then 1 else 0) in
  (y, m, d).

Definition daysFromCivil (y m d : Z) : Z :=
  let y' := if decide (m ≤ 2) then y - 1 else y in
  let era := y' / 400 in
  let yoe := y' - era * 400 in
  let doy := (153 * (if decide (2 < m) then m - 3 else m + 9) + 2) / 5 + d - 1 in
  let doe := yoe * 365 + yoe / 4 - yoe / 100 + doy in
  era * 146097 + doe - 306.

Definition formatTime (t : Time) : option string :=
  let seconds := t / 1000000000 in
  let nanos := t mod 1000000000 in
  let '(y, m, d) := civil (seconds / 86400) in
  let clock := seconds mod 86400 in
  if decide (0 ≤ y ≤ 9999) then
    let fraction := trimZeros (padded 9 nanos) in
    Some (padded 4 y +:+ "-" +:+ padded 2 m +:+ "-" +:+ padded 2 d +:+ "T"
          +:+ padded 2 (clock / 3600) +:+ ":" +:+ padded 2 (clock / 60 mod 60)
          +:+ ":" +:+ padded 2 (clock mod 60)
          +:+ (if decide (fraction = "") then "" else "." +:+ fraction)
          +:+ "Z")
  else None.

(** The instant a text names: the text [formatTime] writes for it. *)
Definition parseTime (s : string) : option Time :=
  y ← digits (String.substring 0 4 s);
  m ← digits (String.substring 5 2 s);
  d ← digits (String.substring 8 2 s);
  hh ← digits (String.substring 11 2 s);
  mm ← digits (String.substring 14 2 s);
  ss ← digits (String.substring 17 2 s);
  let '(_, fraction) := cut "."%char s in
  nanos ← match fraction with
          | None => Some 0
          | Some fraction =>
              let ds := (cut "Z"%char fraction).1 in
              n ← digits ds;
              Some (n * 10 ^ (9 - Z.of_nat (String.length ds)))
          end;
  let t := ((daysFromCivil y m d * 86400 + hh * 3600 + mm * 60 + ss)
            * 1000000000 + nanos) in
  if decide (formatTime t = Some s) then Some t else None.

(** *** Documents *)

Definition hexValue (c : ascii) : option Z :=
  let n := Z.of_nat (nat_of_ascii c) in
  if decide (48 ≤ n ≤ 57) then Some (n - 48)
  else if decide (97 ≤ n ≤ 102) then Some (n - 87)
  else if decide (65 ≤ n ≤ 70) then Some (n - 55)
  else None.

(** A byte inside a string literal: quotes, backslashes, control
    characters and the characters of HTML markup are escaped. *)
Definition escape (c : ascii) : string :=
  let n := N_of_ascii c in
  if decide (c = "034"%char) then "\" +:+ dquote
  else if decide (c = "\"%char) then "\\"
  else if decide (c = "010"%char) then "\n"
  else if decide (c = "013"%char) then "\r"
  else if decide (c = "009"%char) then "\t"
  else if decide (n < 32 ∨ c = "<"%char ∨ c = ">"%char ∨ c = "&"%char)%N then
    "\u00" +:+ String (types.hexdigit (N.shiftr n 4))
                (String (types.hexdigit (N.land n 15)) EmptyString)
  else String c EmptyString.

Fixpoint escaped (s : string) : string :=
  match s with
  | EmptyString => EmptyString
  | String c rest => escape c +:+ escaped rest
  end.

Definition quoted (s : string) : string := dquote +:+ escaped s +:+ dquote.

Fixpoint encodeText (j : json) : string :=
  match j with
  | JNull => "null"
  | JBool true => "true"
  | JBool false => "false"
  | JNumber literal => literal
  | JString s => quoted s
  | JArray items =>
      "[" +:+
      (fix list (items : list json) : string :=
         match items with
         | [] => ""
         | [item] => encodeText item
         | item :: rest => encodeText item +:+ "," +:+ list rest
         end) items +:+ "]"
  | JObject members =>
      "{" +:+
      (fix list (members : list (string * json)) : string :=
         match members with
         | [] => ""
         | [(key, value)] => quoted key +:+ ":" +:+ encodeText value
         | (key, value) :: rest =>
             quoted key +:+ ":" +:+ encodeText value +:+ "," +:+ list rest
         end) members +:+ "}"
  end.

Definition isSpace (c : ascii) : Prop :=
  c = " "%char ∨ c = "009"%char ∨ c = "010"%char ∨ c = "013"%char.

#[global] Instance isSpace_dec c : Decision (isSpace c).
Proof. unfold isSpace. apply _. Defined.

Fixpoint skipSpace (s : string) : string :=
  match s with
  | String c rest => if decide (isSpace c) then skipSpace rest else s
  | EmptyString => s
  end.

(** The content of a string literal after its opening quote, and the
    text after its closing quote. Escapes of the form \u00XX name a
    byte; other \u escapes are not read. *)
Fixpoint stringBody (s : string) : option (string * string) :=
  match s with
  | EmptyString => None
  | String c rest =>
      if decide (c = "034"%char) then Some (EmptyString, rest)
      else if decide (c = "\"%char) then
        match rest with
        | String "u" (String "0" (String "0" (String h (String l rest')))) =>
            hi ← hexValue h;
            lo ← hexValue l;
            '(body, after) ← stringBody rest';
            Some (String (ascii_of_N (Z.to_N (16 * hi + lo))) body, after)
        | String e rest' =>
            c' ← (if decide (e = "034"%char) then Some "034"%char
                  else if decide (e = "\"%char) then Some "\"%char
                  else if decide (e = "/"%char) then Some "/"%char
                  else if decide (e = "n"%char) then Some "010"%char
                  else if decide (e = "r"%char) then Some "013"%char
                  else if decide (e = "t"%char) then Some "009"%char
                  else if decide (e = "b"%char) then Some "008"%char
                  else if decide (e = "f"%char) then Some "012"%char
                  else None);
            '(body, after) ← stringBody rest';
            Some (String c' body, after)
        | EmptyString => None
        end
      else if decide (N_of_ascii c < 32)%N then None
      else
        '(body, after) ← stringBody rest;
        Some (String c body, after)
  end.

Definition numberChar (c : ascii) : Prop :=
  is_Some (digit c) ∨ c = "-"%char ∨ c = "+"%char ∨ c = "."%char
  ∨ c = "e"%char ∨ c = "E"%char.

#[global] Instance numberChar_dec c : Decision (numberChar c).
Proof. unfold numberChar. apply _. Defined.

Fixpoint numberLiteral (s : string) : string * string :=
  match s with
  | String c rest =>
      if decide (numberChar c) then
        let '(literal, after) := numberLiteral rest in (String c literal, after)
      else (EmptyString, s)
  | EmptyString => (EmptyString, s)
  end.

(** [s] without the prefix [word]. *)
Definition after (word s : string) : option string :=
  if String.prefix word s
  then Some (String.substring (String.length word)
               (String.length s - String.length word) s)
  else None.

(** A value at the head of [s] and the text that follows it; [depth]
    bounds the nesting of arrays and objects and the number of their
    members. *)
Fixpoint value (depth : nat) (s : string) : option (json * string) :=
  match depth with
  | O => None
  | S depth =>
      let items :=
        fix items (n : nat) (s : string) : option (list json * string) :=
          match n with
          | O => None
          | S n =>
              '(item, s) ← value depth s;
              match skipSpace s with
              | String "," s => '(rest, s) ← items n s; Some (item :: rest, s)
              | String "]" s => Some ([item], s)
              | _ => None
              end
          end in
      let members :=
        fix members (n : nat) (s : string)
            : option (list (string * json) * string) :=
          match n with
          | O => None
          | S n =>
              match skipSpace s with
              | String "034" s =>
                  '(key, s) ← stringBody s;
                  match skipSpace s with
                  | String ":" s =>
                      '(item, s) ← value depth s;
                      match skipSpace s with
                      | String "," s =>
                          '(rest, s) ← members n s; Some ((key, item) :: rest, s)
                      | String "}" s => Some ([(key, item)], s)
                      | _ => None
                      end
                  | _ => None
                  end
              | _ => None
              end
          end in
      match skipSpace s with
      | String "n" _ => s ← after "null" (skipSpace s); Some (JNull, s)
      | String "t" _ => s ← after "true" (skipSpace s); Some (JBool true, s)
      | String "f" _ => s ← after "false" (skipSpace s); Some (JBool false, s)
      | String "034" s => '(body, s) ← stringBody s; Some (JString body, s)
      | String "[" s =>
          match skipSpace s with
          | String "]" s => Some (JArray [], s)
          | _ => '(l, s) ← items (String.length s) s; Some (JArray l, s)
          end
      | String "{" s =>
          match skipSpace s with
          | String "}" s => Some (JObject [], s)
          | _ => '(l, s) ← members (String.length s) s; Some (JObject l, s)
          end
      | String c _ =>
          if decide (is_Some (digit c) ∨ c = "-"%char) then
            let '(literal, s) := numberLiteral (skipSpace s) in
            Some (JNumber literal, s)
          else None
      | EmptyString => None
      end
  end.

Definition decodeText (s : string) : option json :=
  '(j, rest) ← value 64 s;
  if decide (skipSpace rest = "") then Some j else None.

Definition lib : encoding_json :=
  Build_encoding_json formatFloat parseFloat formatTime parseTime
    encodeText decodeText.
End sampleJSON.

(** ** Sample log files *)

Module sampleFiles.
Import types.

#[local] Existing Instance sampleJSON.lib.

(** The line the exporter writes for an insight. *)
Definition lineOf (i : Insight) : string :=
  match json.marshalInsight i with
  | Ok j => encodeText j
  | Err _ => ""
  end.

Definition crlf : string := String "013"%char newline.

(** Two records, an empty line between them, a line ending in CR LF
    and an empty last line. *)
Definition goodLog : string :=
  lineOf sample.insA +:+ newline +:+ newline +:+
  lineOf sample.insB +:+ crlf +:+ newline.

(** A record, an empty line, a line that is not JSON and a record. *)
Definition badLog : string :=
  lineOf sample.insA +:+ newline +:+ newline +:+
  "{id: ins-0002 this is broken}" +:+ newline +:+ lineOf sample.insB.

Definition fsLogs : jsonl.FS :=
  jsonl.mkFS {[ "good.jsonl" := goodLog; "bad.jsonl" := badLog ]} (λ _, true).

Definition unmarshalInsightLine (line : string) : result Insight :=
  json.Unmarshal json.unmarshalInsight line json.zeroInsight.

Definition unmarshalDependencyLine (line : string) : result Dependency :=
  json.Unmarshal json.unmarshalDependency line json.zeroDependency.

(** A dependency whose source identifier has 64 KiB. *)
Definition longDep : Dependency :=
  mkDependency
    (String.string_of_list_ascii (replicate (Z.to_nat bufio.MaxScanTokenSize) "a"%char))
    "ins-000b" DepBuildsOn 400.

Definition emptyFS : jsonl.FS := jsonl.mkFS ∅ (λ _, true).

(** The file system after exporting [longDep]. *)
Definition fsLong : jsonl.FS :=
  (jsonl.ExportDependencies [longDep] "long.jsonl" emptyFS).1.

Definition longLog : string := default "" (jsonl.files fsLong !! "long.jsonl").

(** January 15, 2024, 10:30 UTC. *)
Definition t2024 : Time :=
  (sampleJSON.daysFromCivil 2024 1 15 * 86400 + 10 * 3600 + 30 * 60) * 1000000000.

(** The float32 nearest to 0.9. *)
Definition ninetyPercent : float32 := S754_finite false 15099494 (-24).

(** An insight with every optional field set. *)
Definition fullInsight : Insight :=
  {| ID := "ins-0001"; Timestamp := t2024;
     Content := "Found the <bug>: tokens & sessions"; Summary := "Summary 1";
     Type_ := InsightHypothesis; Confidence := ninetyPercent;
     Source := {| SourceType := "human"; Ref := "session-123";
                  Participants := Some ["alice"] |};
     ThreadID := "thr-0001"; AuthorID := "alice";
     EndorsedBy := Some ["bob"]; Tags := Some ["test"; "example"];
     CreatedBy := "alice"; CreatedAt := t2024 + 500000000 |}.

(** An insight with every optional field left empty. *)
Definition bareInsight : Insight :=
  {| ID := "ins-0002"; Timestamp := t2024; Content := "Second insight";
     Summary := ""; Type_ := InsightDiscovery; Confidence := sample.one;
     Source := {| SourceType := "ai-session"; Ref := ""; Participants := None |};
     ThreadID := ""; AuthorID := ""; EndorsedBy := None; Tags := None;
     CreatedBy := ""; CreatedAt := t2024 |}.

(** [bareInsight] with an empty list of tags that is not nil. *)
Definition emptyTags : Insight :=
  {| ID := "ins-0002"; Timestamp := t2024; Content := "Second insight";
     Summary := ""; Type_ := InsightDiscovery; Confidence := sample.one;
     Source := {| SourceType := "ai-session"; Ref := ""; Participants := None |};
     ThreadID := ""; AuthorID := ""; EndorsedBy := None; Tags := Some [];
     CreatedBy := ""; CreatedAt := t2024 |}.

Definition fullThread : InsightThread :=
  mkInsightThread "thr-0001" "Test thread 1" ThreadActive
    "We are exploring the auth bug" t2024 t2024.

Definition bareThread : InsightThread :=
  mkInsightThread "thr-0002" "Test thread 2" ThreadConcluded "" t2024
    (t2024 + 3600000000000).

Definition dep1 : Dependency := mkDependency "ins-0001" "ins-0002" DepBuildsOn t2024.
Definition dep2 : Dependency := mkDependency "ins-0002" "bead-0001" DepSpawns t2024.

(** The record of [bareInsight], and the same record with the author
    set to the empty string. *)
Definition bareRecord : list (string * json) :=
  match json.marshalInsight bareInsight with
  | Ok (JObject members) => members
  | _ => []
  end.

Definition emptyAuthorRecord : list (string * json) :=
  bareRecord ++ [("author_id", JString "")].
End sampleFiles.

(** Threads, authors and configuration. *)
Module sampleStore.
Import types.

Definition thr1 : InsightThread :=
  mkInsightThread "thr-0001" "Understanding the auth bug" ThreadActive "" 100 100.

Definition thr2 : InsightThread :=
  mkInsightThread "thr-0002" "Choosing a cache" ThreadConcluded
    "Use the token cache" 150 250.


(** The store of the trace with two threads. *)
Definition dbThreads : store.DB :=
  (store.CreateThread thr2 (store.CreateThread thr1 sample.dbTrace).1).1.

(** An insight of the first thread, captured by alice. *)
Definition insT : Insight :=
  {| ID := "ins-000d"; Timestamp := 350; Content := "Tokens expire early";
     Summary := "Token expiry"; Type_ := InsightDiscovery; Confidence := sample.one;
     Source := {| SourceType := "human"; Ref := ""; Participants := Some [] |};
     ThreadID := "thr-0001"; AuthorID := "alice"; EndorsedBy := Some ["bob"];
     Tags := None; CreatedBy := ""; CreatedAt := 360 |}.

(** The same insight, revised. *)
Definition insT' : Insight :=
  {| ID := "ins-000d"; Timestamp := 350; Content := "Tokens expire after 5 minutes";
     Summary := "Token expiry"; Type_ := InsightDecision; Confidence := sample.one;
     Source := {| SourceType := "human"; Ref := ""; Participants := Some [] |};
     ThreadID := "thr-0002"; AuthorID := "alice"; EndorsedBy := Some ["bob"; "carol"];
     Tags := Some ["auth"]; CreatedBy := ""; CreatedAt := 360 |}.

(** An insight of a thread that does not exist. *)
Definition insLost : Insight :=
  {| ID := "ins-000e"; Timestamp := 400; Content := "Lost"; Summary := "";
     Type_ := InsightQuestion; Confidence := sample.one;
     Source := {| SourceType := "human"; Ref := ""; Participants := None |};
     ThreadID := "thr-0404"; AuthorID := ""; EndorsedBy := None;
     Tags := None; CreatedBy := ""; CreatedAt := 400 |}.

Definition dbAuthors : store.DB := (store.CreateInsight insT dbThreads).1.

Definition dbConfig : store.DB :=
  (store.SetConfig "stealth_mode" "true" (store.SetConfig "owner" "alice" dbAuthors).1).1.
End sampleStore.

(** The trace store after the insight that spawned the bead is
    deleted. *)
Module sampleTrace.
Definition dbOrphan : store.DB := (store.DeleteInsight "ins-000b" sample.dbTrace).1.
End sampleTrace.

(** An export that fails half way. *)
Module sampleExport.
Import types.

(** An insight whose confidence is not a number. *)
Definition insNaN : Insight :=
  {| ID := "ins-0bad"; Timestamp := sampleFiles.t2024; Content := "Not a number";
     Summary := ""; Type_ := InsightHypothesis; Confidence := S754_nan;
     Source := {| SourceType := "human"; Ref := ""; Participants := None |};
     ThreadID := ""; AuthorID := ""; EndorsedBy := None; Tags := None;
     CreatedBy := ""; CreatedAt := sampleFiles.t2024 |}.

Definition batch : list Insight :=
  [sampleFiles.fullInsight; insNaN; sampleFiles.bareInsight].
End sampleExport.

(** * Properties *)

#[local] Set Warnings "-clear-no-such-hyp".

(** ** The identifier generator *)

Section GenerateID.
Import types.

Lemma hexdigit_isHexDigit (i : N) : isHexDigit (hexdigit i) = true.
Proof.
  unfold hexdigit.
  destruct (String.get (N.to_nat i) hextable) as [c|] eqn:Hget; [|done].
  generalize dependent (N.to_nat i). intros n Hget.
  do 16 (destruct n as [|n]; [by simplify_eq/=|]).
  done.
Qed.

(** The buffer [rand.Read] returns always holds the requested bytes. *)
Lemma randRead_length n src : length (fst (randRead n src)) = n.
Proof.
  unfold randRead. simpl. rewrite length_take, length_app, length_replicate. lia.
Qed.

Lemma EncodeToString_4 b0 b1 b2 b3 :
  String.substring 0 4 (EncodeToString [b0; b1; b2; b3]) = EncodeToString [b0; b1].
Proof. reflexivity. Qed.

Definition allHex (s : string) : Prop :=
  Forall (λ c, isHexDigit c = true) (String.list_ascii_of_string s).

Lemma EncodeToString_allHex src : allHex (EncodeToString src).
Proof.
  induction src as [|v src IH]; [constructor|].
  unfold allHex. simpl. repeat constructor; auto using hexdigit_isHexDigit.
Qed.

Lemma EncodeToString_length src :
  String.length (EncodeToString src) = (2 * length src)%nat.
Proof. induction src; simpl; lia. Qed.
End GenerateID.

(** C1, as the code has it: for every prefix and every state of the
    random source, [GenerateID] returns the prefix, a hyphen and a suffix
    of 4 hexadecimal characters, the encoding of the first 2 of the 4
    random bytes it reads (a 16-bit suffix space), and consumes 4 bytes
    of the source. *)
Theorem GenerateID_four_hex (prefix : string) (src : types.entropy) :
  ∃ bytes suffix,
    bytes = fst (types.randRead 4 src) ∧
    length bytes = 4%nat ∧
    suffix = types.EncodeToString (take 2 bytes) ∧
    String.length suffix = 4%nat ∧
    allHex suffix ∧
    types.GenerateID prefix src = (prefix +:+ "-" +:+ suffix, drop 4 src).
Proof.
  pose proof (randRead_length 4 src) as Hlen.
  destruct (types.randRead 4 src) as [bytes src'] eqn:Hread.
  exists bytes, (types.EncodeToString (take 2 bytes)).
  simpl in Hlen.
  destruct bytes as [|b0 [|b1 [|b2 [|b3 [|]]]]]; simplify_eq/=.
  split_and!; try done.
  - apply (EncodeToString_allHex [b0; b1]).
  - unfold types.GenerateID. rewrite Hread. f_equal.
    unfold types.randRead in Hread. by simplify_eq.
Qed.

(** C1, as the specification words it (a suffix of 8 hexadecimal
    characters), fails: with the bytes de ad be ef the identifier is
    ins-dead. *)
Lemma GenerateID_not_eight_hex :
  ¬ ∃ suffix,
      fst (types.GenerateID "ins" [xde; xad; xbe; xef]) = "ins" +:+ "-" +:+ suffix ∧
      String.length suffix = 8%nat.
Proof.
  intros (suffix & Hid & Hlen).
  change (fst (types.GenerateID "ins" [xde; xad; xbe; xef])) with "ins-dead" in Hid.
  unfold String.append in Hid. by simplify_eq.
Qed.

(** ** The relational store *)

Section Store.
Import types store.

Lemma DB_eta db :
  mkDB (threads db) (insights db) (dependencies db) (config db) = db.
Proof. by destruct db. Qed.

#[global] Instance timestampDesc_total : Total timestampDesc.
Proof. intros a b. unfold timestampDesc. lia. Qed.

#[global] Instance timestampDesc_trans : Transitive timestampDesc.
Proof. intros a b c. unfold timestampDesc. lia. Qed.

#[global] Instance createdAtAsc_total : Total createdAtAsc.
Proof. intros a b. unfold createdAtAsc. lia. Qed.

#[global] Instance createdAtAsc_trans : Transitive createdAtAsc.
Proof. intros a b c. unfold createdAtAsc. lia. Qed.

(** *** Rows that do not match *)

Lemma filter_id_absent id (rows : list insightRow) :
  id ∉ c_id <$> rows → filter (λ r, c_id r = id) rows = [].
Proof.
  induction rows as [|r rows IH]; [done|].
  rewrite fmap_cons, not_elem_of_cons. intros [Hne Hnin].
  rewrite filter_cons_False by congruence. auto.
Qed.

Lemma filter_not_id_absent id (rows : list insightRow) :
  id ∉ c_id <$> rows → filter (λ r, ¬ c_id r = id) rows = rows.
Proof.
  induction rows as [|r rows IH]; [done|].
  rewrite fmap_cons, not_elem_of_cons. intros [Hne Hnin].
  rewrite filter_cons_True by congruence. f_equal. auto.
Qed.

Lemma fmap_replace_absent (row : insightRow) (rows : list insightRow) :
  c_id row ∉ c_id <$> rows →
  (λ r, if decide (c_id r = c_id row) then row else r) <$> rows = rows.
Proof.
  induction rows as [|r rows IH]; [done|].
  rewrite !fmap_cons, not_elem_of_cons. intros [Hne Hnin].
  rewrite decide_False by congruence. f_equal. auto.
Qed.

Lemma UpdateInsight_absent insight db :
  ¬ hasInsight (ID insight) db →
  UpdateInsight insight db = (db, Err (NotFound (ID insight))).
Proof.
  intros Habs. unfold UpdateInsight, updateInsight, hasInsight in *.
  change (c_id (insightToRow insight)) with (ID insight).
  rewrite filter_id_absent by done. simpl.
  pose proof (fmap_replace_absent (insightToRow insight) (insights db) Habs)
    as Hsame.
  simpl in Hsame. rewrite Hsame. by rewrite DB_eta.
Qed.

Lemma DeleteInsight_absent id db :
  ¬ hasInsight id db →
  DeleteInsight id db = (db, Err (NotFound id)).
Proof.
  intros Habs. unfold DeleteInsight, deleteInsight, hasInsight in *.
  rewrite filter_id_absent, filter_not_id_absent by done. simpl.
  by rewrite DB_eta.
Qed.

(** *** Creation *)



Lemma AddDependency_present dep db :
  hasEdge dep db →
  AddDependency dep db =
    (db, Err (Errorf ("dependency already exists: " +:+ From dep +:+ " -> "
                      +:+ To dep +:+ " (" +:+ DepType dep +:+ ")"))).
Proof.
  intros Hin. unfold AddDependency, insertDependency.
  by rewrite decide_True.
Qed.

Lemma AddDependency_absent dep db :
  ¬ hasEdge dep db →
  AddDependency dep db =
    (mkDB (threads db) (insights db) (dependencies db ++ [dep]) (config db),
     Ok ()).
Proof.
  intros Hin. unfold AddDependency, insertDependency.
  by rewrite decide_False.
Qed.


Lemma sameEdge_sym d e : sameEdge d e → sameEdge e d.
Proof. intros (H1 & H2 & H3). by split_and!. Qed.

(** *** Listing *)

Lemma thread_condition threadID (col : option string) :
  (∀ t, (if decide (threadID ≠ "") then Some threadID else None) = Some t →
        col = Some t)
  ↔ (threadID ≠ "" → default "" col = threadID).
Proof.
  case_decide as Hne; split.
  - intros H _. by rewrite (H threadID).
  - intros H t [= <-]. specialize (H Hne).
    destruct col as [c|]; simpl in H; congruence.
  - done.
  - intros _ t. done.
Qed.

Lemma type_condition (ty col : string) :
  (∀ t, (if decide (ty ≠ "") then Some ty else None) = Some t → col = t)
  ↔ (ty ≠ "" → col = ty).
Proof.
  case_decide as Hne; split.
  - intros H _. by apply H.
  - intros H t [= <-]. auto.
  - done.
  - intros _ t. done.
Qed.

Lemma since_condition (since col : Time) :
  (∀ s, (if negb (IsZero since) then Some since else None) = Some s → s ≤ col)
  ↔ (IsZero since = false → since ≤ col).
Proof.
  destruct (IsZero since); simpl; split.
  - done.
  - intros _ s. done.
  - intros H _. by apply H.
  - intros H s [= <-]. auto.
Qed.

Lemma selected_satisfies threadID ty since r :
  selected (if decide (threadID ≠ "") then Some threadID else None)
           (if decide (ty ≠ "") then Some ty else None)
           (if negb (IsZero since) then Some since else None) r
  ↔ satisfies threadID ty since (scanInsight r).
Proof.
  unfold selected, satisfies. simpl.
  by rewrite thread_condition, type_condition, since_condition.
Qed.

Lemma filter_fmap_scan (P : Insight → Prop) `{!∀ i, Decision (P i)}
    (rows : list insightRow) :
  filter P (scanInsight <$> rows) = scanInsight <$> filter (P ∘ scanInsight) rows.
Proof.
  induction rows as [|r rows IH]; [done|].
  rewrite fmap_cons, !filter_cons. simpl.
  case_decide; rewrite IH; done.
Qed.

(** What [ListInsights] returns, up to the order of insights with
    equal timestamps. *)
Lemma ListInsights_perm threadID ty since db :
  ∃ l, ListInsights threadID ty since db = Ok l ∧
       l ≡ₚ filter (satisfies threadID ty since) (scanInsight <$> insights db) ∧
       StronglySorted newestFirst l.
Proof.
  eexists. split; [reflexivity|]. split.
  - unfold selectInsights. rewrite merge_sort_Permutation.
    rewrite filter_fmap_scan. f_equiv.
    erewrite list_filter_iff; [done|]. intros r. apply selected_satisfies.
  - apply (StronglySorted_fmap _ timestampDesc); [done|].
    apply StronglySorted_merge_sort; apply _.
Qed.

End Store.




(** C10: updating or deleting an insight whose identifier is not in the
    store returns the not-found error and leaves every table as it
    was. *)
Theorem missing_insight_not_found (db : store.DB) (id : string) :
  ¬ store.hasInsight id db →
  (∀ insight, types.ID insight = id →
     store.UpdateInsight insight db = (db, Err (NotFound id))) ∧
  store.DeleteInsight id db = (db, Err (NotFound id)).
Proof.
  intros Habs. split.
  - intros insight <-. by apply UpdateInsight_absent.
  - by apply DeleteInsight_absent.
Qed.

Lemma missing_insight_not_found_witness :
  ¬ store.hasInsight "ins-0404" sample.dbABC ∧
  store.UpdateInsight (sample.insight "ins-0404" "x" types.InsightPivot 7)
    sample.dbABC = (sample.dbABC, Err (NotFound "ins-0404")) ∧
  store.DeleteInsight "ins-0404" sample.dbABC
    = (sample.dbABC, Err (NotFound "ins-0404")).
Proof.
  assert (Habs : ¬ store.hasInsight "ins-0404" sample.dbABC).
  { apply (bool_decide_unpack _). by vm_compute. }
  split; [exact Habs|].
  destruct (missing_insight_not_found sample.dbABC "ins-0404" Habs) as [Hu Hd].
  split; [by apply Hu | exact Hd].
Defined.

(** ** Graph traversal *)

Section Graph.
Import types store cmd.

Lemma elem_of_selectDependenciesTo d toID db :
  d ∈ selectDependenciesTo toID db ↔ To d = toID ∧ d ∈ dependencies db.
Proof.
  unfold selectDependenciesTo.
  by rewrite merge_sort_Permutation, list_elem_of_filter.
Qed.

Lemma elem_of_selectDependenciesFrom d fromID db :
  d ∈ selectDependenciesFrom fromID db ↔ From d = fromID ∧ d ∈ dependencies db.
Proof.
  unfold selectDependenciesFrom.
  by rewrite merge_sort_Permutation, list_elem_of_filter.
Qed.


(** *** The unresolved filter *)

Lemma isSuperseded_superseded db i :
  Exists (λ dep, DepType dep = DepSupersedes) (selectDependenciesTo (ID i) db)
  ↔ superseded db i.
Proof.
  unfold superseded. rewrite !Exists_exists. split.
  - intros (d & [Hto Hin]%elem_of_selectDependenciesTo & Hty). eauto.
  - intros (d & Hin & Hto & Hty). exists d.
    by rewrite elem_of_selectDependenciesTo.
Qed.

Lemma filterUnresolved_filter db insights :
  filterUnresolved (λ toID, GetDependents toID db) insights
  = Ok (filter (λ i, ¬ superseded db i) insights).
Proof.
  induction insights as [|i insights IH]; [done|].
  simpl. rewrite IH. simpl. rewrite filter_cons.
  destruct (decide (superseded db i)) as [Hs|Hs].
  - rewrite bool_decide_eq_true_2 by by apply isSuperseded_superseded.
    by rewrite decide_False by auto.
  - rewrite bool_decide_eq_false_2 by by rewrite isSuperseded_superseded.
    by rewrite decide_True.
Qed.
End Graph.

(** C9: the unresolved filter returns exactly the insights it is given
    that have no incoming supersedes edge, in the order given and
    whatever other edges point to them; of Q1, with no supersedes edge
    pointing to it, and Q2, which Q3 supersedes, it returns Q1 only. *)
Theorem filterUnresolved_exact (db : store.DB) :
  (∀ insights,
     cmd.filterUnresolved (λ toID, store.GetDependents toID db) insights
     = Ok (filter (λ i, ¬ superseded db i) insights)) ∧
  (∀ q1 q2 q3 t,
     ¬ superseded db q1 →
     types.mkDependency (types.ID q3) (types.ID q2) types.DepSupersedes t
       ∈ store.dependencies db →
     cmd.filterUnresolved (λ toID, store.GetDependents toID db) [q1; q2]
     = Ok [q1]).
Proof.
  split; [apply filterUnresolved_filter|].
  intros q1 q2 q3 t Hq1 Hedge. rewrite filterUnresolved_filter.
  rewrite filter_cons_True by done.
  rewrite filter_cons_False; [done|].
  intros Hq2. apply Hq2. apply Exists_exists. eauto.
Qed.

Lemma filterUnresolved_exact_witness :
  cmd.filterUnresolved (λ toID, store.GetDependents toID sample.dbQuestions)
    [sample.q1; sample.q2] = Ok [sample.q1] ∧
  cmd.filterUnresolved (λ toID, store.GetDependents toID sample.dbQuestions')
    [sample.q1; sample.q2] = Ok [sample.q1] ∧
  cmd.listQuestions true "" sample.dbQuestions = Ok [sample.q1].
Proof.
  split_and!.
  - apply (proj2 (filterUnresolved_exact sample.dbQuestions)
             sample.q1 sample.q2 sample.q3 400).
    + apply (bool_decide_unpack _). by vm_compute.
    + apply (bool_decide_unpack _). by vm_compute.
  - apply (proj2 (filterUnresolved_exact sample.dbQuestions')
             sample.q1 sample.q2 sample.q3 400).
    + apply (bool_decide_unpack _). by vm_compute.
    + apply (bool_decide_unpack _). by vm_compute.
  - by vm_compute.
Defined.

(** *** The walk of [traceChain] ends *)

Section TraceChainLoop.
Import types cmd.

Variable GetDependents : string → result (list Dependency).

Lemma firstBackEdge_cases deps :
  (firstBackEdge deps = ("", "") ∧ Forall (λ d, ¬ backEdge d) deps) ∨
  (∃ older d newer,
     deps = older ++ d :: newer ∧ Forall (λ d, ¬ backEdge d) older ∧
     backEdge d ∧ firstBackEdge deps = (From d, DepType d)).
Proof.
  induction deps as [|dep deps IH]; [by left|].
  simpl. case_decide as Hback.
  - right. exists [], dep, deps. by split_and!.
  - destruct IH as [[Hnone Hall]|(older & d & newer & -> & Hall & Hd & Hfirst)].
    + left. split; [done|]. by constructor.
    + right. exists (dep :: older), d, newer. split_and!; try done.
      by constructor.
Qed.

(** More iterations do not change a walk that ended. *)
Lemma traceChainLoop_more fuel extra visited current chain r :
  traceChainLoop GetDependents fuel visited current chain = Some r →
  traceChainLoop GetDependents (fuel + extra) visited current chain = Some r.
Proof.
  revert visited current chain.
  induction fuel as [|fuel IH]; intros visited current chain; simpl.
  - case_decide; [done|]. intros [= <-].
    destruct extra; simpl; by rewrite decide_False.
  - case_decide; [|done].
    destruct (GetDependents current) as [deps|]; [|done].
    destruct (firstBackEdge deps) as [prevID relation]. apply IH.
Qed.

(** The identifiers the store can name: a finite set that holds the
    source of every dependency the interface returns. *)
Variable U : gset string.
Hypothesis sources_in_U :
  ∀ toID deps d, GetDependents toID = Ok deps → d ∈ deps → From d ∈ U.

Lemma traceChainLoop_ends fuel visited current chain :
  (size (U ∖ visited) < fuel)%nat →
  current = "" ∨ current ∈ U →
  visited ⊆ U →
  NoDup (insightID <$> chain) →
  (∀ x, x ∈ insightID <$> chain → x ∈ visited) →
  ∃ r, traceChainLoop GetDependents fuel visited current chain = Some r ∧
       NoDup (insightID <$> r) ∧
       (∀ x, x ∈ insightID <$> r → x ∈ U).
Proof.
  revert visited current chain.
  induction fuel as [|fuel IH]; intros visited current chain Hfuel Hcur Hvis Hnd Hin;
    [lia|].
  simpl. case_decide as Hcond.
  - destruct Hcond as [Hne Hnew].
    assert (current ∈ U) as HcurU by (by destruct Hcur).
    destruct (GetDependents current) as [deps|e] eqn:Hdeps.
    + destruct (firstBackEdge deps) as [prevID relation] eqn:Hfirst.
      apply IH.
      * assert (U ∖ ({[current]} ∪ visited) ⊂ U ∖ visited) as Hlt%subset_size
          by set_solver.
        lia.
      * destruct (firstBackEdge_cases deps)
          as [[Hnone _]|(older & d & newer & -> & _ & _ & Hd)].
        -- left. congruence.
        -- right. assert (prevID = From d) as -> by congruence.
           eapply sources_in_U; [done|]. set_solver.
      * set_solver.
      * rewrite fmap_cons. simpl. constructor; [|done].
        intros Hold. by apply Hnew, Hin.
      * rewrite fmap_cons. simpl. intros x [->|Hx]%elem_of_cons; set_solver.
    + exists chain. split_and!; [done..|]. intros x Hx. by apply Hvis, Hin.
  - exists chain. split_and!; [done..|]. intros x Hx. by apply Hvis, Hin.
Qed.
End TraceChainLoop.

Section TraceChainStore.
Import types store cmd.

Lemma size_list_to_set_le (l : list string) :
  (size (list_to_set (C := gset string) l) ≤ length l)%nat.
Proof.
  induction l as [|x l IH].
  - by rewrite list_to_set_nil, size_empty.
  - rewrite list_to_set_cons. simpl.
    rewrite size_union_alt, size_singleton.
    assert (list_to_set l ∖ {[x]} ⊆ (list_to_set l : gset string))
      as Hsub%subseteq_size by set_solver.
    lia.
Qed.

(** The identifiers a walk from [startID] can reach in [db]. *)
Definition reachable (startID : string) (db : DB) : gset string :=
  {[startID]} ∪ list_to_set (From <$> dependencies db).

Lemma reachable_size startID db :
  (size (reachable startID db) ≤ length (dependencies db) + 1)%nat.
Proof.
  unfold reachable. rewrite size_union_alt, size_singleton.
  assert (list_to_set (From <$> dependencies db) ∖ {[startID]}
          ⊆ (list_to_set (From <$> dependencies db) : gset string))
    as Hsub%subseteq_size by set_solver.
  pose proof (size_list_to_set_le (From <$> dependencies db)) as Hle.
  rewrite length_fmap in Hle. lia.
Qed.

Lemma GetDependents_reachable startID db toID deps d :
  GetDependents toID db = Ok deps → d ∈ deps → From d ∈ reachable startID db.
Proof.
  intros [= <-] [_ Hd]%elem_of_selectDependenciesTo.
  unfold reachable. apply elem_of_union_r, elem_of_list_to_set.
  by apply list_elem_of_fmap_2.
Qed.

Lemma NoDup_length_le_size (l : list string) (X : gset string) :
  NoDup l → (∀ x, x ∈ l → x ∈ X) → (length l ≤ size X)%nat.
Proof.
  intros Hnd Hin. rewrite <- (size_list_to_set (C := gset string) l) by done.
  apply subseteq_size. set_solver.
Qed.

Lemma traceChain_store_ends db startID insightMap :
  ∃ chain,
    (∀ extra, traceChain (λ toID, GetDependents toID db)
                (length (dependencies db) + 2 + extra) startID insightMap
              = Some chain) ∧
    NoDup (insightID <$> chain) ∧
    (length chain ≤ length (dependencies db) + 1)%nat.
Proof.
  pose proof (reachable_size startID db) as Hsize.
  destruct (traceChainLoop_ends (λ toID, GetDependents toID db)
              (reachable startID db) (GetDependents_reachable startID db)
              (length (dependencies db) + 2) ∅ startID [])
    as (chain & Hchain & Hnd & Hin).
  - assert (reachable startID db ∖ ∅ = reachable startID db) as -> by set_solver.
    lia.
  - right. unfold reachable. set_solver.
  - set_solver.
  - constructor.
  - set_solver.
  - exists chain. split_and!.
    + intros extra. by apply traceChainLoop_more.
    + done.
    + etrans; [|exact Hsize]. rewrite <- (length_fmap insightID).
      by apply NoDup_length_le_size.
Qed.
End TraceChainStore.

(** C7: for every store, whatever its dependency graph, and every
    starting identifier, the backward walk of [traceChain] ends: after
    at most one iteration per dependency and one more it returns a
    chain, the same however many further iterations it is allowed, in
    which no identifier occurs twice. On the cycle of builds-on edges
    A -> B -> C -> A, started at A, it returns B, C, A and stops where A
    would be visited again. *)
Theorem traceChain_terminates (db : store.DB) (startID : string)
    (insightMap : gmap string types.Insight) :
  (∃ chain,
     (∀ extra, cmd.traceChain (λ toID, store.GetDependents toID db)
                 (length (store.dependencies db) + 2 + extra) startID insightMap
               = Some chain) ∧
     NoDup (cmd.insightID <$> chain) ∧
     (length chain ≤ length (store.dependencies db) + 1)%nat) ∧
  (∀ extra, cmd.traceChain (λ toID, store.GetDependents toID sample.dbCycle)
              (4 + extra) "ins-000a" insightMap
            = Some [cmd.mkChainItem "ins-000b" "builds-on";
                    cmd.mkChainItem "ins-000c" "builds-on";
                    cmd.mkChainItem "ins-000a" "builds-on"]).
Proof.
  split; [apply traceChain_store_ends|].
  intros extra. unfold cmd.traceChain.
  apply (traceChainLoop_more _ 4 extra). by vm_compute.
Qed.

(** *** The trace of a spawned bead *)

Section Trace.
Import types store cmd.






Lemma filter_all {A} (P : A → Prop) `{!∀ x, Decision (P x)} (l : list A) :
  (∀ x, P x) → filter P l = l.
Proof.
  intros HP. induction l as [|x l IH]; [done|].
  rewrite filter_cons_True by done. by f_equal.
Qed.

(** Without filters [ListInsights] returns every insight. *)
Lemma ListInsights_all db :
  ∃ all, ListInsights "" "" 0 db = Ok all ∧ all ≡ₚ scanInsight <$> insights db.
Proof.
  destruct (ListInsights_perm "" "" 0 db) as (all & Hall & Hperm & _).
  exists all. split; [done|]. rewrite Hperm. apply reflexive_eq, filter_all.
  intros i. by split_and!.
Qed.

Lemma ID_scanInsight (rows : list insightRow) :
  ID <$> (scanInsight <$> rows) = c_id <$> rows.
Proof. by rewrite <- list_fmap_compose. Qed.

Section Scenario.
Variables (db : DB) (a b X : string) (t1 t2 : Time).
Hypothesis edges :
  dependencies db = [mkDependency a b DepBuildsOn t1;
                     mkDependency b X DepSpawns t2].
Hypothesis a_b : a ≠ b.






End Scenario.
End Trace.



(** ** The schema migrator *)

Section Migrations.
Import migrations.

(** The names of the tables the migrations create. *)
Definition created : gset string :=
  {["threads"; "insights"; "dependencies"; "insights_fts"; "config"]}.

(** [db'] has what [db] has: every table, with its columns and maybe
    more after them, every index and every trigger; its further tables
    are among [created]. *)
Definition extends (db db' : Schema) : Prop :=
  (∀ k t, tables db !! k = Some t →
     ∃ t', tables db' !! k = Some t' ∧ module t' = module t ∧
           columns t `prefix_of` columns t') ∧
  (∀ k, is_Some (tables db' !! k) → is_Some (tables db !! k) ∨ k ∈ created) ∧
  (∀ k, is_Some (indexes db !! k) → is_Some (indexes db' !! k)) ∧
  (∀ k, is_Some (triggers db !! k) → is_Some (triggers db' !! k)).

Lemma extends_refl db : extends db db.
Proof. split_and!; eauto. Qed.

Lemma extends_trans db1 db2 db3 :
  extends db1 db2 → extends db2 db3 → extends db1 db3.
Proof.
  intros (T1 & N1 & I1 & G1) (T2 & N2 & I2 & G2). split_and!.
  - intros k t Ht.
    destruct (T1 k t Ht) as (t' & Ht' & Hm' & Hc').
    destruct (T2 k t' Ht') as (t'' & Ht'' & Hm'' & Hc'').
    exists t''. split_and!; [done|congruence|by etrans].
  - intros k Hk. destruct (N2 k Hk) as [Hk2|?]; [|by right]. by apply N1.
  - eauto.
  - eauto.
Qed.

Lemma extends_same_tables db db' :
  tables db' = tables db →
  (∀ k, is_Some (indexes db !! k) → is_Some (indexes db' !! k)) →
  (∀ k, is_Some (triggers db !! k) → is_Some (triggers db' !! k)) →
  extends db db'.
Proof.
  intros Ht Hi Hg. split_and!; [| |done..].
  - intros k t Hk. exists t. rewrite Ht. by split_and!.
  - intros k. rewrite Ht. by left.
Qed.

Lemma is_Some_insert_mono {A} (m : gmap string A) k x k' :
  is_Some (m !! k') → is_Some (<[k := x]> m !! k').
Proof.
  intros Hk'. destruct (decide (k = k')) as [<-|Hne].
  - by rewrite lookup_insert_eq.
  - by rewrite lookup_insert_ne.
Qed.

(** The statement has been executed: executing it changes nothing. *)
Definition settled (s : stmt) (db : Schema) : Prop :=
  match s with
  | CreateTableIfNotExists name _ | CreateVirtualTableIfNotExists name _ _ =>
      is_Some (tables db !! fold name)
  | CreateIndexIfNotExists name table _ =>
      (∃ t, tables db !! fold table = Some t ∧ module t = None) ∧
      tables db !! fold name = None ∧ is_Some (indexes db !! fold name)
  | CreateTriggerIfNotExists name table =>
      (∃ t, tables db !! fold table = Some t ∧ module t = None) ∧
      is_Some (triggers db !! fold name)
  | AlterTableAddColumn _ _ => False
  end.

(** What the statement needs of the names the migrations use. *)
Definition wellNamed (s : stmt) : Prop :=
  match s with
  | CreateTableIfNotExists name _ | CreateVirtualTableIfNotExists name _ _ =>
      fold name ∈ created
  | CreateIndexIfNotExists name _ _ => fold name ∉ created
  | CreateTriggerIfNotExists _ _ => True
  | AlterTableAddColumn _ _ => False
  end.

Lemma createTable_extends name def db db' :
  fold name ∈ created → createTable name def db = Ok db' →
  extends db db' ∧ is_Some (tables db' !! fold name).
Proof.
  unfold createTable. intros Hname H.
  destruct (tables db !! fold name) as [t|] eqn:Ht.
  - simplify_eq. split; [apply extends_refl|]. by rewrite Ht.
  - case_decide; simplify_eq. simpl. split.
    + split_and!; simpl; eauto.
      * intros k t Hk. exists t. split_and!; [|done..].
        rewrite lookup_insert_ne; [done|]. congruence.
      * intros k. destruct (decide (fold name = k)) as [<-|Hne]; [by right|].
        rewrite lookup_insert_ne by done. by left.
    + by rewrite lookup_insert_eq.
Qed.

Lemma Exec_extends s db db' :
  Exec s db = Ok db' → (∀ t c, s ≠ AlterTableAddColumn t c) → wellNamed s →
  extends db db' ∧ settled s db'.
Proof.
  destruct s as [name cols|name table cols|name modname cols|name table|table col];
    simpl; intros H Hs Hname.
  - by apply createTable_extends in H.
  - destruct (tables db !! fold table) as [t|] eqn:Ht; [|done].
    repeat case_decide; simplify_eq.
    + split; [apply extends_refl|]. split_and!; [|by apply eq_None_not_Some|done].
      exists t. split; [done|]. by apply eq_None_not_Some.
    + split.
      * apply extends_same_tables; simpl; [done| |done].
        intros k. apply is_Some_insert_mono.
      * simpl. split_and!; [|by apply eq_None_not_Some|by rewrite lookup_insert_eq].
        exists t. split; [done|]. by apply eq_None_not_Some.
  - by apply createTable_extends in H.
  - destruct (tables db !! fold table) as [t|] eqn:Ht; [|done].
    repeat case_decide; simplify_eq.
    + split; [apply extends_refl|]. split; [|done].
      exists t. split; [done|]. by apply eq_None_not_Some.
    + split.
      * apply extends_same_tables; simpl; [done..|].
        intros k. apply is_Some_insert_mono.
      * simpl. split; [|by rewrite lookup_insert_eq].
        exists t. split; [done|]. by apply eq_None_not_Some.
  - by destruct (Hs table col).
Qed.

Lemma settled_Exec s db : settled s db → Exec s db = Ok db.
Proof.
  destruct s as [name cols|name table cols|name modname cols|name table|table col];
    simpl.
  - unfold createTable. by intros [t ->].
  - intros ((t & -> & Hm) & Hn & Hi).
    rewrite decide_False by (rewrite Hm; by intros [??]).
    rewrite decide_False by (rewrite Hn; by intros [??]).
    by rewrite decide_True.
  - unfold createTable. by intros [t ->].
  - intros ((t & -> & Hm) & Hi).
    rewrite decide_False by (rewrite Hm; by intros [??]).
    by rewrite decide_True.
  - done.
Qed.

Lemma settled_stable s db db' :
  wellNamed s → settled s db → extends db db' → settled s db'.
Proof.
  intros Hname Hs (T & N & I & G).
  destruct s as [name cols|name table cols|name modname cols|name table|table col];
    simpl in *.
  - destruct Hs as [t Ht]. destruct (T _ _ Ht) as (t' & -> & _). done.
  - destruct Hs as ((t & Ht & Hm) & Hn & Hi). split_and!.
    + destruct (T _ _ Ht) as (t' & Ht' & Hm' & _). exists t'.
      split; [done|congruence].
    + apply eq_None_not_Some. intros [Hold|Hnew]%N; [|done].
      rewrite Hn in Hold. by destruct Hold.
    + auto.
  - destruct Hs as [t Ht]. destruct (T _ _ Ht) as (t' & -> & _). done.
  - destruct Hs as ((t & Ht & Hm) & Hi). split.
    + destruct (T _ _ Ht) as (t' & Ht' & Hm' & _). exists t'.
      split; [done|congruence].
    + auto.
  - done.
Qed.

(** *** Migrations that check what they change

    [idem S m]: when [m] succeeds it has only added to the database
    and [S] holds; where [S] holds, [m] succeeds and changes nothing;
    and [S] keeps holding while the database is added to. *)
Definition idem (S : Schema → Prop) (m : M ()) : Prop :=
  (∀ db db', m db = (Ok (), db') → extends db db' ∧ S db') ∧
  (∀ db, S db → m db = (Ok (), db)) ∧
  (∀ db db', S db → extends db db' → S db').

Lemma idem_exec s :
  (∀ t c, s ≠ AlterTableAddColumn t c) → wellNamed s →
  idem (settled s) (exec s).
Proof.
  intros Hs Hname. split_and!.
  - intros db db'. unfold exec.
    destruct (Exec s db) as [db1|e] eqn:HE; intros [= <-].
    by apply Exec_extends.
  - intros db Hdb. unfold exec. by rewrite settled_Exec.
  - intros db db'. by apply settled_stable.
Qed.

Lemma idem_orWrap S msg m : idem S m → idem S (orWrap msg m).
Proof.
  intros (H1 & H2 & H3). split_and!; [| |done].
  - intros db db'. unfold orWrap.
    destruct (m db) as [[[]|e] db1] eqn:Hm; intros [= <-]. by apply H1.
  - intros db Hdb. unfold orWrap. by rewrite H2.
Qed.

Lemma idem_bind S1 S2 m1 m2 :
  idem S1 m1 → idem S2 m2 → idem (λ db, S1 db ∧ S2 db) (_ ← m1; m2).
Proof.
  intros (A1 & B1 & C1) (A2 & B2 & C2). split_and!.
  - intros db db'. unfold mbind, M_bind.
    destruct (m1 db) as [[[]|e] db1] eqn:Hm1; [|done].
    intros Hm2. destruct (A1 _ _ Hm1) as [E1 HS1].
    destruct (A2 _ _ Hm2) as [E2 HS2].
    split; [by eapply extends_trans|]. split; [by eapply C1|done].
  - intros db [HS1 HS2]. unfold mbind, M_bind. rewrite B1 by done. by apply B2.
  - intros db db' [HS1 HS2] Hext. split; [by eapply C1|by eapply C2].
Qed.

Lemma idem_ret : idem (λ _, True) (mret ()).
Proof.
  split_and!; [|done..].
  intros db db' [= <-]. split; [apply extends_refl|done].
Qed.

Lemma idem_forEach {A} (S : A → Schema → Prop) (f : A → M ()) (l : list A) :
  Forall (λ x, idem (S x) (f x)) l →
  idem (λ db, Forall (λ x, S x db) l) (forEach f l).
Proof.
  induction 1 as [|x l Hx _ IH]; simpl.
  - destruct idem_ret as (A1 & B1 & C1). split_and!; [|done..].
    intros db db' Hm. destruct (A1 _ _ Hm). by split.
  - destruct (idem_bind _ _ _ _ Hx IH) as (A1 & B1 & C1). split_and!.
    + intros db db' Hm. destruct (A1 _ _ Hm) as [? [??]].
      split; [done|]. by constructor.
    + intros db [??]%Forall_cons. by apply B1.
    + intros db db' [??]%Forall_cons Hext.
      destruct (C1 db db') as [??]; [done..|]. by constructor.
Qed.

Lemma idem_weaken (S S' : Schema → Prop) m :
  (∀ db, S db ↔ S' db) → idem S m → idem S' m.
Proof.
  intros HS (A1 & B1 & C1). split_and!.
  - intros db db' Hm. destruct (A1 _ _ Hm). split; [done|]. by apply HS.
  - intros db Hdb. by apply B1, HS.
  - intros db db' Hdb Hext. apply HS. eapply C1; [|done]. by apply HS.
Qed.

(** A table has a column of exactly this name. *)
Definition columnPresent (table col : string) (db : Schema) : Prop :=
  ∃ t, tables db !! fold table = Some t ∧ col ∈ columns t.

Lemma tableInfoCount_pos table col db :
  (0 < tableInfoCount table col db)%nat ↔ columnPresent table col db.
Proof.
  unfold tableInfoCount, columnPresent.
  destruct (tables db !! fold table) as [t|]; [|split; [lia|by intros (? & ? & _)]].
  split.
  - intros Hpos. exists t. split; [done|].
    destruct (filter (λ c, c = col) (columns t)) as [|c l] eqn:Hf;
      [simpl in Hpos; lia|].
    assert (c ∈ filter (λ c, c = col) (columns t)) as Hc by (rewrite Hf; set_solver).
    by apply list_elem_of_filter in Hc as [-> ?].
  - intros (t' & [= <-] & Hin).
    assert (col ∈ filter (λ c, c = col) (columns t)) as Hc
      by by apply list_elem_of_filter.
    destruct (filter (λ c, c = col) (columns t)); [by apply elem_of_nil in Hc|].
    simpl. lia.
Qed.

Lemma columnPresent_stable table col db db' :
  columnPresent table col db → extends db db' → columnPresent table col db'.
Proof.
  intros (t & Ht & Hin) (T & _). destruct (T _ _ Ht) as (t' & Ht' & _ & Hpre).
  exists t'. split; [done|]. destruct Hpre as [more ->]. set_solver.
Qed.

Lemma AlterTableAddColumn_extends table col db db' :
  Exec (AlterTableAddColumn table col) db = Ok db' →
  extends db db' ∧ columnPresent table col db'.
Proof.
  simpl. destruct (tables db !! fold table) as [t|] eqn:Ht; [|done].
  repeat case_decide; intros; simplify_eq. split.
  - split_and!; simpl; eauto.
    + intros k t' Hk. destruct (decide (fold table = k)) as [<-|Hne].
      * rewrite lookup_insert_eq. simplify_eq. eexists.
        split_and!; [done..|]. simpl. by apply prefix_app_r.
      * rewrite lookup_insert_ne by done. exists t'. by split_and!.
    + intros k. destruct (decide (fold table = k)) as [<-|Hne].
      * rewrite Ht. by left.
      * rewrite lookup_insert_ne by done. by left.
  - eexists. simpl. rewrite lookup_insert_eq. split; [done|]. simpl. set_solver.
Qed.

(** A migration that adds a column unless the table has it, and then
    maybe runs further statements. *)
Lemma idem_addColumn table col msg1 msg2 (more : M ()) (S : Schema → Prop) :
  idem S more →
  idem (columnPresent table col)
    (count ← orWrap msg1 (queryCount table col);
     if decide (0 < count)%nat then mret ()
     else _ ← orWrap msg2 (exec (AlterTableAddColumn table col)); more).
Proof.
  intros (A1 & B1 & C1). split_and!.
  - intros db db'. unfold mbind, M_bind, orWrap, queryCount. simpl.
    case_decide as Hcount.
    + intros [= <-]. split; [apply extends_refl|]. by apply tableInfoCount_pos.
    + unfold exec.
      destruct (Exec (AlterTableAddColumn table col) db) as [db1|e] eqn:HE;
        [|done].
      apply AlterTableAddColumn_extends in HE as [Hext Hcol].
      intros Hmore. destruct (A1 _ _ Hmore) as [Hext' _].
      split; [by eapply extends_trans|]. by eapply columnPresent_stable.
  - intros db Hcol. unfold mbind, M_bind, orWrap, queryCount. simpl.
    by rewrite decide_True by by apply tableInfoCount_pos.
  - intros db db'. apply columnPresent_stable.
Qed.

Lemma idem_addColumn_only table col msg1 msg2 :
  idem (columnPresent table col)
    (count ← orWrap msg1 (queryCount table col);
     if decide (0 < count)%nat then mret ()
     else orWrap msg2 (exec (AlterTableAddColumn table col))).
Proof.
  split_and!.
  - intros db db'. unfold mbind, M_bind, orWrap, queryCount. simpl.
    case_decide as Hcount.
    + intros [= <-]. split; [apply extends_refl|]. by apply tableInfoCount_pos.
    + unfold exec.
      destruct (Exec (AlterTableAddColumn table col) db) as [db1|e] eqn:HE;
        intros [= <-].
      by apply AlterTableAddColumn_extends.
  - intros db Hcol. unfold mbind, M_bind, orWrap, queryCount. simpl.
    by rewrite decide_True by by apply tableInfoCount_pos.
  - intros db db'. apply columnPresent_stable.
Qed.

(** [m] has run, on the evidence of some condition [m] itself
    establishes and later additions keep. *)
Definition Settled (m : M ()) (db : Schema) : Prop :=
  ∃ S, idem S m ∧ S db.

Lemma idem_Settled S m : idem S m → idem (Settled m) m.
Proof.
  intros Hm. split_and!.
  - intros db db' Hrun. pose proof Hm as (A1 & _). destruct (A1 _ _ Hrun).
    split; [done|]. by exists S.
  - intros db (S' & (_ & B1 & _) & HS'). by apply B1.
  - intros db db' (S' & HS' & Hdb) Hext. exists S'. split; [done|].
    destruct HS' as (_ & _ & C1). by eapply C1.
Qed.

#[local] Instance wellNamed_dec s : Decision (wellNamed s).
Proof. destruct s; simpl; apply _. Defined.

Ltac idem_statement :=
  apply idem_orWrap, idem_exec;
  [ intros ??; discriminate | apply (bool_decide_unpack _); by vm_compute ].

Lemma migrateInitialSchema_idem : ∃ S, idem S migrateInitialSchema.
Proof.
  eexists. unfold migrateInitialSchema.
  do 3 (apply idem_bind; [idem_statement|]).
  apply (idem_forEach (λ idx, settled idx)).
  unfold initialIndexes. repeat (constructor; [idem_statement|]). constructor.
Qed.

Lemma migrateInsightsAuthorID_idem : ∃ S, idem S migrateInsightsAuthorID.
Proof. eexists. eapply idem_addColumn. idem_statement. Qed.

Lemma migrateInsightsEndorsedBy_idem : ∃ S, idem S migrateInsightsEndorsedBy.
Proof. eexists. apply idem_addColumn_only. Qed.

Lemma migrateConfigTable_idem : ∃ S, idem S migrateConfigTable.
Proof. eexists. unfold migrateConfigTable. idem_statement. Qed.

Lemma RunMigrations_idem : ∃ S, idem S RunMigrations.
Proof.
  eexists. unfold RunMigrations.
  apply (idem_forEach (λ migration,
           Settled (orWrap ("migration " +:+ migration.1 +:+ " failed")
                      migration.2))).
  unfold migrationsList.
  destruct migrateInitialSchema_idem as [S1 H1].
  destruct migrateInsightsAuthorID_idem as [S2 H2].
  destruct migrateInsightsEndorsedBy_idem as [S3 H3].
  destruct migrateConfigTable_idem as [S4 H4].
  repeat (constructor; [simpl; eapply idem_Settled, idem_orWrap; eassumption|]).
  constructor.
Qed.
End Migrations.

(** C6: whenever a run of the migrator succeeds, on whatever database,
    a second run succeeds too and leaves the schema exactly as the first
    run left it; on a database without tables the first run succeeds. *)
Theorem RunMigrations_idempotent :
  (∀ db db1,
     migrations.RunMigrations db = (Ok (), db1) →
     migrations.RunMigrations db1 = (Ok (), db1)) ∧
  (∃ db1, migrations.RunMigrations migrations.emptySchema = (Ok (), db1) ∧
          migrations.RunMigrations db1 = (Ok (), db1)).
Proof.
  assert (∀ db db1,
            migrations.RunMigrations db = (Ok (), db1) →
            migrations.RunMigrations db1 = (Ok (), db1)) as Hagain.
  { destruct RunMigrations_idem as (S & A1 & B1 & _).
    intros db db1 Hrun. apply B1. by destruct (A1 _ _ Hrun). }
  split; [done|].
  exists (migrations.RunMigrations migrations.emptySchema).2.
  assert (migrations.RunMigrations migrations.emptySchema
          = (Ok (), (migrations.RunMigrations migrations.emptySchema).2)) as Hfirst.
  { rewrite (surjective_pairing (migrations.RunMigrations _)) at 1.
    f_equal; by vm_compute. }
  split; [done|]. by apply (Hagain migrations.emptySchema).
Qed.

Lemma RunMigrations_idempotent_witness :
  migrations.RunMigrations sample.legacySchema
    = (Ok (), sample.migratedSchema) ∧
  migrations.RunMigrations sample.migratedSchema
    = (Ok (), sample.migratedSchema).
Proof.
  assert (migrations.RunMigrations sample.legacySchema
          = (Ok (), sample.migratedSchema)) as Hfirst by by vm_compute.
  split; [exact Hfirst|].
  exact (proj1 RunMigrations_idempotent _ _ Hfirst).
Defined.

(** ** The log codec *)

Section Scanner.
Import bufio.

Lemma splitLines_not_nil data : splitLines data ≠ [].
Proof.
  destruct data as [|c rest]; simpl; [done|].
  case_decide; [done|]. by destruct (splitLines rest).
Qed.

Lemma splitLines_line line rest :
  splitLines line = [line] →
  splitLines (line +:+ newline +:+ rest) = line :: splitLines rest.
Proof.
  induction line as [|c line IH]; simpl; [done|].
  case_decide as Hc.
  - by intros [= ? _].
  - pose proof (splitLines_not_nil line) as Hnil.
    destruct (splitLines line) as [|l ls] eqn:Hl; [done|].
    intros [= -> ->]. by rewrite IH.
Qed.

Lemma Scan_empty : Scan "" = ([], None).
Proof. reflexivity. Qed.

Lemma Scan_line line rest :
  scannable line →
  Scan (line +:+ newline +:+ rest) = (line :: (Scan rest).1, (Scan rest).2).
Proof.
  intros (Hne & Hone & Hcr & Hlen). unfold Scan.
  rewrite splitLines_line by done.
  pose proof (splitLines_not_nil rest) as Hrest.
  simpl. rewrite decide_False by lia.
  destruct (splitLines rest) as [|p ps] eqn:Hsplit; [done|].
  rewrite Hcr. by destruct (scanLines (p :: ps)).
Qed.
End Scanner.

Section ReadJSONL.
Import bufio jsonl.
Context {A : Type} (unmarshal : string → result A).

Lemma length_0_empty (line : string) : String.length line = 0%nat ↔ line = "".
Proof. by destruct line. Qed.

Lemma decodeLines_failure lines : ∀ k n err,
  firstFailure unmarshal lines n err →
  decodeLines unmarshal k lines
  = Err (Wrapf ("failed to decode JSON at line " +:+ pretty (k + n + 1)%nat) err).
Proof.
  induction lines as [|line lines IH]; intros k n err [(l & Hl & Hne & Herr) Hbefore].
  - by rewrite lookup_nil in Hl.
  - simpl. destruct n as [|n].
    + simpl in Hl. simplify_eq.
      rewrite decide_False by by rewrite length_0_empty.
      rewrite Herr. do 4 f_equal. lia.
    + assert (firstFailure unmarshal lines n err) as Hrest.
      { split; [by exists l|]. intros m line' Hm Hline'.
        apply (Hbefore (S m)); [lia|done]. }
      case_decide as Hempty.
      * rewrite (IH (S k) n err Hrest). do 4 f_equal. lia.
      * destruct (Hbefore 0%nat line) as [item ->]; [lia|done|..].
        { by rewrite <- length_0_empty. }
        rewrite (IH (S k) n err Hrest). simpl. do 4 f_equal. lia.
Qed.

Lemma decodeLines_all lines : ∀ k items,
  allDecode unmarshal lines items → decodeLines unmarshal k lines = Ok items.
Proof.
  unfold allDecode.
  induction lines as [|line lines IH]; intros k items Hall.
  - by apply Forall2_nil_inv_l in Hall as ->.
  - simpl. rewrite filter_cons in Hall.
    destruct (decide (line = "")) as [->|Hne].
    + rewrite decide_False in Hall by auto. simpl. by apply IH.
    + rewrite decide_True in Hall by done.
      rewrite decide_False by by rewrite length_0_empty.
      apply Forall2_cons_inv_l in Hall as (item & rest & -> & Hrest & ->).
      by rewrite (IH _ _ Hrest).
Qed.

(** The scanner delivers the lines of a file whose lines are short. *)
Lemma Scan_shortLines data :
  shortLines data → Scan data = (fileLines data, None).
Proof.
  unfold shortLines, Scan, fileLines.
  induction 1 as [|piece rest Hshort _ IH]; [done|].
  simpl. rewrite decide_False by lia.
  destruct rest as [|next rest]; [done|]. by rewrite IH.
Qed.

(** It stops at a line that fills its buffer. *)
Lemma Scan_long_first piece rest :
  splitLines piece = [piece] →
  MaxScanTokenSize ≤ Z.of_nat (String.length piece) →
  Scan (piece +:+ newline +:+ rest) = ([], Some ErrTooLong).
Proof.
  intros Hone Hlong. unfold Scan. rewrite splitLines_line by done.
  simpl. by rewrite decide_True.
Qed.

Lemma readJSONL_shortLines filePath fs data :
  files fs !! filePath = Some data → shortLines data →
  readJSONL unmarshal filePath fs
  = decodeLines unmarshal 0 (fileLines data).
Proof.
  intros Hfile Hshort. unfold readJSONL.
  rewrite Hfile, Scan_shortLines by done.
  by destruct (decodeLines unmarshal 0 (fileLines data)).
Qed.
End ReadJSONL.

(** C5, as the code has it: of a file whose lines fit the scanner's
    buffer, import reads the lines in order and skips the empty ones;
    if a line that is not empty fails to decode, the import fails with
    the format error that names the number of the first such line and
    wraps its decoding error, and returns no record; if every line that
    is not empty decodes, it returns the decoded records in the order
    of the file. *)
Theorem readJSONL_line_by_line {A : Type} (unmarshal : string → result A)
    (filePath : string) (fs : jsonl.FS) (data : string) :
  jsonl.files fs !! filePath = Some data →
  shortLines data →
  (∀ n err,
     firstFailure unmarshal (fileLines data) n err →
     jsonl.readJSONL unmarshal filePath fs
     = Err (Wrapf ("failed to decode JSON at line " +:+ pretty (S n)) err)) ∧
  (∀ items,
     allDecode unmarshal (fileLines data) items →
     jsonl.readJSONL unmarshal filePath fs = Ok items).
Proof.
  intros Hfile Hshort. rewrite (readJSONL_shortLines _ _ _ _ Hfile Hshort). split.
  - intros n err Hfail. rewrite (decodeLines_failure _ _ 0 n err Hfail).
    do 4 f_equal. lia.
  - intros items Hall. by apply decodeLines_all.
Qed.

Lemma readJSONL_line_by_line_witness :
  jsonl.readJSONL sampleFiles.unmarshalInsightLine "bad.jsonl" sampleFiles.fsLogs
  = Err (Wrapf "failed to decode JSON at line 3" (JSONError "invalid character")) ∧
  jsonl.readJSONL sampleFiles.unmarshalInsightLine "good.jsonl" sampleFiles.fsLogs
  = Ok [sample.insA; sample.insB].
Proof.
  split.
  - destruct (readJSONL_line_by_line sampleFiles.unmarshalInsightLine
                "bad.jsonl" sampleFiles.fsLogs sampleFiles.badLog) as [Hfail _].
    + reflexivity.
    + apply (bool_decide_unpack _). by vm_compute.
    + apply (Hfail 2%nat). split.
      * exists "{id: ins-0002 this is broken}". split_and!; by vm_compute.
      * intros m line Hm Hline Hne.
        destruct m as [|[|m]]; [| |lia]; vm_compute in Hline; simplify_eq.
        exists sample.insA. by vm_compute.
  - destruct (readJSONL_line_by_line sampleFiles.unmarshalInsightLine
                "good.jsonl" sampleFiles.fsLogs sampleFiles.goodLog) as [_ Hall].
    + reflexivity.
    + apply (bool_decide_unpack _). by vm_compute.
    + apply Hall. apply (bool_decide_unpack _). by vm_compute.
Defined.

(** C5 fails for "every log file": a file whose only line is the record
    the exporter wrote for a dependency with an identifier of 64 KiB
    decodes line by line, but the scanner stops at that line with
    "token too long" and the import returns a read error. *)
Lemma readJSONL_long_line :
  jsonl.files sampleFiles.fsLong !! "long.jsonl" = Some sampleFiles.longLog ∧
  allDecode sampleFiles.unmarshalDependencyLine
    (fileLines sampleFiles.longLog) [sampleFiles.longDep] ∧
  jsonl.readJSONL sampleFiles.unmarshalDependencyLine "long.jsonl" sampleFiles.fsLong
  = Err (Wrapf "error reading file long.jsonl" ErrTooLong) ∧
  ¬ (allDecode sampleFiles.unmarshalDependencyLine
       (fileLines sampleFiles.longLog) [sampleFiles.longDep] →
     jsonl.readJSONL sampleFiles.unmarshalDependencyLine "long.jsonl"
       sampleFiles.fsLong = Ok [sampleFiles.longDep]).
Proof.
  assert (allDecode sampleFiles.unmarshalDependencyLine
            (fileLines sampleFiles.longLog) [sampleFiles.longDep]) as Hall.
  { apply (bool_decide_unpack _). by vm_compute. }
  assert (jsonl.readJSONL sampleFiles.unmarshalDependencyLine "long.jsonl"
            sampleFiles.fsLong
          = Err (Wrapf "error reading file long.jsonl" ErrTooLong)) as Hread.
  { apply (bool_decide_unpack _). by vm_compute. }
  split_and!; [|done..|].
  - apply (bool_decide_unpack _). by vm_compute.
  - intros Hclaim. rewrite Hread in Hclaim. by specialize (Hclaim Hall).
Qed.

(** *** Records read back *)

Section Records.
Import types json.
Context `{!encoding_json}.

(** The members of a record as one list with its first members in
    front. *)
Ltac members_in_front :=
  repeat match goal with
         | |- context [(?x :: ?l) ++ ?r] =>
             change ((x :: l) ++ r) with (x :: (l ++ r))
         | |- context [[] ++ ?r] => change ([] ++ r) with r
         end.

(** The branch of a field function a key selects. *)
Ltac select_field :=
  unfold json.insightField, json.insightSourceField, json.insightThreadField,
    json.dependencyField;
  repeat first
    [ rewrite decide_True by reflexivity
    | rewrite decide_False by (let Hn := fresh in
                               intros Hn; vm_compute in Hn; discriminate) ];
  cbn -[json.unmarshalElements elems json.unmarshalInsightSource
        json.marshalInsightSource].

Lemma unmarshalElements_strings (l : list string) :
  unmarshalElements (JString <$> l) = Ok l.
Proof.
  induction l as [|s l IH]; [done|].
  rewrite fmap_cons. cbn [unmarshalElements unmarshalString mbind result_bind].
  by rewrite IH.
Qed.

Lemma members_cons {A} (f : string → json → A → result A) key j rest v v' R :
  f key j v = Ok v' →
  unmarshalMembers f rest v' = R →
  unmarshalMembers f ((key, j) :: rest) v = R.
Proof. intros Hf <-. simpl. by rewrite Hf. Qed.

(** A string tagged [omitempty]: left out, the field keeps its zero
    value, which is the value written. *)
Lemma members_omitemptyString {A} (f : string → json → A → result A)
    key s rest v v' R :
  (s ≠ "" → f key (JString s) v = Ok v') →
  (s = "" → v = v') →
  unmarshalMembers f rest v' = R →
  unmarshalMembers f (omitemptyString key s ++ rest) v = R.
Proof.
  intros Hset Hzero <-. unfold omitemptyString. case_decide as Hs; simpl.
  - by rewrite (Hzero Hs).
  - by rewrite (Hset Hs).
Qed.

Lemma Some_elems {A} (s : slice A) : len s ≠ 0%nat → Some (elems s) = s.
Proof. by destruct s as [[|x l]|]. Qed.

(** A slice tagged [omitempty], nil or with elements: left out when it
    is nil, and the field keeps its zero value, nil. *)
Lemma members_omitemptyStrings {A} (f : string → json → A → result A)
    key s rest v v' R :
  nilOrPopulated s →
  (len s ≠ 0%nat → f key (JArray (JString <$> elems s)) v = Ok v') →
  (s = None → v = v') →
  unmarshalMembers f rest v' = R →
  unmarshalMembers f (omitemptyStrings key s ++ rest) v = R.
Proof.
  intros Hs Hset Hzero <-. unfold omitemptyStrings.
  destruct s as [[|x l]|].
  - by destruct Hs.
  - rewrite decide_False by done. cbn [app unmarshalMembers].
    by rewrite Hset.
  - simpl. by rewrite Hzero.
Qed.

Lemma unmarshalTime_readsBack t s old :
  formatTime t = Some s → parseTime s = Some t →
  marshalTime t = Ok (JString s) ∧ unmarshalTime (JString s) old = Ok t.
Proof. intros Hf Hp. unfold marshalTime. simpl. by rewrite Hf, Hp. Qed.

Lemma unmarshalDependency_marshal d :
  timeReadsBack (DepCreatedAt d) →
  ∃ j, marshalDependency d = Ok j ∧ unmarshalDependency j zeroDependency = Ok d.
Proof.
  destruct d as [from to type createdAt]. simpl.
  intros (s & Hf & Hp). unfold marshalDependency, marshalTime. simpl.
  rewrite Hf. simpl. eexists. split; [reflexivity|].
  unfold unmarshalDependency, unmarshalObject.
  do 3 (eapply members_cons; [reflexivity|]).
  eapply members_cons; [|reflexivity].
  select_field. by rewrite Hp.
Qed.

Lemma unmarshalInsightThread_marshal t :
  timeReadsBack (ThrCreatedAt t) → timeReadsBack (UpdatedAt t) →
  ∃ j, marshalInsightThread t = Ok j ∧
       unmarshalInsightThread j zeroInsightThread = Ok t.
Proof.
  destruct t as [id title status understanding createdAt updatedAt]. simpl.
  intros (s1 & Hf1 & Hp1) (s2 & Hf2 & Hp2).
  unfold marshalInsightThread, marshalTime. simpl.
  rewrite Hf1, Hf2. simpl. eexists. split; [reflexivity|].
  unfold unmarshalInsightThread, unmarshalObject. members_in_front.
  do 3 (eapply members_cons; [reflexivity|]).
  eapply members_omitemptyString; [intros _; reflexivity|by intros ->|].
  eapply members_cons; [select_field; by rewrite Hp1|].
  eapply members_cons; [select_field; by rewrite Hp2|].
  reflexivity.
Qed.

Lemma unmarshalInsightSource_marshal s :
  nilOrPopulated (Participants s) →
  unmarshalInsightSource (marshalInsightSource s) zeroInsightSource = Ok s.
Proof.
  destruct s as [type ref participants]. intros Hp. simpl in Hp.
  unfold unmarshalInsightSource, unmarshalObject, marshalInsightSource.
  members_in_front. cbn [SourceType Ref Participants].
  eapply members_cons; [reflexivity|].
  eapply members_omitemptyString; [intros _; reflexivity|by intros ->|].
  rewrite <- (app_nil_r (omitemptyStrings _ _)).
  eapply members_omitemptyStrings; [done|..].
  - intros Hlen. select_field. rewrite unmarshalElements_strings.
    cbn [mbind result_bind]. by rewrite Some_elems.
  - by intros ->.
  - reflexivity.
Qed.

Ltac plain_field := eapply members_cons; [select_field; reflexivity|].

Ltac parsed_field Hparse :=
  eapply members_cons; [select_field; rewrite Hparse; reflexivity|].

Ltac optional_string :=
  eapply members_omitemptyString;
    [intros _; select_field; reflexivity | by intros -> |].

Ltac optional_strings Hs :=
  eapply members_omitemptyStrings;
    [ exact Hs
    | intros ?; select_field; rewrite unmarshalElements_strings;
      cbn [mbind result_bind]; rewrite Some_elems by done; reflexivity
    | by intros ->
    | ].

Lemma unmarshalInsight_marshal i :
  nilOrPopulated (Participants (Source i)) →
  nilOrPopulated (EndorsedBy i) →
  nilOrPopulated (Tags i) →
  timeReadsBack (Timestamp i) →
  timeReadsBack (CreatedAt i) →
  floatReadsBack (Confidence i) →
  ∃ j, marshalInsight i = Ok j ∧ unmarshalInsight j zeroInsight = Ok i.
Proof.
  destruct i as [id timestamp content summary type confidence source
                 thread author endorsed tags createdBy createdAt].
  cbn [Source EndorsedBy Tags Timestamp CreatedAt Confidence].
  intros Hparts Hendorsed Htags (s1 & Hf1 & Hp1) (s2 & Hf2 & Hp2) (s3 & Hf3 & Hp3).
  unfold marshalInsight, marshalTime, marshalFloat.
  cbn [ID Timestamp Content Summary Type_ Confidence Source ThreadID AuthorID
       EndorsedBy Tags CreatedBy CreatedAt].
  rewrite Hf1, Hf3, Hf2. cbn [mbind result_bind].
  eexists. split; [reflexivity|].
  unfold unmarshalInsight, unmarshalObject. members_in_front.
  plain_field. parsed_field Hp1. plain_field. plain_field. plain_field.
  parsed_field Hp3.
  eapply members_cons;
    [select_field; rewrite unmarshalInsightSource_marshal by done; reflexivity|].
  optional_string. optional_string.
  optional_strings Hendorsed. optional_strings Htags.
  optional_string. parsed_field Hp2.
  reflexivity.
Qed.
End Records.

(** *** Files read back *)

Section RoundTrip.
Import types json jsonl.
Context `{!encoding_json}.

(** [g x] is what the line written for [x] decodes to. *)
Definition readsBackAs {A} (marshal : A → result json)
    (unmarshal : string → result A) (g : A → A) (x : A) : Prop :=
  ∃ j, marshal x = Ok j ∧ scannable (encodeText j) ∧
       unmarshal (encodeText j) = Ok (g x).

Lemma encodeAll_decodeLines {A} (marshal : A → result json)
    (unmarshal : string → result A) (g : A → A) msg items :
  Forall (readsBackAs marshal unmarshal g) items →
  ∃ text lines,
    encodeAll marshal msg items = (text, None) ∧
    bufio.Scan text = (lines, None) ∧
    ∀ k, decodeLines unmarshal k lines = Ok (g <$> items).
Proof.
  induction 1 as [|x items (j & Hj & Hline & Hback) _
                    (text & lines & Htext & Hscan & Hlines)].
  - exists "", []. by split_and!.
  - exists (encodeText j +:+ newline +:+ text), (encodeText j :: lines).
    split_and!.
    + simpl. by rewrite Hj, Htext.
    + by rewrite Scan_line, Hscan.
    + intros k. simpl.
      rewrite decide_False by (rewrite length_0_empty; by destruct Hline).
      by rewrite Hback, Hlines.
Qed.

Lemma readJSONL_written {A} (unmarshal : string → result A) filePath fs
    text lines items :
  bufio.Scan text = (lines, None) →
  (∀ k, decodeLines unmarshal k lines = Ok items) →
  readJSONL unmarshal filePath
    (mkFS (<[filePath := text]> (files fs)) (canCreate fs)) = Ok items.
Proof.
  intros Hscan Hlines. unfold readJSONL. simpl.
  by rewrite lookup_insert_eq, Hscan, Hlines.
Qed.

Lemma omitemptyStrings_nilIfEmpty key (s : slice string) :
  omitemptyStrings key (nilIfEmpty s) = omitemptyStrings key s.
Proof. by destruct s as [[|x l]|]. Qed.

Lemma nilIfEmpty_nilOrPopulated {A} (s : slice A) : nilOrPopulated (nilIfEmpty s).
Proof. by destruct s as [[|x l]|]. Qed.

Lemma nilIfEmpty_id {A} (s : slice A) : nilOrPopulated s → nilIfEmpty s = s.
Proof. by destruct s as [[|x l]|]. Qed.

Lemma marshalInsight_imported i :
  marshalInsight (importedInsight i) = marshalInsight i.
Proof.
  unfold marshalInsight, marshalInsightSource, importedInsight. simpl.
  by rewrite !omitemptyStrings_nilIfEmpty.
Qed.

Lemma importedInsight_id i : listsNilOrPopulated i → importedInsight i = i.
Proof.
  destruct i as [? ? ? ? ? ? [? ? ?] ? ? ? ? ? ?]. intros (H1 & H2 & H3).
  unfold importedInsight. simpl in *. by rewrite !nilIfEmpty_id.
Qed.

Lemma exportableInsight_readsBack i :
  exportableInsight i →
  readsBackAs marshalInsight
    (λ line, Unmarshal unmarshalInsight line zeroInsight) importedInsight i.
Proof.
  intros (Ht & Hc & Hf & Hdoc).
  destruct (unmarshalInsight_marshal (importedInsight i))
    as (j & Hj & Hback);
    [apply nilIfEmpty_nilOrPopulated..|done|done|done|].
  rewrite marshalInsight_imported in Hj.
  destruct (Hdoc j Hj) as [Hdecode Hline].
  exists j. split_and!; [done..|]. unfold Unmarshal. by rewrite Hdecode.
Qed.

Lemma exportableThread_readsBack t :
  exportableThread t →
  readsBackAs marshalInsightThread
    (λ line, Unmarshal unmarshalInsightThread line zeroInsightThread) id t.
Proof.
  intros (Hc & Hu & Hdoc).
  destruct (unmarshalInsightThread_marshal t) as (j & Hj & Hback); [done..|].
  destruct (Hdoc j Hj) as [Hdecode Hline].
  exists j. split_and!; [done..|]. unfold Unmarshal. by rewrite Hdecode.
Qed.

Lemma exportableDependency_readsBack d :
  exportableDependency d →
  readsBackAs marshalDependency
    (λ line, Unmarshal unmarshalDependency line zeroDependency) id d.
Proof.
  intros (Hc & Hdoc).
  destruct (unmarshalDependency_marshal d) as (j & Hj & Hback); [done|].
  destruct (Hdoc j Hj) as [Hdecode Hline].
  exists j. split_and!; [done..|]. unfold Unmarshal. by rewrite Hdecode.
Qed.

Lemma ExportInsights_ImportInsights fs filePath insights :
  canCreate fs filePath = true →
  Forall exportableInsight insights →
  ∃ fs', ExportInsights insights filePath fs = (fs', Ok ()) ∧
         ImportInsights filePath fs' = Ok (importedInsight <$> insights).
Proof.
  intros Hcreate Hall.
  destruct (encodeAll_decodeLines marshalInsight
              (λ line, Unmarshal unmarshalInsight line zeroInsight)
              importedInsight "failed to encode insight" insights)
    as (text & lines & Htext & Hscan & Hlines).
  { eapply Forall_impl; [done|]. apply exportableInsight_readsBack. }
  eexists. unfold ExportInsights, writeJSONL. rewrite Hcreate, Htext. simpl.
  split; [reflexivity|].
  unfold ImportInsights. by erewrite readJSONL_written.
Qed.

Lemma ExportThreads_ImportThreads fs filePath threads :
  canCreate fs filePath = true →
  Forall exportableThread threads →
  ∃ fs', ExportThreads threads filePath fs = (fs', Ok ()) ∧
         ImportThreads filePath fs' = Ok threads.
Proof.
  intros Hcreate Hall.
  destruct (encodeAll_decodeLines marshalInsightThread
              (λ line, Unmarshal unmarshalInsightThread line zeroInsightThread)
              id "failed to encode thread" threads)
    as (text & lines & Htext & Hscan & Hlines).
  { eapply Forall_impl; [done|]. apply exportableThread_readsBack. }
  rewrite list_fmap_id in Hlines.
  eexists. unfold ExportThreads, writeJSONL. rewrite Hcreate, Htext. simpl.
  split; [reflexivity|].
  unfold ImportThreads. by erewrite readJSONL_written.
Qed.

Lemma ExportDependencies_ImportDependencies fs filePath deps :
  canCreate fs filePath = true →
  Forall exportableDependency deps →
  ∃ fs', ExportDependencies deps filePath fs = (fs', Ok ()) ∧
         ImportDependencies filePath fs' = Ok deps.
Proof.
  intros Hcreate Hall.
  destruct (encodeAll_decodeLines marshalDependency
              (λ line, Unmarshal unmarshalDependency line zeroDependency)
              id "failed to encode dependency" deps)
    as (text & lines & Htext & Hscan & Hlines).
  { eapply Forall_impl; [done|]. apply exportableDependency_readsBack. }
  rewrite list_fmap_id in Hlines.
  eexists. unfold ExportDependencies, writeJSONL. rewrite Hcreate, Htext. simpl.
  split; [reflexivity|].
  unfold ImportDependencies. by erewrite readJSONL_written.
Qed.
End RoundTrip.

(** C2, as the code has it: for insights, threads and dependencies that
    the libraries write and read back (each record a line the scanner
    takes), importing the file written by the export returns the values
    exported, in their order, with every empty list of an insight
    replaced by nil; the values themselves when the lists of the
    insights are nil or hold elements. An optional text left empty is
    written as absent and read back as the empty string. *)
Theorem export_import_round_trip `{!encoding_json} (fs : jsonl.FS)
    (filePath : string) :
  jsonl.canCreate fs filePath = true →
  (∀ insights,
     Forall exportableInsight insights →
     ∃ fs', jsonl.ExportInsights insights filePath fs = (fs', Ok ()) ∧
            jsonl.ImportInsights filePath fs' = Ok (importedInsight <$> insights) ∧
            (Forall listsNilOrPopulated insights →
             jsonl.ImportInsights filePath fs' = Ok insights)) ∧
  (∀ threads,
     Forall exportableThread threads →
     ∃ fs', jsonl.ExportThreads threads filePath fs = (fs', Ok ()) ∧
            jsonl.ImportThreads filePath fs' = Ok threads) ∧
  (∀ deps,
     Forall exportableDependency deps →
     ∃ fs', jsonl.ExportDependencies deps filePath fs = (fs', Ok ()) ∧
            jsonl.ImportDependencies filePath fs' = Ok deps).
Proof.
  intros Hcreate. split_and!.
  - intros insights Hall.
    destruct (ExportInsights_ImportInsights fs filePath insights Hcreate Hall)
      as (fs' & Hexport & Himport).
    exists fs'. split_and!; [done..|].
    intros Hlists. rewrite Himport. f_equal.
    clear Hall Hexport Himport.
    induction Hlists as [|i l Hi _ IH]; [done|].
    rewrite fmap_cons. f_equal; [by apply importedInsight_id | exact IH].
  - intros threads. by apply ExportThreads_ImportThreads.
  - intros deps. by apply ExportDependencies_ImportDependencies.
Qed.

Section SampleRoundTrip.
#[local] Existing Instance sampleJSON.lib.

Ltac reads_back :=
  eexists; split; [vm_compute; reflexivity|]; vm_compute; reflexivity.

Ltac document_reads_back :=
  let j := fresh "j" in
  let Hj := fresh "Hj" in
  intros j Hj; vm_compute in Hj; injection Hj as <-;
  split; [vm_compute; reflexivity | apply (bool_decide_unpack _); by vm_compute].

Ltac exportable :=
  repeat (apply Forall_cons_2;
          [hnf; split_and!;
           lazymatch goal with
           | |- ∀ _, _ => document_reads_back
           | |- _ => reads_back
           end |]);
  apply Forall_nil_2.

Lemma export_import_round_trip_witness :
  (∃ fs', jsonl.ExportInsights [sampleFiles.fullInsight; sampleFiles.bareInsight]
            "insights.jsonl" sampleFiles.emptyFS = (fs', Ok ()) ∧
          jsonl.ImportInsights "insights.jsonl" fs'
          = Ok [sampleFiles.fullInsight; sampleFiles.bareInsight]) ∧
  (∃ fs', jsonl.ExportThreads [sampleFiles.fullThread; sampleFiles.bareThread]
            "threads.jsonl" sampleFiles.emptyFS = (fs', Ok ()) ∧
          jsonl.ImportThreads "threads.jsonl" fs'
          = Ok [sampleFiles.fullThread; sampleFiles.bareThread]) ∧
  (∃ fs', jsonl.ExportDependencies [sampleFiles.dep1; sampleFiles.dep2]
            "deps.jsonl" sampleFiles.emptyFS = (fs', Ok ()) ∧
          jsonl.ImportDependencies "deps.jsonl" fs'
          = Ok [sampleFiles.dep1; sampleFiles.dep2]).
Proof.
  split_and!.
  - destruct (export_import_round_trip sampleFiles.emptyFS "insights.jsonl" eq_refl)
      as (Hinsights & _ & _).
    destruct (Hinsights [sampleFiles.fullInsight; sampleFiles.bareInsight])
      as (fs' & Hexport & _ & Himport); [exportable|].
    exists fs'. split; [exact Hexport|]. apply Himport.
    repeat (apply Forall_cons_2; [hnf; split_and!; discriminate|]).
    apply Forall_nil_2.
  - destruct (export_import_round_trip sampleFiles.emptyFS "threads.jsonl" eq_refl)
      as (_ & Hthreads & _).
    apply Hthreads. exportable.
  - destruct (export_import_round_trip sampleFiles.emptyFS "deps.jsonl" eq_refl)
      as (_ & _ & Hdeps).
    apply Hdeps. exportable.
Defined.

(** C2 fails as worded: an insight whose list of tags is empty but not
    nil is exported without the field and comes back with the nil list,
    so the value imported is not the value exported; and a record
    without an author and one with the author set to the empty string
    decode to the same insight. *)
Lemma empty_list_comes_back_nil :
  let written :=
    jsonl.ExportInsights [sampleFiles.emptyTags] "insights.jsonl"
      sampleFiles.emptyFS in
  written.2 = Ok () ∧
  jsonl.ImportInsights "insights.jsonl" written.1 = Ok [sampleFiles.bareInsight] ∧
  jsonl.ImportInsights "insights.jsonl" written.1 ≠ Ok [sampleFiles.emptyTags] ∧
  json.Unmarshal json.unmarshalInsight
    (encodeText (JObject sampleFiles.emptyAuthorRecord)) json.zeroInsight
  = Ok sampleFiles.bareInsight ∧
  json.Unmarshal json.unmarshalInsight
    (encodeText (JObject sampleFiles.bareRecord)) json.zeroInsight
  = Ok sampleFiles.bareInsight.
Proof.
  intros written. subst written.
  split_and!; try (vm_compute; reflexivity).
  apply (bool_decide_unpack _). by vm_compute.
Qed.
End SampleRoundTrip.

(** ** The store, row by row *)

Section StoreRows.
Import types store.


Lemma nullable_not_empty s : nullable s ≠ Some "".
Proof. unfold nullable. case_decide; congruence. Qed.


Lemma GetInsight_frame id db db' :
  filter (λ r, c_id r = id) (insights db') = filter (λ r, c_id r = id) (insights db) →
  GetInsight id db' = GetInsight id db.
Proof. unfold GetInsight. by intros ->. Qed.





Lemma ids_replace (row : insightRow) (rows : list insightRow) :
  c_id <$> ((λ r, if decide (c_id r = c_id row) then row else r) <$> rows)
  = c_id <$> rows.
Proof.
  induction rows as [|r rows IH]; [done|].
  rewrite !fmap_cons, IH. f_equal. by case_decide.
Qed.

Lemma filter_id_deleted id (rows : list insightRow) :
  filter (λ r, c_id r = id) (filter (λ r, ¬ c_id r = id) rows) = [].
Proof.
  induction rows as [|r rows IH]; [done|].
  rewrite filter_cons. case_decide; [|done].
  by rewrite filter_cons_False.
Qed.

Lemma filter_id_delete id id' (rows : list insightRow) :
  id' ≠ id →
  filter (λ r, c_id r = id') (filter (λ r, ¬ c_id r = id) rows)
  = filter (λ r, c_id r = id') rows.
Proof.
  intros Hne. induction rows as [|r rows IH]; [done|].
  rewrite !filter_cons. destruct (decide (c_id r = id)) as [Heq|Hneq].
  - rewrite decide_False by auto. rewrite decide_False by congruence. done.
  - rewrite decide_True by done. rewrite filter_cons, IH. done.
Qed.


Lemma DeleteInsight_Ok_inv id db db1 :
  DeleteInsight id db = (db1, Ok ()) →
  db1 = mkDB (threads db) (filter (λ r, ¬ c_id r = id) (insights db))
          (dependencies db) (config db).
Proof.
  unfold DeleteInsight, deleteInsight. intros H.
  repeat case_decide; by simplify_eq/=.
Qed.

(** *** Threads *)



Definition updatedThread (thread r : InsightThread) : InsightThread :=
  mkInsightThread (ThrID r) (Title thread) (Status thread)
    (CurrentUnderstanding thread) (ThrCreatedAt r) (UpdatedAt thread).



Lemma thread_ids_replace (thread : InsightThread) (rows : list InsightThread) :
  ThrID <$> ((λ r, if decide (ThrID r = ThrID thread)
                   then updatedThread thread r else r) <$> rows)
  = ThrID <$> rows.
Proof.
  induction rows as [|r rows IH]; [done|].
  rewrite !fmap_cons, IH. f_equal. by case_decide.
Qed.

Lemma CreateThread_Ok_inv thread db db1 :
  CreateThread thread db = (db1, Ok ()) →
  ¬ hasThread (ThrID thread) db ∧
  db1 = mkDB (threads db ++ [thread]) (insights db) (dependencies db) (config db).
Proof.
  unfold CreateThread, insertThread. intros H.
  repeat case_decide; by simplify_eq/=.
Qed.

Lemma UpdateThread_eq thread db :
  UpdateThread thread db =
    (mkDB ((λ r, if decide (ThrID r = ThrID thread)
                 then updatedThread thread r else r) <$> threads db)
          (insights db) (dependencies db) (config db),
     if decide (filter (λ t, ThrID t = ThrID thread) (threads db) = [])
     then Err (ThreadNotFound (ThrID thread)) else Ok ()).
Proof.
  unfold UpdateThread, updateThread.
  destruct (filter (λ t, ThrID t = ThrID thread) (threads db)) eqn:Hf; simpl;
    repeat case_decide; done.
Qed.


#[global] Instance updatedAtDesc_total : Total updatedAtDesc.
Proof. intros a b. unfold updatedAtDesc. lia. Qed.

#[global] Instance updatedAtDesc_trans : Transitive updatedAtDesc.
Proof. intros a b c. unfold updatedAtDesc. lia. Qed.

(** *** Configuration *)

Lemma selectConfig_absent key (rows : list (string * string)) :
  key ∉ fst <$> rows → filter (λ kv : string * string, kv.1 = key) rows = [].
Proof.
  induction rows as [|r rows IH]; [done|].
  rewrite fmap_cons, not_elem_of_cons. intros [Hne Hnin].
  rewrite filter_cons_False by congruence. auto.
Qed.

Lemma selectConfig_present key (rows : list (string * string)) :
  key ∈ fst <$> rows → filter (λ kv : string * string, kv.1 = key) rows ≠ [].
Proof.
  intros (kv & -> & Hin)%list_elem_of_fmap Hnil.
  assert (kv ∈ filter (λ kv' : string * string, kv'.1 = kv.1) rows) as Ht
    by by apply list_elem_of_filter.
  rewrite Hnil in Ht. by apply not_elem_of_nil in Ht.
Qed.

Lemma selectConfig_replaced key value (rows : list (string * string)) :
  filter (λ kv : string * string, kv.1 = key)
    ((λ kv : string * string, if decide (kv.1 = key) then (kv.1, value) else kv)
       <$> rows)
  = (λ kv : string * string, (kv.1, value))
      <$> filter (λ kv : string * string, kv.1 = key) rows.
Proof.
  induction rows as [|r rows IH]; [done|].
  rewrite fmap_cons, !filter_cons, IH.
  destruct (decide (r.1 = key)) as [Heq|Hneq]; simpl.
  - by rewrite decide_True.
  - by rewrite decide_False.
Qed.

Lemma selectConfig_replace key key' value (rows : list (string * string)) :
  key' ≠ key →
  filter (λ kv : string * string, kv.1 = key')
    ((λ kv : string * string, if decide (kv.1 = key) then (kv.1, value) else kv)
       <$> rows)
  = filter (λ kv : string * string, kv.1 = key') rows.
Proof.
  intros Hne. induction rows as [|r rows IH]; [done|].
  rewrite fmap_cons, !filter_cons, IH.
  destruct (decide (r.1 = key)) as [Heq|Hneq]; simpl.
  - rewrite !decide_False by congruence. done.
  - done.
Qed.

Lemma config_keys_replace key value (rows : list (string * string)) :
  fst <$> ((λ kv : string * string,
              if decide (kv.1 = key) then (kv.1, value) else kv) <$> rows)
  = fst <$> rows.
Proof.
  induction rows as [|r rows IH]; [done|].
  rewrite !fmap_cons, IH. f_equal. by case_decide.
Qed.
End StoreRows.

Section StoreLists.
Import types store.




Lemma Forall_filter_keep {A} (P Q : A → Prop) `{!∀ x, Decision (Q x)} (l : list A) :
  Forall P l → Forall P (filter Q l).
Proof.
  rewrite !Forall_forall. intros Hall x [_ Hx]%list_elem_of_filter. auto.
Qed.




(** *** The state the store keeps *)

Lemma hasThread_threads db db' :
  threads db' = threads db → ∀ ref, threadRefOk ref db → threadRefOk ref db'.
Proof. intros Heq [t|]; simpl; [|done]. unfold hasThread. by rewrite Heq. Qed.

Lemma consistent_insights db rows :
  consistent db →
  NoDup (c_id <$> rows) →
  Forall (λ r, threadRefOk (c_thread_id r) db) rows →
  Forall (λ r, c_thread_id r ≠ Some "" ∧ c_author_id r ≠ Some "") rows →
  consistent (mkDB (threads db) rows (dependencies db) (config db)).
Proof.
  intros (_ & Ht & Hd & Hc & _ & _) Hids Hfk Hnull.
  split_and!; simpl; try done.
Qed.

Lemma insightToRow_nullable insight :
  c_thread_id (insightToRow insight) ≠ Some "" ∧
  c_author_id (insightToRow insight) ≠ Some "".
Proof. split; apply nullable_not_empty. Qed.

Lemma CreateInsight_consistent insight db :
  consistent db → consistent (CreateInsight insight db).1.
Proof.
  intros Hdb. unfold CreateInsight, insertInsight.
  repeat case_decide; simpl; try done.
  destruct Hdb as (Hi & Ht & Hd & Hc & Hfk & Hnull).
  apply consistent_insights; [done|..].
  - rewrite fmap_app. apply NoDup_app. split_and!; [done| |apply NoDup_singleton].
    intros x Hx. simpl. rewrite list_elem_of_singleton. intros ->. done.
  - apply Forall_app. split; [done|]. by constructor.
  - apply Forall_app. split; [done|]. constructor; [|done].
    apply insightToRow_nullable.
Qed.

Lemma UpdateInsight_consistent insight db :
  consistent db → consistent (UpdateInsight insight db).1.
Proof.
  intros Hdb.
  destruct (decide (hasInsight (ID insight) db)) as [Hin|Hout];
    [|by rewrite UpdateInsight_absent].
  unfold UpdateInsight, updateInsight.
  change (c_id (insightToRow insight)) with (ID insight).
  destruct (decide (filter (λ r, c_id r = ID insight) (insights db) = []))
    as [Hnil|Hhit].
  { unfold hasInsight in Hin.
    apply list_elem_of_fmap in Hin as (r & Hid & Hr).
    assert (r ∈ filter (λ r, c_id r = ID insight) (insights db)) as Hf
      by by apply list_elem_of_filter.
    rewrite Hnil in Hf. by apply not_elem_of_nil in Hf. }
  assert (length (filter (λ r, c_id r = ID insight) (insights db)) ≠ 0%nat)
    as Hlen by by destruct (filter _ (insights db)).
  case_decide as Hfk; simpl; [|done].
  rewrite (decide_False (P := length _ = 0%nat)) by done. simpl.
  destruct Hfk as [?|Hfk]; [done|].
  pose proof Hdb as (Hi & Ht & Hd & Hc & Hrefs & Hnull).
  apply consistent_insights; [done|..].
  - pose proof (ids_replace (insightToRow insight) (insights db)) as Hids.
    simpl in Hids. by rewrite Hids.
  - apply Forall_fmap. eapply Forall_impl; [exact Hrefs|].
    intros r Hr. simpl. by case_decide.
  - apply Forall_fmap. eapply Forall_impl; [exact Hnull|].
    intros r Hr. simpl. case_decide; [apply insightToRow_nullable|done].
Qed.

Lemma DeleteInsight_consistent id db :
  consistent db → consistent (DeleteInsight id db).1.
Proof.
  intros Hdb. unfold DeleteInsight, deleteInsight.
  assert (consistent (mkDB (threads db) (filter (λ r, ¬ c_id r = id) (insights db))
                        (dependencies db) (config db))) as Hnew.
  { pose proof Hdb as (Hi & Ht & Hd & Hc & Hrefs & Hnull).
    apply consistent_insights; [done|..].
    - apply (sublist_NoDup _ (c_id <$> insights db)); [done|].
      apply fmap_sublist, sublist_filter.
    - by apply Forall_filter_keep.
    - by apply Forall_filter_keep. }
  by case_decide.
Qed.

Lemma CreateThread_consistent thread db :
  consistent db → consistent (CreateThread thread db).1.
Proof.
  intros Hdb. unfold CreateThread, insertThread.
  case_decide as Hin; simpl; [done|].
  destruct Hdb as (Hi & Ht & Hd & Hc & Hrefs & Hnull).
  split_and!; simpl; try done.
  - rewrite fmap_app. apply NoDup_app. split_and!; [done| |apply NoDup_singleton].
    intros x Hx. simpl. rewrite list_elem_of_singleton. intros ->. done.
  - eapply Forall_impl; [exact Hrefs|]. intros r. simpl.
    destruct (c_thread_id r) as [t|]; simpl; [|done].
    unfold hasThread. simpl. rewrite fmap_app. set_solver.
Qed.

Lemma UpdateThread_consistent thread db :
  consistent db → consistent (UpdateThread thread db).1.
Proof.
  intros Hdb. rewrite UpdateThread_eq. simpl.
  destruct Hdb as (Hi & Ht & Hd & Hc & Hrefs & Hnull).
  split_and!; simpl; try done.
  - by rewrite thread_ids_replace.
  - eapply Forall_impl; [exact Hrefs|]. intros r. simpl.
    destruct (c_thread_id r) as [t|]; simpl; [|done].
    unfold hasThread. simpl. by rewrite thread_ids_replace.
Qed.

Lemma hasEdge_edgeKey dep db :
  hasEdge dep db ↔ edgeKey dep ∈ edgeKey <$> dependencies db.
Proof.
  unfold hasEdge. rewrite Exists_exists, list_elem_of_fmap. split.
  - intros (e & He & H1 & H2 & H3). exists e. split; [|done].
    unfold edgeKey. congruence.
  - intros (e & Hk & He). exists e. split; [done|].
    unfold edgeKey in Hk. by simplify_eq.
Qed.

Lemma AddDependency_consistent dep db :
  consistent db → consistent (AddDependency dep db).1.
Proof.
  intros Hdb. destruct (decide (hasEdge dep db)) as [Hin|Hout].
  - by rewrite AddDependency_present.
  - rewrite AddDependency_absent by done. simpl.
    destruct Hdb as (Hi & Ht & Hd & Hc & Hrefs & Hnull).
    split_and!; simpl; try done.
    rewrite fmap_app. apply NoDup_app. split_and!; [done| |apply NoDup_singleton].
    intros x Hx. simpl. rewrite list_elem_of_singleton. intros ->.
    by apply Hout, hasEdge_edgeKey.
Qed.

Lemma SetConfig_consistent key value db :
  consistent db → consistent (SetConfig key value db).1.
Proof.
  intros Hdb. unfold SetConfig, upsertConfig. simpl.
  destruct Hdb as (Hi & Ht & Hd & Hc & Hrefs & Hnull).
  split_and!; simpl; try done.
  case_decide as Hin.
  - by rewrite config_keys_replace.
  - rewrite fmap_app. apply NoDup_app. split_and!; [done| |apply NoDup_singleton].
    intros x Hx. simpl. rewrite list_elem_of_singleton. intros ->. done.
Qed.
End StoreLists.







(** X6: after [DeleteInsight] succeeded the insight is not found, every
    other insight is read as before, and no dependency is removed: the
    edges from and to the deleted insight are still listed. *)
Theorem DeleteInsight_keeps_edges (db db' : store.DB) (id : string) :
  store.DeleteInsight id db = (db', Ok ()) →
  store.GetInsight id db' = Err (NotFound id) ∧
  (∀ id', id' ≠ id → store.GetInsight id' db' = store.GetInsight id' db) ∧
  (∀ x, store.GetDependencies x db' = store.GetDependencies x db ∧
        store.GetDependents x db' = store.GetDependents x db).
Proof.
  intros ->%DeleteInsight_Ok_inv. split_and!.
  - unfold store.GetInsight. simpl. by rewrite filter_id_deleted.
  - intros id' Hne. apply GetInsight_frame. simpl. by apply filter_id_delete.
  - done.
Qed.

Lemma DeleteInsight_keeps_edges_witness :
  let db' := (store.DeleteInsight "ins-000b" sample.dbTrace).1 in
  store.GetInsight "ins-000b" db' = Err (NotFound "ins-000b") ∧
  store.GetInsight "ins-000a" db' = Ok sample.insA ∧
  store.GetDependencies "ins-000b" db' = Ok [sample.depBX] ∧
  store.GetDependents "ins-000b" db' = Ok [sample.depAB].
Proof.
  intros db'.
  destruct (DeleteInsight_keeps_edges sample.dbTrace db' "ins-000b" eq_refl)
    as (Hget & Hframe & Hdeps).
  split_and!; [exact Hget|by rewrite Hframe|..].
  - by rewrite (proj1 (Hdeps _)).
  - by rewrite (proj2 (Hdeps _)).
Defined.








(** X11: every operation of the store that writes, whether it succeeds
    or fails, leaves the database as the store keeps it: identifiers of
    insights and of threads, keys of dependencies and of the
    configuration are unique, every thread named by an insight exists,
    and no nullable column holds the empty string. *)
Theorem store_keeps_consistent (db : store.DB) :
  consistent db →
  (∀ insight, consistent (store.CreateInsight insight db).1) ∧
  (∀ insight, consistent (store.UpdateInsight insight db).1) ∧
  (∀ id, consistent (store.DeleteInsight id db).1) ∧
  (∀ thread, consistent (store.CreateThread thread db).1) ∧
  (∀ thread, consistent (store.UpdateThread thread db).1) ∧
  (∀ dep, consistent (store.AddDependency dep db).1) ∧
  (∀ key value, consistent (store.SetConfig key value db).1).
Proof.
  intros Hdb. split_and!; intros.
  - by apply CreateInsight_consistent.
  - by apply UpdateInsight_consistent.
  - by apply DeleteInsight_consistent.
  - by apply CreateThread_consistent.
  - by apply UpdateThread_consistent.
  - by apply AddDependency_consistent.
  - by apply SetConfig_consistent.
Qed.

Lemma store_keeps_consistent_witness :
  consistent sample.emptyDB ∧
  consistent (store.CreateInsight sampleStore.insLost sample.emptyDB).1 ∧
  consistent (store.UpdateInsight sampleStore.insT' sampleStore.dbAuthors).1.
Proof.
  assert (consistent sample.emptyDB) as Hempty.
  { apply (bool_decide_unpack _). by vm_compute. }
  assert (consistent sampleStore.dbAuthors) as Hdb.
  { apply (bool_decide_unpack _). by vm_compute. }
  split_and!; [done|..].
  - apply (proj1 (store_keeps_consistent sample.emptyDB Hempty)).
  - apply (proj1 (proj2 (store_keeps_consistent sampleStore.dbAuthors Hdb))).
Defined.

(** X12: [SetConfig] always succeeds; afterwards [GetConfig] returns
    the value set for the key and what it returned before for every
    other key. A key that is not in the table reads as the empty
    string, without an error. *)
Theorem SetConfig_GetConfig (db : store.DB) (key value : string) :
  ∃ db', store.SetConfig key value db = (db', Ok ()) ∧
         store.GetConfig key db' = Ok value ∧
         (∀ k, k ≠ key → store.GetConfig k db' = store.GetConfig k db) ∧
         (∀ k, k ∉ fst <$> store.config db' → store.GetConfig k db' = Ok "") ∧
         store.insights db' = store.insights db ∧
         store.threads db' = store.threads db ∧
         store.dependencies db' = store.dependencies db.
Proof.
  eexists. split; [reflexivity|]. unfold store.GetConfig, store.selectConfig.
  simpl. split_and!; try done.
  - case_decide as Hin.
    + rewrite selectConfig_replaced.
      pose proof (selectConfig_present _ _ Hin) as Hne.
      by destruct (filter _ (store.config db)).
    + rewrite filter_app, selectConfig_absent by done. simpl.
      by rewrite filter_cons_True.
  - intros k Hne. case_decide as Hin.
    + by rewrite selectConfig_replace.
    + rewrite filter_app, filter_cons_False, filter_nil, app_nil_r; [done|].
      simpl. congruence.
  - intros k Hk. by rewrite selectConfig_absent.
Qed.



(** ** What the migrator leaves behind *)

Section MigrationsKeep.
Import migrations.

(** [db'] has every table of [db], with the columns of [db] first and
    maybe more after them, and every index and trigger of [db] as it
    was. *)
Definition keeps (db db' : Schema) : Prop :=
  (∀ k t, tables db !! k = Some t →
     ∃ t', tables db' !! k = Some t' ∧ module t' = module t ∧
           columns t `prefix_of` columns t') ∧
  indexes db ⊆ indexes db' ∧
  triggers db ⊆ triggers db'.

Lemma keeps_refl db : keeps db db.
Proof. split_and!; [|done..]. intros k t Ht. by exists t. Qed.

Lemma keeps_trans db1 db2 db3 : keeps db1 db2 → keeps db2 db3 → keeps db1 db3.
Proof.
  intros (T1 & I1 & G1) (T2 & I2 & G2). split_and!; [|by etrans..].
  intros k t Ht.
  destruct (T1 k t Ht) as (t' & Ht' & Hm' & Hc').
  destruct (T2 k t' Ht') as (t'' & Ht'' & Hm'' & Hc'').
  exists t''. split_and!; [done|congruence|by etrans].
Qed.

Lemma createTable_keeps name def db db' :
  createTable name def db = Ok db' → keeps db db'.
Proof.
  unfold createTable. destruct (tables db !! fold name) as [t|] eqn:Ht.
  - intros [= <-]. apply keeps_refl.
  - case_decide; [done|]. intros [= <-]. split_and!; simpl; [|done..].
    intros k t Hk. exists t. split_and!; [|done..].
    rewrite lookup_insert_ne; [done|]. congruence.
Qed.

Lemma Exec_keeps s db db' : Exec s db = Ok db' → keeps db db'.
Proof.
  destruct s as [name cols|name table cols|name modname cols|name table|table col];
    simpl.
  - apply createTable_keeps.
  - destruct (tables db !! fold table) as [t|] eqn:Ht; [|done].
    repeat case_decide; intros; simplify_eq; [apply keeps_refl|].
    split_and!; simpl; [|by apply insert_subseteq, eq_None_not_Some|done].
    intros k t' Hk. by exists t'.
  - apply createTable_keeps.
  - destruct (tables db !! fold table) as [t|] eqn:Ht; [|done].
    repeat case_decide; intros; simplify_eq; [apply keeps_refl|].
    split_and!; simpl; [|done|by apply insert_subseteq, eq_None_not_Some].
    intros k t' Hk. by exists t'.
  - destruct (tables db !! fold table) as [t|] eqn:Ht; [|done].
    repeat case_decide; intros; simplify_eq.
    split_and!; simpl; [|done..].
    intros k t' Hk. destruct (decide (fold table = k)) as [<-|Hne].
    + rewrite lookup_insert_eq. simplify_eq. eexists.
      split_and!; [done..|]. simpl. by apply prefix_app_r.
    + rewrite lookup_insert_ne by done. by exists t'.
Qed.

(** Code on the database handle that only adds to the schema, whether
    it succeeds or fails. *)
Definition keeping {A} (m : M A) : Prop :=
  ∀ db r db', m db = (r, db') → keeps db db'.

Lemma keeping_exec s : keeping (exec s).
Proof.
  intros db r db'. unfold exec.
  destruct (Exec s db) as [db1|e] eqn:HE; intros [= <- <-].
  - by apply Exec_keeps in HE.
  - apply keeps_refl.
Qed.

Lemma keeping_queryCount table col : keeping (queryCount table col).
Proof. intros db r db' [= <- <-]. apply keeps_refl. Qed.

Lemma keeping_ret {A} (a : A) : keeping (mret a : M A).
Proof. intros db r db' [= <- <-]. apply keeps_refl. Qed.

Lemma keeping_orWrap {A} msg (m : M A) : keeping m → keeping (orWrap msg m).
Proof.
  intros Hm db r db'. unfold orWrap.
  destruct (m db) as [[a|e] db1] eqn:Hrun; intros [= <- <-]; by eapply Hm.
Qed.

Lemma keeping_bind {A B} (m : M A) (k : A → M B) :
  keeping m → (∀ a, keeping (k a)) → keeping (a ← m; k a).
Proof.
  intros Hm Hk db r db'. unfold mbind, M_bind.
  destruct (m db) as [[a|e] db1] eqn:Hrun.
  - intros Hrun'. eapply keeps_trans; [by eapply Hm|by eapply Hk].
  - intros [= <- <-]. by eapply Hm.
Qed.

Lemma keeping_forEach {A} (f : A → M ()) (l : list A) :
  Forall (λ x, keeping (f x)) l → keeping (forEach f l).
Proof.
  induction 1 as [|x l Hx _ IH]; simpl.
  - apply keeping_ret.
  - apply keeping_bind; [done|]. by intros [].
Qed.

Lemma migrateInitialSchema_keeping : keeping migrateInitialSchema.
Proof.
  unfold migrateInitialSchema.
  do 3 (apply keeping_bind; [apply keeping_orWrap, keeping_exec|intros []]).
  apply keeping_forEach, Forall_forall. intros idx _.
  apply keeping_orWrap, keeping_exec.
Qed.

Lemma migrateInsightsAuthorID_keeping : keeping migrateInsightsAuthorID.
Proof.
  unfold migrateInsightsAuthorID.
  apply keeping_bind; [apply keeping_orWrap, keeping_queryCount|].
  intros count. case_decide; [apply keeping_ret|].
  apply keeping_bind; [apply keeping_orWrap, keeping_exec|intros []].
  apply keeping_orWrap, keeping_exec.
Qed.

Lemma migrateInsightsEndorsedBy_keeping : keeping migrateInsightsEndorsedBy.
Proof.
  unfold migrateInsightsEndorsedBy.
  apply keeping_bind; [apply keeping_orWrap, keeping_queryCount|].
  intros count. case_decide; [apply keeping_ret|].
  apply keeping_orWrap, keeping_exec.
Qed.

Lemma migrateConfigTable_keeping : keeping migrateConfigTable.
Proof. apply keeping_orWrap, keeping_exec. Qed.

Lemma RunMigrations_keeping : keeping RunMigrations.
Proof.
  unfold RunMigrations, migrationsList. apply keeping_forEach.
  repeat apply Forall_cons_2; [..|apply Forall_nil_2]; apply keeping_orWrap.
  - apply migrateInitialSchema_keeping.
  - apply migrateInsightsAuthorID_keeping.
  - apply migrateInsightsEndorsedBy_keeping.
  - apply migrateConfigTable_keeping.
Qed.

(** *** What a successful run establishes *)

(** The tables, indexes and triggers of the first migration are in
    place. *)
Definition initialSchemaSettled (db : Schema) : Prop :=
  settled (CreateTableIfNotExists "threads" []) db ∧
  settled (CreateTableIfNotExists "insights" []) db ∧
  settled (CreateTableIfNotExists "dependencies" []) db ∧
  Forall (λ idx, settled idx db) initialIndexes.

#[local] Instance wellNamed_decision s : Decision (wellNamed s).
Proof. destruct s; simpl; apply _. Defined.

Ltac settles_statement :=
  apply idem_orWrap, idem_exec;
  [ intros ??; discriminate | apply (bool_decide_unpack _); by vm_compute ].

Lemma migrateInitialSchema_settles : idem initialSchemaSettled migrateInitialSchema.
Proof.
  unfold migrateInitialSchema.
  eapply idem_weaken; [|do 3 (apply idem_bind; [settles_statement|]);
                         apply (idem_forEach (λ idx, settled idx));
                         unfold initialIndexes;
                         repeat (constructor; [settles_statement|]); constructor].
  intros db. unfold initialSchemaSettled. simpl. naive_solver.
Qed.

(** What the four migrations establish. *)
Definition migrated (db : Schema) : Prop :=
  initialSchemaSettled db ∧
  columnPresent "insights" "author_id" db ∧
  columnPresent "insights" "endorsed_by" db ∧
  settled (CreateTableIfNotExists "config" []) db.

Lemma RunMigrations_settles : idem migrated RunMigrations.
Proof.
  unfold RunMigrations, migrationsList. simpl.
  eapply idem_weaken;
    [|apply idem_bind; [apply idem_orWrap, migrateInitialSchema_settles|];
      apply idem_bind;
        [apply idem_orWrap; unfold migrateInsightsAuthorID;
         eapply idem_addColumn; settles_statement|];
      apply idem_bind;
        [apply idem_orWrap; unfold migrateInsightsEndorsedBy;
         apply idem_addColumn_only|];
      apply idem_bind;
        [apply idem_orWrap; unfold migrateConfigTable; settles_statement|];
      apply idem_ret].
  intros db. unfold migrated. simpl. naive_solver.
Qed.
End MigrationsKeep.

(** X14: when a run of the migrator succeeds, on whatever database, the
    tables threads, insights, dependencies, config and insights_fts
    exist, the insights table has the columns author_id and
    endorsed_by, and the seven indexes and three triggers of the first
    migration exist. *)
Theorem RunMigrations_establishes (db db' : migrations.Schema) :
  migrations.RunMigrations db = (Ok (), db') →
  (∀ name, name ∈ ["threads"; "insights"; "dependencies"; "config"; "insights_fts"] →
     is_Some (migrations.tables db' !! migrations.fold name)) ∧
  (∃ t, migrations.tables db' !! migrations.fold "insights" = Some t ∧
        "author_id" ∈ migrations.columns t ∧
        "endorsed_by" ∈ migrations.columns t) ∧
  (∀ name, name ∈ ["idx_insights_thread_id"; "idx_insights_type";
                   "idx_insights_timestamp"; "idx_insights_created_at";
                   "idx_threads_status"; "idx_dependencies_from";
                   "idx_dependencies_to"] →
     is_Some (migrations.indexes db' !! migrations.fold name)) ∧
  (∀ name, name ∈ ["insights_fts_insert"; "insights_fts_delete";
                   "insights_fts_update"] →
     is_Some (migrations.triggers db' !! migrations.fold name)).
Proof.
  intros Hrun. destruct RunMigrations_settles as (Hpost & _ & _).
  destruct (Hpost _ _ Hrun)
    as (_ & (H1 & H2 & H3 & Hidx) & Hauthor & Hendorsed & Hcfg).
  clear Hrun Hpost.
  unfold migrations.initialIndexes in Hidx.
  apply Forall_cons in Hidx as [(_ & _ & I1) Hidx].
  apply Forall_cons in Hidx as [(_ & _ & I2) Hidx].
  apply Forall_cons in Hidx as [(_ & _ & I3) Hidx].
  apply Forall_cons in Hidx as [(_ & _ & I4) Hidx].
  apply Forall_cons in Hidx as [(_ & _ & I5) Hidx].
  apply Forall_cons in Hidx as [(_ & _ & I6) Hidx].
  apply Forall_cons in Hidx as [(_ & _ & I7) Hidx].
  apply Forall_cons in Hidx as [H4 Hidx].
  apply Forall_cons in Hidx as [[_ G1] Hidx].
  apply Forall_cons in Hidx as [[_ G2] Hidx].
  apply Forall_cons in Hidx as [[_ G3] _].
  split_and!.
  - intros name Hname.
    repeat (apply elem_of_cons in Hname as [->|Hname]; [assumption|]).
    by apply elem_of_nil in Hname.
  - destruct Hauthor as (t & Ht & Ha). destruct Hendorsed as (t' & Ht' & He).
    rewrite Ht in Ht'. injection Ht' as <-. exists t. split_and!; assumption.
  - intros name Hname.
    repeat (apply elem_of_cons in Hname as [->|Hname]; [assumption|]).
    by apply elem_of_nil in Hname.
  - intros name Hname.
    repeat (apply elem_of_cons in Hname as [->|Hname]; [assumption|]).
    by apply elem_of_nil in Hname.
Qed.

Lemma RunMigrations_establishes_witness :
  is_Some (migrations.tables sample.migratedSchema !! "config") ∧
  ∃ t, migrations.tables sample.migratedSchema !! "insights" = Some t ∧
       "author_id" ∈ migrations.columns t ∧ "endorsed_by" ∈ migrations.columns t.
Proof.
  assert (migrations.RunMigrations sample.legacySchema
          = (Ok (), sample.migratedSchema)) as Hrun by by vm_compute.
  destruct (RunMigrations_establishes _ _ Hrun) as (Htables & Hcols & _).
  split; [|exact Hcols]. apply (Htables "config").
  apply (bool_decide_unpack _). by vm_compute.
Defined.

(** X15: a run of the migrator, whether it succeeds or fails, drops
    nothing: every table the database had is still there with the
    columns it had, in their order, before any new one, and every index
    and trigger is as it was. *)
Theorem RunMigrations_never_drops (db : migrations.Schema) :
  (∀ name t,
     migrations.tables db !! name = Some t →
     ∃ t', migrations.tables (migrations.RunMigrations db).2 !! name = Some t' ∧
           migrations.module t' = migrations.module t ∧
           migrations.columns t `prefix_of` migrations.columns t') ∧
  migrations.indexes db ⊆ migrations.indexes (migrations.RunMigrations db).2 ∧
  migrations.triggers db ⊆ migrations.triggers (migrations.RunMigrations db).2.
Proof.
  apply (RunMigrations_keeping db (migrations.RunMigrations db).1).
  by destruct (migrations.RunMigrations db).
Qed.

(** X1: [IsValid] accepts exactly the six insight types that
    [ValidInsightTypes] lists, and the list names no type twice. *)
Theorem IsValid_ValidInsightTypes (t : types.InsightType) :
  (types.IsValid t = true ↔ t ∈ types.ValidInsightTypes) ∧
  NoDup types.ValidInsightTypes.
Proof.
  split.
  - unfold types.IsValid, types.ValidInsightTypes.
    rewrite !elem_of_cons, elem_of_nil. case_decide; naive_solver.
  - apply (bool_decide_unpack _). by vm_compute.
Qed.


(** ** Files written and read *)

Section Files.
Import types json jsonl.
Context `{!encoding_json}.

(** The records before the first one that cannot be encoded are
    written, and the error is that of this record. *)
Lemma encodeAll_failure {A} (marshal : A → result json)
    (unmarshal : string → result A) (g : A → A) msg good bad rest e :
  Forall (readsBackAs marshal unmarshal g) good →
  marshal bad = Err e →
  ∃ text lines,
    encodeAll marshal msg (good ++ bad :: rest) = (text, Some (Wrapf msg e)) ∧
    bufio.Scan text = (lines, None) ∧
    ∀ k, decodeLines unmarshal k lines = Ok (g <$> good).
Proof.
  intros Hgood Hbad.
  induction Hgood as [|x items (j & Hj & Hline & Hback) _
                        (text & lines & Htext & Hscan & Hlines)].
  - exists "", []. simpl. rewrite Hbad. by split_and!.
  - exists (encodeText j +:+ newline +:+ text), (encodeText j :: lines).
    split_and!.
    + simpl. by rewrite Hj, Htext.
    + by rewrite Scan_line, Hscan.
    + intros k. simpl.
      rewrite decide_False by (rewrite length_0_empty; by destruct Hline).
      by rewrite Hback, Hlines.
Qed.

Lemma writeJSONL_files data filePath fs :
  canCreate fs filePath = true →
  ∃ text, files (writeJSONL data filePath fs).1 = <[filePath := text]> (files fs) ∧
          ∀ fs2, canCreate fs2 filePath = true →
                 files (writeJSONL data filePath fs2).1
                 = <[filePath := text]> (files fs2) ∧
                 (writeJSONL data filePath fs2).2 = (writeJSONL data filePath fs).2.
Proof.
  intros Hcreate. unfold writeJSONL. rewrite Hcreate. simpl.
  destruct data as [items|items|items|].
  - destruct (encodeAll marshalInsight _ items) as [text err].
    exists text. split; [done|]. by intros fs2 ->.
  - destruct (encodeAll marshalInsightThread _ items) as [text err].
    exists text. split; [done|]. by intros fs2 ->.
  - destruct (encodeAll marshalDependency _ items) as [text err].
    exists text. split; [done|]. by intros fs2 ->.
  - exists "". split; [done|]. by intros fs2 ->.
Qed.
End Files.

(** X16: an export to a path that cannot be created fails with the
    create error and changes no file. Otherwise, whether the encoding
    succeeds or not, the export replaces the file at its path by a text
    that depends on the data alone, not on what the file held, and
    leaves every other file as it was. An import from a path without
    a file fails with the open error under the importer's own
    message. *)
Theorem export_replaces_file `{!encoding_json} (data : jsonl.exportData)
    (fs : jsonl.FS) (filePath : string) :
  (jsonl.canCreate fs filePath = false →
   jsonl.writeJSONL data filePath fs =
     (fs, Err (Wrapf ("failed to create file " +:+ filePath)
                 (PathError "open" filePath)))) ∧
  (jsonl.canCreate fs filePath = true →
   is_Some (jsonl.files (jsonl.writeJSONL data filePath fs).1 !! filePath) ∧
   (∀ other, other ≠ filePath →
      jsonl.files (jsonl.writeJSONL data filePath fs).1 !! other
      = jsonl.files fs !! other) ∧
   (∀ fs2, jsonl.canCreate fs2 filePath = true →
      jsonl.files (jsonl.writeJSONL data filePath fs2).1 !! filePath
      = jsonl.files (jsonl.writeJSONL data filePath fs).1 !! filePath ∧
      (jsonl.writeJSONL data filePath fs2).2 = (jsonl.writeJSONL data filePath fs).2)) ∧
  (jsonl.files fs !! filePath = None →
   let missing := Wrapf ("failed to open file " +:+ filePath)
                    (PathError "open" filePath) in
   jsonl.ImportInsights filePath fs = Err (Wrapf "failed to import insights" missing) ∧
   jsonl.ImportThreads filePath fs = Err (Wrapf "failed to import threads" missing) ∧
   jsonl.ImportDependencies filePath fs
   = Err (Wrapf "failed to import dependencies" missing)).
Proof.
  split_and!.
  - intros Hcreate. unfold jsonl.writeJSONL. by rewrite Hcreate.
  - intros Hcreate.
    destruct (writeJSONL_files data filePath fs Hcreate) as (text & Hfiles & Hany).
    rewrite Hfiles. split_and!.
    + by rewrite lookup_insert_eq.
    + intros other Hne. by rewrite lookup_insert_ne.
    + intros fs2 Hcreate2. destruct (Hany fs2 Hcreate2) as [-> ->].
      by rewrite !lookup_insert_eq.
  - intros Hmissing missing.
    unfold jsonl.ImportInsights, jsonl.ImportThreads, jsonl.ImportDependencies,
      jsonl.readJSONL.
    by rewrite Hmissing.
Qed.

(** X17: an export stops at the first insight that cannot be encoded
    and returns its error under "failed to encode insight"; the file
    then holds the insights before it, which an import reads back, and
    none of those after it. *)
Theorem export_stops_at_first_failure `{!encoding_json} (fs : jsonl.FS)
    (filePath : string) (good rest : list types.Insight) (bad : types.Insight)
    (e : error) :
  jsonl.canCreate fs filePath = true →
  Forall exportableInsight good →
  json.marshalInsight bad = Err e →
  ∃ fs', jsonl.ExportInsights (good ++ bad :: rest) filePath fs
         = (fs', Err (Wrapf "failed to encode insight" e)) ∧
         jsonl.ImportInsights filePath fs' = Ok (importedInsight <$> good).
Proof.
  intros Hcreate Hgood Hbad.
  destruct (encodeAll_failure json.marshalInsight
              (λ line, json.Unmarshal json.unmarshalInsight line json.zeroInsight)
              importedInsight "failed to encode insight" good bad rest e)
    as (text & lines & Htext & Hscan & Hlines); [|done|].
  { eapply Forall_impl; [done|]. apply exportableInsight_readsBack. }
  eexists. unfold jsonl.ExportInsights, jsonl.writeJSONL.
  rewrite Hcreate, Htext. simpl. split; [reflexivity|].
  unfold jsonl.ImportInsights. by erewrite readJSONL_written.
Qed.

Section SampleExport.
#[local] Existing Instance sampleJSON.lib.

Lemma export_replaces_file_witness :
  jsonl.ImportInsights "insights.jsonl" sampleFiles.emptyFS
  = Err (Wrapf "failed to import insights"
           (Wrapf "failed to open file insights.jsonl"
              (PathError "open" "insights.jsonl"))) ∧
  jsonl.files (jsonl.writeJSONL (jsonl.Threads [sampleFiles.fullThread])
                 "threads.jsonl" sampleFiles.fsLogs).1 !! "good.jsonl"
  = Some sampleFiles.goodLog.
Proof.
  destruct (export_replaces_file (jsonl.Threads [sampleFiles.fullThread])
              sampleFiles.fsLogs "threads.jsonl") as (_ & Hwrite & _).
  destruct (export_replaces_file (jsonl.Insights [])
              sampleFiles.emptyFS "insights.jsonl") as (_ & _ & Hread).
  split.
  - by apply Hread.
  - destruct (Hwrite eq_refl) as (_ & Hother & _).
    by rewrite Hother.
Defined.

Lemma export_stops_at_first_failure_witness :
  ∃ fs', jsonl.ExportInsights sampleExport.batch "insights.jsonl" sampleFiles.emptyFS
         = (fs', Err (Wrapf "failed to encode insight"
                        (JSONError "json: unsupported value"))) ∧
         jsonl.ImportInsights "insights.jsonl" fs' = Ok [sampleFiles.fullInsight].
Proof.
  apply (export_stops_at_first_failure sampleFiles.emptyFS "insights.jsonl"
           [sampleFiles.fullInsight] [sampleFiles.bareInsight] sampleExport.insNaN).
  - reflexivity.
  - apply Forall_cons_2; [|apply Forall_nil_2].
    split_and!.
    + eexists; split; [vm_compute; reflexivity|]; vm_compute; reflexivity.
    + eexists; split; [vm_compute; reflexivity|]; vm_compute; reflexivity.
    + eexists; split; [vm_compute; reflexivity|]; vm_compute; reflexivity.
    + intros j Hj. vm_compute in Hj. injection Hj as <-.
      split; [vm_compute; reflexivity|apply (bool_decide_unpack _); by vm_compute].
  - by vm_compute.
Defined.
End SampleExport.

(** ** The commands *)

Section Reverse.
Import types cmd.

Lemma insert_middle {A} (l1 l2 : list A) (x y : A) (n : nat) :
  n = length l1 → <[n := y]> (l1 ++ x :: l2) = l1 ++ y :: l2.
Proof.
  intros ->. rewrite <- (Nat.add_0_r (length l1)). by rewrite insert_app_r.
Qed.

(** The loop of [reverseInsights] reverses the part of the slice
    between its two indexes. *)
Lemma reverseLoop_middle {A} (fuel : nat) :
  ∀ (pre mid post : list A) (i j : Z),
    i = Z.of_nat (length pre) →
    j = i + Z.of_nat (length mid) - 1 →
    (length mid ≤ fuel)%nat →
    reverseLoop fuel i j (pre ++ mid ++ post) = Some (pre ++ reverse mid ++ post).
Proof.
  induction fuel as [|fuel IH]; intros pre mid post i j Hi Hj Hlen.
  - destruct mid; [|simpl in Hlen; lia]. simpl in *.
    by rewrite decide_False by lia.
  - destruct mid as [|x mid]; [simpl in *; by rewrite decide_False by lia|].
    destruct mid as [|y mid _] using rev_ind;
      [simpl in *; by rewrite decide_False by lia|].
    rewrite length_cons, length_app in Hj, Hlen. simpl in Hj, Hlen.
    assert (pre ++ (x :: mid ++ [y]) ++ post = (pre ++ x :: mid) ++ y :: post)
      as -> by (simpl; by rewrite <- !app_assoc).
    assert (((pre ++ x :: mid) ++ y :: post) !! Z.to_nat i = Some x) as Hx.
    { rewrite <- app_assoc. simpl. apply list_lookup_middle. lia. }
    assert (((pre ++ x :: mid) ++ y :: post) !! Z.to_nat j = Some y) as Hy.
    { apply list_lookup_middle. rewrite length_app. simpl. lia. }
    assert (<[Z.to_nat j := x]> (<[Z.to_nat i := y]> ((pre ++ x :: mid) ++ y :: post))
            = (pre ++ [y]) ++ mid ++ x :: post) as Hswap.
    { rewrite <- (app_assoc pre). simpl.
      rewrite (insert_middle pre _ x y) by lia.
      replace (pre ++ y :: mid ++ y :: post) with ((pre ++ y :: mid) ++ y :: post)
        by (by rewrite <- app_assoc).
      rewrite (insert_middle (pre ++ y :: mid) _ y x)
        by (rewrite length_app; simpl; lia).
      by rewrite <- !app_assoc. }
    generalize dependent ((pre ++ x :: mid) ++ y :: post). intros l Hx Hy Hswap.
    simpl. rewrite decide_True by lia. rewrite Hx. simpl. rewrite Hy. simpl.
    rewrite Hswap.
    rewrite (IH (pre ++ [y]) mid (x :: post));
      [|rewrite length_app; simpl; lia|lia|lia].
    f_equal. rewrite reverse_cons, reverse_snoc. simpl.
    by rewrite <- !app_assoc.
Qed.

Lemma reverseInsights_Some insights : reverseInsights insights = Some (reverse insights).
Proof.
  unfold reverseInsights.
  pose proof (reverseLoop_middle (length insights) [] insights []
                0 (Z.of_nat (length insights) - 1)) as H.
  rewrite !app_nil_r in H. simpl in H. apply H; [done|lia|done].
Qed.
End Reverse.

Section Timeline.
Import types store cmd.


End Timeline.

Section Strings.

Lemma length_append (s1 s2 : string) :
  String.length (s1 +:+ s2) = (String.length s1 + String.length s2)%nat.
Proof. induction s1 as [|c s1 IH]; simpl; [done|]. by rewrite IH. Qed.

Lemma length_substring_0 (n : nat) (s : string) :
  String.length (String.substring 0 n s) = (n `min` String.length s)%nat.
Proof.
  revert s. induction n as [|n IH]; intros [|c s]; simpl; try done.
  by rewrite IH.
Qed.

Lemma length_replaceNewlines (s : string) :
  String.length (replaceNewlines s) = String.length s.
Proof. induction s as [|c s IH]; simpl; [done|]. by rewrite IH. Qed.

Lemma bytesOf_append (s1 s2 : string) : bytesOf (s1 +:+ s2) = bytesOf s1 ++ bytesOf s2.
Proof. induction s1 as [|c s1 IH]; simpl; [done|]. unfold bytesOf in *. simpl. by rewrite IH. Qed.

Lemma bytesOf_substring_0 (n : nat) (s : string) :
  bytesOf (String.substring 0 n s) = take n (bytesOf s).
Proof.
  revert s. induction n as [|n IH]; intros [|c s]; simpl; try done.
  unfold bytesOf in *. simpl. by rewrite IH.
Qed.

Lemma replaceNewlines_no_newline (s : string) :
  lineFeed ∉ bytesOf (replaceNewlines s).
Proof.
  induction s as [|c s IH]; unfold bytesOf, lineFeed in *; simpl;
    [apply not_elem_of_nil|].
  apply not_elem_of_cons. split; [|done].
  case_decide; [done|congruence].
Qed.

Lemma replaceNewlines_id (s : string) :
  lineFeed ∉ bytesOf s → replaceNewlines s = s.
Proof.
  induction s as [|c s IH]; unfold bytesOf, lineFeed in *; simpl; [done|].
  intros [Hc Hs]%not_elem_of_cons. rewrite decide_False by congruence.
  f_equal. auto.
Qed.

(** A text that starts with a given text. *)
Lemma substring_0_prefix (p s : string) :
  String.substring 0 (String.length p) s = p → ∃ rest, s = p +:+ rest.
Proof.
  revert s. induction p as [|c p IH]; intros s; simpl.
  - intros _. by exists s.
  - destruct s as [|c' s]; [done|]. intros [= -> Hp].
    destruct (IH s Hp) as [rest ->]. by exists rest.
Qed.

Lemma substring_0_append (p rest : string) :
  String.substring 0 (String.length p) (p +:+ rest) = p.
Proof.
  induction p as [|c p IH]; simpl; [by destruct rest|]. by rewrite IH.
Qed.
End Strings.

Section TraceLinks.
Import types store cmd.

(** Two items that follow each other in a chain: the store holds an
    edge the walk follows, from the first to the second, of the type
    the second records. *)
Definition linkedTo (db : DB) (a b : chainItem) : Prop :=
  ∃ dep, dep ∈ dependencies db ∧
         From dep = insightID a ∧ To dep = insightID b ∧
         DepType dep = relationFromPrev b ∧ backEdge dep.

Definition linked (db : DB) (chain : list chainItem) : Prop :=
  ∀ k a b, chain !! k = Some a → chain !! S k = Some b → linkedTo db a b.

(** The relation the head of the chain records is the one to the
    insight the walk visits next. *)
Definition headOk (db : DB) (current : string) (chain : list chainItem) : Prop :=
  match chain with
  | [] => True
  | h :: _ =>
      firstBackEdge (selectDependenciesTo (insightID h) db)
      = (current, relationFromPrev h)
  end.

Lemma linked_cons db current relation chain :
  current ≠ "" → linked db chain → headOk db current chain →
  linked db (mkChainItem current relation :: chain).
Proof.
  intros Hcur Hlinked Hhead [|k] a b Ha Hb; [|by eapply (Hlinked k)].
  simpl in Ha, Hb. simplify_eq. destruct chain as [|h chain]; simplify_eq/=.
  destruct (firstBackEdge_cases (selectDependenciesTo (insightID b) db))
    as [[Hnone _]|(older & d & newer & Hdeps & _ & Hback & Hfirst)].
  - rewrite Hhead in Hnone. by simplify_eq.
  - rewrite Hhead in Hfirst. simplify_eq.
    assert (d ∈ selectDependenciesTo (insightID b) db) as Hin
      by (rewrite Hdeps; set_solver).
    apply elem_of_selectDependenciesTo in Hin as [Hto Hin].
    by exists d.
Qed.

Lemma traceChainLoop_linked db fuel :
  ∀ visited current chain r,
    linked db chain → headOk db current chain →
    traceChainLoop (λ toID, GetDependents toID db) fuel visited current chain
    = Some r →
    linked db r ∧ ∃ more, r = more ++ chain.
Proof.
  induction fuel as [|fuel IH]; intros visited current chain r Hlinked Hhead;
    simpl; case_decide as Hgo; try done.
  - intros [= <-]. split; [done|]. by exists [].
  - destruct (firstBackEdge (selectDependenciesTo current db))
      as [prevID relation] eqn:Hfirst.
    intros Hrun. destruct Hgo as [Hcur _].
    destruct (IH _ _ _ _ (linked_cons db current relation chain Hcur Hlinked Hhead)
                Hfirst Hrun) as [Hr [more ->]].
    split; [done|]. exists (more ++ [mkChainItem current relation]).
    by rewrite <- app_assoc.
  - intros [= <-]. split; [done|]. by exists [].
Qed.

Lemma traceChainLoop_start db fuel visited startID r :
  startID ≠ "" → startID ∉ visited →
  traceChainLoop (λ toID, GetDependents toID db) fuel visited startID [] = Some r →
  linked db r ∧ ∃ items relation, r = items ++ [mkChainItem startID relation].
Proof.
  intros Hne Hnew. destruct fuel as [|fuel]; simpl;
    rewrite decide_True by done; [done|].
  destruct (firstBackEdge (selectDependenciesTo startID db))
    as [prevID relation] eqn:Hfirst.
  intros Hrun.
  destruct (traceChainLoop_linked db fuel _ _ _ _
              (linked_cons db startID relation [] Hne (λ k a b H, ltac:(done)) I)
              Hfirst Hrun) as [Hr [more ->]].
  split; [done|]. by exists more, relation.
Qed.

(** *** Beads nothing spawned *)

Lemma filter_nil_Forall {A} (P : A → Prop) `{!∀ x, Decision (P x)} (l : list A) :
  Forall (λ x, ¬ P x) l → filter P l = [].
Proof.
  induction 1 as [|x l Hx _ IH]; [done|]. by rewrite filter_cons_False.
Qed.

Lemma spawning_nil beadID db (all : list Insight) :
  (∀ ins d, ins ∈ all → d ∈ dependencies db → From d = ID ins →
            To d = beadID → DepType d ≠ DepSpawns) →
  spawning beadID db all = [].
Proof.
  induction all as [|ins all IH]; intros Hnone; [done|].
  simpl. rewrite IH.
  - rewrite filter_nil_Forall; [done|].
    apply Forall_forall.
    intros d [Hfrom Hin]%elem_of_selectDependenciesFrom [Hto Hty].
    apply (Hnone ins d); [by left|done..].
  - intros ins' d Hins. apply Hnone. by right.
Qed.

Lemma ListInsights_all_ids db all ins :
  ListInsights "" "" 0 db = Ok all → ins ∈ all → hasInsight (ID ins) db.
Proof.
  intros Hall Hin. destruct (ListInsights_all db) as (all' & Hall' & Hperm).
  rewrite Hall in Hall'. injection Hall' as <-.
  rewrite Hperm in Hin. unfold hasInsight.
  rewrite <- ID_scanInsight. by apply list_elem_of_fmap_2.
Qed.
End TraceLinks.

(** X18: [reverseInsights] ends for every slice without reading or
    writing outside of it and leaves the slice in reverse order;
    applied twice it gives the slice back. *)
Theorem reverseInsights_reverses (insights : list types.Insight) :
  cmd.reverseInsights insights = Some (reverse insights) ∧
  (reversed ← cmd.reverseInsights insights; cmd.reverseInsights reversed)
  = Some insights.
Proof.
  split; [apply reverseInsights_Some|].
  rewrite reverseInsights_Some. simpl.
  by rewrite reverseInsights_Some, reverse_involutive.
Qed.


(** X20: for a limit of at least 3, [truncateForTrace] returns a text
    of at most that many bytes without a line feed: the text itself,
    line feeds replaced by spaces, when it fits, and otherwise its
    first bytes up to the limit less three, followed by three dots,
    which fill the limit exactly. *)
Theorem truncateForTrace_bound (s : string) (maxLen : nat) :
  (3 ≤ maxLen)%nat →
  (String.length (cmd.truncateForTrace s maxLen) <= maxLen)%nat ∧
  (lineFeed ∉ bytesOf (cmd.truncateForTrace s maxLen)) ∧
  ((String.length s ≤ maxLen)%nat →
   cmd.truncateForTrace s maxLen = replaceNewlines s ∧
   ((lineFeed ∉ bytesOf s) → cmd.truncateForTrace s maxLen = s)) ∧
  ((maxLen < String.length s)%nat →
   String.length (cmd.truncateForTrace s maxLen) = maxLen ∧
   bytesOf (cmd.truncateForTrace s maxLen)
   = take (maxLen - 3) (bytesOf (replaceNewlines s)) ++ bytesOf "...").
Proof.
  intros Hmax. unfold cmd.truncateForTrace.
  rewrite length_replaceNewlines.
  pose proof (replaceNewlines_no_newline s) as Hnl.
  case_decide as Hfit.
  - rewrite length_replaceNewlines. split_and!; [done|done| |lia].
    intros _. split; [done|]. apply replaceNewlines_id.
  - assert (String.length (String.substring 0 (maxLen - 3) (replaceNewlines s) +:+ "...")
            = maxLen) as Hlen.
    { rewrite length_append, length_substring_0, length_replaceNewlines. simpl. lia. }
    assert (bytesOf (String.substring 0 (maxLen - 3) (replaceNewlines s) +:+ "...")
            = take (maxLen - 3) (bytesOf (replaceNewlines s)) ++ bytesOf "...") as Hbytes
      by by rewrite bytesOf_append, bytesOf_substring_0.
    split_and!; [lia| |lia|done].
    rewrite Hbytes. rewrite not_elem_of_app. split.
    + intros Hin%elem_of_take. destruct Hin as (k & Hk & _).
      apply Hnl. by eapply list_elem_of_lookup_2.
    + by vm_compute; intros Hin; repeat (apply elem_of_cons in Hin as [?|Hin]; [done|]);
        apply elem_of_nil in Hin.
Qed.

Lemma truncateForTrace_bound_witness :
  cmd.truncateForTrace ("first line" +:+ newline +:+ "second line") 50
  = "first line second line" ∧
  String.length
    (cmd.truncateForTrace
       "The token cache returns an entry that expired five minutes ago" 50) = 50%nat.
Proof.
  split.
  - destruct (truncateForTrace_bound
                ("first line" +:+ newline +:+ "second line") 50)
      as (_ & _ & Hfit & _); [lia|].
    destruct Hfit as [-> _]; [simpl; lia|]. reflexivity.
  - destruct (truncateForTrace_bound
                "The token cache returns an entry that expired five minutes ago" 50)
      as (_ & _ & _ & Hcut); [lia|].
    apply Hcut. simpl. lia.
Defined.

(** X21: the chain [traceChain] returns for a start insight ends with
    that insight, and is empty for the empty identifier; of two items
    that follow each other, the store holds a builds-on or supersedes
    dependency from the first to the second, of the type the second
    item records. *)
Theorem traceChain_linked (db : store.DB) (startID : string)
    (insightMap : gmap string types.Insight) (fuel : nat)
    (chain : list cmd.chainItem) :
  cmd.traceChain (λ toID, store.GetDependents toID db) fuel startID insightMap
  = Some chain →
  (startID = "" → chain = []) ∧
  (startID ≠ "" →
   ∃ items relation, chain = items ++ [cmd.mkChainItem startID relation]) ∧
  (∀ k a b,
     chain !! k = Some a → chain !! S k = Some b →
     ∃ dep, dep ∈ store.dependencies db ∧
            types.From dep = cmd.insightID a ∧ types.To dep = cmd.insightID b ∧
            types.DepType dep = cmd.relationFromPrev b ∧
            (types.DepType dep = types.DepBuildsOn ∨
             types.DepType dep = types.DepSupersedes)).
Proof.
  unfold cmd.traceChain. intros Hrun.
  destruct (decide (startID = "")) as [->|Hne].
  - assert (chain = []) as ->.
    { destruct fuel; simpl in Hrun;
        try rewrite decide_False in Hrun by naive_solver; by simplify_eq. }
    split_and!; [done|done|]. intros k a b Ha. by rewrite lookup_nil in Ha.
  - destruct (traceChainLoop_start db fuel ∅ startID chain Hne) as [Hlinked Hend];
      [set_solver|done|].
    split_and!; [done|done|]. intros k a b Ha Hb. by apply (Hlinked k).
Qed.

Lemma traceChain_linked_witness :
  ∃ items relation,
    [cmd.mkChainItem "ins-000a" ""; cmd.mkChainItem "ins-000b" "builds-on"]
    = items ++ [cmd.mkChainItem "ins-000b" relation].
Proof.
  apply (traceChain_linked sample.dbTrace "ins-000b" ∅ 4); [by vm_compute|done].
Defined.

(** X22: [runTrace] rejects an identifier that is not a bead
    identifier without printing. For a bead identifier that no stored
    insight spawns, which includes one whose spawns dependency starts at
    an insight that is not in the store, it prints that no insight
    was found, adds the note when there is no .beads directory, and
    returns no error. *)
Theorem runTrace_nothing_spawned (fuel : nat) (beadsPresent : bool)
    (beadID : string) (db : store.DB) :
  (beads.IsBeadID beadID = false →
   cmd.runTrace fuel beadsPresent beadID db =
     Some ([], Err (Errorf ("invalid bead ID format: " +:+ beadID
                            +:+ " (expected bead-xxx or bd-xxx)")))) ∧
  (beads.IsBeadID beadID = true →
   (∀ dep, dep ∈ store.dependencies db → types.To dep = beadID →
           types.DepType dep = types.DepSpawns →
           ¬ store.hasInsight (types.From dep) db) →
   cmd.runTrace fuel beadsPresent beadID db =
     Some (["No insights found that spawn " +:+ beadID +:+ newline] ++
           (if beadsPresent then [] else
              [newline +:+ "Note: No .beads/ directory found. The bead may exist in another project." +:+ newline]),
           Ok ())).
Proof.
  unfold cmd.runTrace. split.
  - by intros ->.
  - intros -> Hnone. cbn [negb].
    destruct (store.ListInsights "" "" 0 db) as [all|e] eqn:Hall; [|done].
    rewrite spawning_nil; [reflexivity|].
    intros ins d Hins Hd Hfrom Hto Hty.
    apply (Hnone d Hd Hto Hty). rewrite Hfrom.
    by eapply ListInsights_all_ids.
Qed.

Lemma runTrace_nothing_spawned_witness :
  cmd.runTrace 4 true "ins-000b" sample.dbTrace =
    Some ([], Err (Errorf "invalid bead ID format: ins-000b (expected bead-xxx or bd-xxx)")) ∧
  cmd.runTrace 4 true "bead-7f2a" sampleTrace.dbOrphan =
    Some (["No insights found that spawn bead-7f2a" +:+ newline], Ok ()).
Proof.
  split.
  - by apply (proj1 (runTrace_nothing_spawned 4 true "ins-000b" sample.dbTrace)).
  - apply (proj2 (runTrace_nothing_spawned 4 true "bead-7f2a" sampleTrace.dbOrphan));
      [done|].
    intros dep Hin Hto Hty.
    change (store.dependencies sampleTrace.dbOrphan)
      with [sample.depAB; sample.depBX] in Hin.
    apply elem_of_cons in Hin as [->|Hin]; [done|].
    apply elem_of_cons in Hin as [->|Hin]; [|by apply elem_of_nil in Hin].
    apply (bool_decide_unpack _). by vm_compute.
Defined.

Section Flags.
Import types store cmd.



(** The dependency the [link] command builds from its flags, when
    exactly one of them is set. *)
Lemma runLink_single toID depType fromID now db flags :
  flags = (1%nat, toID, depType) →
  (let '(count, toID, depType) := flags in
   if decide (count = 0%nat) then
     (db, ([], Err (Errorf "no dependency type specified. Use --builds-on, --supersedes, --contradicts, or --spawns")))
   else if decide (1 < count)%nat then
     (db, ([], Err (Errorf "only one dependency type can be specified at a time")))
   else
     let dep := NewDependency fromID toID depType now in
     match AddDependency dep db with
     | (db', Err err) => (db', ([], Err (Wrapf "failed to add dependency" err)))
     | (db', Ok _) =>
         (db', (["Created dependency: " +:+ fromID +:+ " -> " +:+ toID +:+ " ["
                 +:+ depType +:+ "]" +:+ newline], Ok ()))
     end)
  = match AddDependency (mkDependency fromID toID depType now) db with
    | (db', Err err) => (db', ([], Err (Wrapf "failed to add dependency" err)))
    | (db', Ok _) =>
        (db', (["Created dependency: " +:+ fromID +:+ " -> " +:+ toID +:+ " ["
                +:+ depType +:+ "]" +:+ newline], Ok ()))
    end.
Proof. by intros ->. Qed.
End Flags.

(** X23: the [link] command needs exactly one of its four flags. With
    none it fails asking for a type, with more than one it fails as
    well, and in both cases the store is untouched. With one flag it
    adds the dependency from the insight given to the target of the
    flag, of the type of the flag, stamped with the current time, and
    reports it; if the store holds that edge the command fails with the
    store's error and changes nothing. *)
Theorem runLink_one_flag
    (linkBuildsOn linkSupersedes linkContradicts linkSpawns fromID : string)
    (now : Time) (db : store.DB) :
  let given :=
    filter (λ flag : string * types.DependencyType, flag.1 ≠ "")
      [ (linkBuildsOn, types.DepBuildsOn); (linkSupersedes, types.DepSupersedes);
        (linkContradicts, types.DepContradicts); (linkSpawns, types.DepSpawns) ] in
  let run :=
    cmd.runLink linkBuildsOn linkSupersedes linkContradicts linkSpawns fromID now db in
  (given = [] →
   run = (db, ([], Err (Errorf "no dependency type specified. Use --builds-on, --supersedes, --contradicts, or --spawns")))) ∧
  ((1 < length given)%nat →
   run = (db, ([], Err (Errorf "only one dependency type can be specified at a time")))) ∧
  (∀ toID depType,
     given = [(toID, depType)] →
     (¬ store.hasEdge (types.mkDependency fromID toID depType now) db →
      run = (store.mkDB (store.threads db) (store.insights db)
               (store.dependencies db ++ [types.mkDependency fromID toID depType now])
               (store.config db),
             (["Created dependency: " +:+ fromID +:+ " -> " +:+ toID +:+ " ["
               +:+ depType +:+ "]" +:+ newline], Ok ()))) ∧
     (store.hasEdge (types.mkDependency fromID toID depType now) db →
      ∃ e, run = (db, ([], Err (Wrapf "failed to add dependency" e))) ∧ Duplicate e)).
Proof.
  intros given run. subst given run. unfold cmd.runLink, cmd.linkFlag.
  rewrite !filter_cons, filter_nil. simpl.
  destruct (decide (linkBuildsOn ≠ "")), (decide (linkSupersedes ≠ "")),
    (decide (linkContradicts ≠ "")), (decide (linkSpawns ≠ ""));
    simpl; (split_and!; [try done; intros; simpl in *; lia
                        |try done; intros; simpl in *; lia|]);
    intros toID depType Hgiven; simplify_eq;
    (split;
     [ intros Hnew; unfold types.NewDependency;
       by rewrite AddDependency_absent
     | intros Hold; unfold types.NewDependency;
       rewrite AddDependency_present by done;
       eexists; split; [done|]; simpl; by eexists ]).
Qed.

Lemma runLink_one_flag_witness :
  cmd.runLink "" "" "" "" "ins-000c" 600 sample.dbTrace
  = (sample.dbTrace,
     ([], Err (Errorf "no dependency type specified. Use --builds-on, --supersedes, --contradicts, or --spawns"))) ∧
  cmd.runLink "ins-000b" "ins-000a" "" "" "ins-000c" 600 sample.dbTrace
  = (sample.dbTrace,
     ([], Err (Errorf "only one dependency type can be specified at a time"))) ∧
  cmd.runLink "" "ins-000b" "" "" "ins-000c" 600 sample.dbTrace
  = (store.mkDB [] (store.insights sample.dbTrace)
       [sample.depAB; sample.depBX;
        types.mkDependency "ins-000c" "ins-000b" types.DepSupersedes 600] [],
     (["Created dependency: ins-000c -> ins-000b [supersedes]" +:+ newline], Ok ())) ∧
  ∃ e, cmd.runLink "ins-000b" "" "" "" "ins-000a" 600 sample.dbTrace
       = (sample.dbTrace, ([], Err (Wrapf "failed to add dependency" e))) ∧
       Duplicate e.
Proof.
  split_and!.
  - by apply (proj1 (runLink_one_flag "" "" "" "" "ins-000c" 600 sample.dbTrace)).
  - apply (proj1 (proj2 (runLink_one_flag "ins-000b" "ins-000a" "" "" "ins-000c"
                           600 sample.dbTrace))).
    simpl. lia.
  - apply (proj2 (proj2 (runLink_one_flag "" "ins-000b" "" "" "ins-000c"
                           600 sample.dbTrace)) "ins-000b" types.DepSupersedes eq_refl).
    apply (bool_decide_unpack _). by vm_compute.
  - apply (proj2 (proj2 (runLink_one_flag "ins-000b" "" "" "" "ins-000a"
                           600 sample.dbTrace)) "ins-000b" types.DepBuildsOn eq_refl).
    apply (bool_decide_unpack _). by vm_compute.
Defined.



(** X25: [determineInsightType] returns a valid insight type whenever
    it returns one. It returns the value of --type when no shorthand
    flag is set and the value is a valid type, the type of the
    shorthand flag when exactly one is set and --type is not, and
    discovery when nothing is set; in every other case it fails. *)
Theorem determineInsightType_valid
    (captureHypothesis captureDiscovery captureQuestion captureFeedback
     capturePivot captureDecision : bool) (captureType : string) :
  let flags :=
    [ (captureHypothesis, types.InsightHypothesis);
      (captureDiscovery, types.InsightDiscovery);
      (captureQuestion, types.InsightQuestion);
      (captureFeedback, types.InsightFeedback);
      (capturePivot, types.InsightPivot);
      (captureDecision, types.InsightDecision) ] in
  let set := snd <$> filter (λ flag : bool * types.InsightType, flag.1 = true) flags in
  let run :=
    cmd.determineInsightType captureHypothesis captureDiscovery captureQuestion
      captureFeedback capturePivot captureDecision captureType in
  (∀ t, run = Ok t → types.IsValid t = true) ∧
  (captureType ≠ "" → set = [] → types.IsValid captureType = true →
   run = Ok captureType) ∧
  (captureType = "" → ∀ t, set = [t] → run = Ok t) ∧
  (captureType = "" → set = [] → run = Ok types.InsightDiscovery) ∧
  ((captureType ≠ "" ∧ (set ≠ [] ∨ types.IsValid captureType = false)) ∨
   (captureType = "" ∧ (1 < length set)%nat) →
   ∃ e, run = Err e).
Proof.
  intros flags set run. subst flags set run.
  unfold cmd.determineInsightType, cmd.typeFlag.
  destruct captureHypothesis, captureDiscovery, captureQuestion, captureFeedback,
    capturePivot, captureDecision; simpl;
    destruct (decide (captureType ≠ "")) as [Hty|Hty];
    try (apply dec_stable in Hty);
    destruct (types.IsValid captureType) eqn:Hvalid; simpl;
    (split_and!;
     [ intros t Ht; simplify_eq; done
     | intros; simplify_eq; done
     | intros; simplify_eq; done
     | intros; simplify_eq; done
     | intros [(? & [?|?])|(? & ?)]; simplify_eq; simpl in *;
       try lia; by eexists ]).
Qed.

(** X26: an identifier is a thread identifier exactly when it is
    "thr-" followed by at least one byte, an insight identifier when it
    is "ins-" followed by at least one byte, and a bead identifier when
    it is "bead-" followed by at least one byte or "bd-" followed by at
    least three; no identifier is of two of these kinds. *)
Theorem identifier_kinds (id : string) :
  (beads.IsThreadID id = true ↔ ∃ rest, id = "thr-" +:+ rest ∧ rest ≠ "") ∧
  (beads.IsInsightID id = true ↔ ∃ rest, id = "ins-" +:+ rest ∧ rest ≠ "") ∧
  (beads.IsBeadID id = true ↔
     (∃ rest, id = "bead-" +:+ rest ∧ rest ≠ "") ∨
     (∃ rest, id = "bd-" +:+ rest ∧ (3 ≤ String.length rest)%nat)) ∧
  beads.IsThreadID id && beads.IsInsightID id = false ∧
  beads.IsThreadID id && beads.IsBeadID id = false ∧
  beads.IsInsightID id && beads.IsBeadID id = false.
Proof.
  assert (∀ p : string, (∃ rest, id = p +:+ rest) ↔
            String.substring 0 (String.length p) id = p) as Hprefix.
  { intros p. split; [intros [rest ->]; apply substring_0_append
                     |apply substring_0_prefix]. }
  unfold beads.IsThreadID, beads.IsInsightID, beads.IsBeadID.
  split_and!.
  - rewrite andb_true_iff, !bool_decide_eq_true. split.
    + intros [Hlen [rest ->]%(substring_0_prefix "thr-")].
      exists rest. split; [done|]. intros ->. simpl in Hlen. lia.
    + intros (rest & -> & Hne). split; [|apply (substring_0_append "thr-")].
      rewrite length_append. destruct rest; [done|simpl; lia].
  - rewrite andb_true_iff, !bool_decide_eq_true. split.
    + intros [Hlen [rest ->]%(substring_0_prefix "ins-")].
      exists rest. split; [done|]. intros ->. simpl in Hlen. lia.
    + intros (rest & -> & Hne). split; [|apply (substring_0_append "ins-")].
      rewrite length_append. destruct rest; [done|simpl; lia].
  - rewrite andb_true_iff, orb_true_iff, !bool_decide_eq_true. split.
    + intros [Hlen [[rest ->]%(substring_0_prefix "bead-")
                   |[rest ->]%(substring_0_prefix "bd-")]].
      * left. exists rest. split; [done|]. intros ->. simpl in Hlen. lia.
      * right. exists rest. split; [done|]. rewrite length_append in Hlen.
        simpl in Hlen. lia.
    + intros [(rest & -> & Hne)|(rest & -> & Hlen)].
      * split; [|left; apply (substring_0_append "bead-")].
        rewrite length_append. destruct rest; [done|simpl; lia].
      * split; [|right; apply (substring_0_append "bd-")].
        rewrite length_append. simpl. lia.
  - apply andb_false_iff.
    destruct (bool_decide (String.substring 0 4 id = "thr-")) eqn:H1;
      [|left; by rewrite andb_false_r].
    right. apply bool_decide_eq_true in H1.
    apply (substring_0_prefix "thr-") in H1 as [rest ->].
    by rewrite andb_false_r.
  - apply andb_false_iff.
    destruct (bool_decide (String.substring 0 4 id = "thr-")) eqn:H1;
      [|left; by rewrite andb_false_r].
    right. apply bool_decide_eq_true in H1.
    apply (substring_0_prefix "thr-") in H1 as [rest ->].
    by rewrite andb_false_r.
  - apply andb_false_iff.
    destruct (bool_decide (String.substring 0 4 id = "ins-")) eqn:H1;
      [|left; by rewrite andb_false_r].
    right. apply bool_decide_eq_true in H1.
    apply (substring_0_prefix "ins-") in H1 as [rest ->].
    by rewrite andb_false_r.
Qed.

Section SpawnPlaceholder.
Import types store cmd.

(** The identifier [GenerateID] builds for the empty prefix and what
    [runSpawn] keeps of it. *)
Lemma GenerateID_empty_prefix src :
  ∃ d0 d1 d2 d3,
    GenerateID "" src
    = (String "-" (String d0 (String d1 (String d2 (String d3 "")))), drop 4 src) ∧
    isHexDigit d3 = true.
Proof.
  pose proof (randRead_length 4 src) as Hlen.
  unfold GenerateID.
  destruct (randRead 4 src) as [bytes src'] eqn:Hread. simpl in Hlen.
  assert (src' = drop 4 src) as -> by (unfold randRead in Hread; by simplify_eq).
  destruct bytes as [|b0 [|b1 [|b2 [|b3 [|]]]]]; simplify_eq/=.
  do 4 eexists. split; [reflexivity|]. apply hexdigit_isHexDigit.
Qed.
End SpawnPlaceholder.

(** X27: without a .beads directory, [runSpawn] on a stored insight
    links it by a spawns dependency to a placeholder that is "bead-"
    followed by a single hexadecimal digit, the last of the four
    [GenerateID] returns, which [IsBeadID] accepts: there are sixteen
    placeholders. If the insight is already linked to the placeholder
    drawn, the command fails with the store's Duplicate error and adds
    nothing. *)
Theorem runSpawn_placeholder (Quote : string → string)
    (spawnTitle insightID : string) (now : Time) (src : types.entropy)
    (db : store.DB) (insight : types.Insight) :
  beads.IsInsightID insightID = true →
  store.GetInsight insightID db = Ok insight →
  ∃ digit dep,
    types.isHexDigit digit = true ∧
    dep = types.mkDependency insightID ("bead-" +:+ String digit "")
            types.DepSpawns now ∧
    beads.IsBeadID (types.To dep) = true ∧
    (¬ store.hasEdge dep db →
     ∃ out, cmd.runSpawn Quote spawnTitle false insightID now src db
            = Some (store.mkDB (store.threads db) (store.insights db)
                      (store.dependencies db ++ [dep]) (store.config db),
                    drop 4 src, (out, Ok ()))) ∧
    (store.hasEdge dep db →
     ∃ out e, cmd.runSpawn Quote spawnTitle false insightID now src db
              = Some (db, drop 4 src,
                      (out, Err (Wrapf "failed to create dependency" e))) ∧
              Duplicate e).
Proof.
  intros Hid Hget.
  destruct (GenerateID_empty_prefix src) as (d0 & d1 & d2 & d3 & Hgen & Hhex).
  exists d3, (types.mkDependency insightID ("bead-" +:+ String d3 "")
                types.DepSpawns now).
  split_and!; [done|done|done|..].
  - intros Hnew. unfold cmd.runSpawn. rewrite Hid, Hget, Hgen. cbn [negb].
    unfold cmd.sliceFrom. simpl. unfold types.NewDependency.
    rewrite AddDependency_absent by done. by eexists.
  - intros Hold. unfold cmd.runSpawn. rewrite Hid, Hget, Hgen. cbn [negb].
    unfold cmd.sliceFrom. simpl. unfold types.NewDependency.
    rewrite AddDependency_present by done. do 2 eexists. split; [done|].
    simpl. by eexists.
Qed.

Lemma runSpawn_placeholder_witness :
  beads.IsInsightID "ins-000a" = true ∧
  store.GetInsight "ins-000a" sample.dbTrace = Ok sample.insA ∧
  ∃ digit dep,
    types.isHexDigit digit = true ∧
    dep = types.mkDependency "ins-000a" ("bead-" +:+ String digit "")
            types.DepSpawns 700 ∧
    beads.IsBeadID (types.To dep) = true ∧
    (¬ store.hasEdge dep sample.dbTrace →
     ∃ out, cmd.runSpawn (λ s, s) "Upgrade JWT library" false "ins-000a" 700
              [xde; xad; xbe; xef] sample.dbTrace
            = Some (store.mkDB (store.threads sample.dbTrace)
                      (store.insights sample.dbTrace)
                      (store.dependencies sample.dbTrace ++ [dep])
                      (store.config sample.dbTrace),
                    drop 4 [xde; xad; xbe; xef], (out, Ok ()))) ∧
    (store.hasEdge dep sample.dbTrace →
     ∃ out e, cmd.runSpawn (λ s, s) "Upgrade JWT library" false "ins-000a" 700
                [xde; xad; xbe; xef] sample.dbTrace
              = Some (sample.dbTrace, drop 4 [xde; xad; xbe; xef],
                      (out, Err (Wrapf "failed to create dependency" e))) ∧
              Duplicate e).
Proof.
  split; [reflexivity|]. split; [reflexivity|].
  apply (runSpawn_placeholder (λ s, s) "Upgrade JWT library" "ins-000a" 700
           [xde; xad; xbe; xef] sample.dbTrace sample.insA); reflexivity.
Defined.

Section CaptureStores.
Import types store cmd.





End CaptureStores.


